(** * Coursera course scraper (main.py): model and verified properties

    The functions of [main.py] are embedded as Rocq functions that keep the
    names of the source.

    - Text is a Rocq [string] read as a sequence of code points below 256,
      with Python's [str.isspace], [str.lower] and the classes [\s], [\d],
      [\w] of [re] on that range.
    - Python's [re] is modelled by a backtracking matcher for the constructs
      the program's patterns use; each pattern of the source is written as a
      term next to its text.
    - The parsed document (BeautifulSoup) is a tree of elements and text
      nodes with the queries the program makes ([select], [find_all],
      [get_text], [string], parents and next siblings).  As in current
      versions of the library, [get_text] of an element leaves out the
      contents of [script] and [style] elements below it.
    - [json.loads] and [str] are parameters of the detail extractor.
    - The browser driver is an interface whose operations change a state of
      the world and may raise; the program runs in a state-and-exception
      monad that also records the calls it makes.  The loop [while True] of
      the discovery and the retry loop take a bound on their iterations, and
      a run that needs more is reported as [NoFuel].
    - The progress lines printed on the console are not modelled. *)

From Stdlib Require Import String Ascii NArith ZArith QArith List Lia Bool.
From Stdlib Require Import DecimalString DecimalNat.
From stdpp Require Import base option list strings gmap.

Open Scope string_scope.

Set Warnings "-register-all".

#[global] Arguments String.append !_ _ / : simpl nomatch.

(* ===================================================================== *)
(** * Part I: definitions *)
(* ===================================================================== *)

(** ** Characters and strings, as Python's [str] treats them *)

Module Text.

Definition code (c : ascii) : N := N_of_ascii c.

Definition between (lo hi n : N) : bool := (lo <=? n)%N && (n <=? hi)%N.

(** [str.isspace] on one code point; also the class [\s] of [re]. *)
Definition isspace (c : ascii) : bool :=
  let n := code c in
  between 9 13 n || between 28 32 n || (n =? 133)%N || (n =? 160)%N.

(** The class [\d] of [re]. *)
Definition isdigit (c : ascii) : bool := between 48 57 (code c).

(** The class [\w] of [re] (alphanumeric or underscore). *)
Definition isword (c : ascii) : bool :=
  let n := code c in
  between 48 57 n || between 65 90 n || (n =? 95)%N || between 97 122 n
  || (n =? 170)%N || between 178 179 n || (n =? 181)%N || between 185 186 n
  || between 188 190 n || between 192 214 n || between 216 246 n
  || between 248 255 n.

(** [str.lower] on one code point. *)
Definition lower_char (c : ascii) : ascii :=
  let n := code c in
  if between 65 90 n || between 192 214 n || between 216 222 n
  then ascii_of_N (n + 32) else c.

Fixpoint lower (s : string) : string :=
  match s with
  | "" => ""
  | String c s' => String (lower_char c) (lower s')
  end.

Fixpoint lstrip (s : string) : string :=
  match s with
  | "" => ""
  | String c s' => if isspace c then lstrip s' else s
  end.

Fixpoint rstrip (s : string) : string :=
  match s with
  | "" => ""
  | String c s' =>
      match rstrip s' with
      | "" => if isspace c then "" else String c ""
      | r => String c r
      end
  end.

(** [str.strip()] *)
Definition strip (s : string) : string := rstrip (lstrip s).

(** [sub in s] *)
Fixpoint contains (sub s : string) : bool :=
  String.prefix sub s ||
  match s with
  | "" => false
  | String _ s' => contains sub s'
  end.

(** [sep.join(l)] *)
Fixpoint join (sep : string) (l : list string) : string :=
  match l with
  | [] => ""
  | [x] => x
  | x :: l' => x ++ sep ++ join sep l'
  end.

(** [str.split()] with no argument: the maximal runs of non-whitespace. *)
Fixpoint split_ws (cur : string) (s : string) : list string :=
  match s with
  | "" => match cur with "" => [] | _ => [cur] end
  | String c s' =>
      if isspace c
      then match cur with "" => split_ws "" s' | _ => cur :: split_ws "" s' end
      else split_ws (cur ++ String c "") s'
  end.

Definition split (s : string) : list string := split_ws "" s.

(** Truthiness of a string: [bool(s)]. *)
Definition nonempty (s : string) : bool :=
  match s with "" => false | _ => true end.

(** [s[i:i+n]] *)
Definition slice (i n : nat) (s : string) : string := String.substring i n s.

End Text.

(** ** Regular expressions: the fragment of Python's [re] the program uses *)

Module Regex.
Import Text.

(** Only group 0 is ever read by the program, so groups are not recorded.
    Repetition is applied to character classes only ([\d+], [\s*], [\s+]),
    which is all the patterns of the program need. *)
Inductive re : Type :=
| Eps
| Bol                              (* ^ *)
| WordB                            (* \b *)
| Chr (p : ascii -> bool)          (* one character of a class *)
| Cat (r1 r2 : re)
| Alt (r1 r2 : re)                 (* r1|r2, left alternative first *)
| Opt (r : re)                     (* r?, greedy *)
| Star (p : ascii -> bool).        (* [p]*, greedy *)

Definition Plus (p : ascii -> bool) : re := Cat (Chr p) (Star p).

Definition is_char (x : ascii) : ascii -> bool := fun c => Ascii.eqb c x.
(** a literal character under [re.I] *)
Definition is_char_i (x : ascii) : ascii -> bool :=
  fun c => Ascii.eqb (lower_char c) (lower_char x).

Fixpoint lit (s : string) : re :=
  match s with
  | "" => Eps
  | String c "" => Chr (is_char c)
  | String c s' => Cat (Chr (is_char c)) (lit s')
  end.

Fixpoint lit_i (s : string) : re :=
  match s with
  | "" => Eps
  | String c "" => Chr (is_char_i c)
  | String c s' => Cat (Chr (is_char_i c)) (lit_i s')
  end.

Fixpoint alts (rs : list re) : re :=
  match rs with
  | [] => Eps
  | [r] => r
  | r :: rs' => Alt r (alts rs')
  end.

Fixpoint cats (rs : list re) : re :=
  match rs with
  | [] => Eps
  | [r] => r
  | r :: rs' => Cat r (cats rs')
  end.

Definition word_opt (c : option ascii) : bool :=
  match c with Some c => isword c | None => false end.

Definition head_char (s : string) : option ascii :=
  match s with "" => None | String c _ => Some c end.

Section Run.
  Context {A : Type}.

(** A continuation receives the character before the current position,
    the number of characters consumed so far, and the rest of the input. *)
Definition cont := option ascii -> nat -> string -> option A.

Fixpoint star (p : ascii -> bool) (k : cont)
         (prev : option ascii) (n : nat) (s : string) : option A :=
  match s with
  | "" => k prev n ""
  | String c s' =>
      if p c
      then match star p k (Some c) (S n) s' with
           | Some x => Some x
           | None => k prev n s
           end
      else k prev n s
  end.

(** Backtracking matcher: alternatives and repetitions are explored in
    the order [re] explores them, the first success is returned. *)
Fixpoint run (r : re) (k : cont)
         (prev : option ascii) (n : nat) (s : string) : option A :=
  match r with
  | Eps => k prev n s
  | Bol => match prev with None => k prev n s | Some _ => None end
  | WordB =>
      if xorb (word_opt prev) (word_opt (head_char s))
      then k prev n s else None
  | Chr p =>
      match s with
      | "" => None
      | String c s' => if p c then k (Some c) (S n) s' else None
      end
  | Cat r1 r2 => run r1 (run r2 k) prev n s
  | Alt r1 r2 =>
      match run r1 k prev n s with
      | Some x => Some x
      | None => run r2 k prev n s
      end
  | Opt r1 =>
      match run r1 k prev n s with
      | Some x => Some x
      | None => k prev n s
      end
  | Star p => star p k prev n s
  end.
End Run.

(** Length of the match of [r] that starts at the current position. *)
Definition match_here (r : re) (prev : option ascii) (s : string) : option nat :=
  run r (fun _ n _ => Some n) prev 0 s.

(** [re.search]: the leftmost position at which [r] matches, with the
    length of the match found there. *)
Fixpoint search_from (r : re) (prev : option ascii) (i : nat) (s : string)
  : option (nat * nat) :=
  match match_here r prev s with
  | Some n => Some (i, n)
  | None =>
      match s with
      | "" => None
      | String c s' => search_from r (Some c) (S i) s'
      end
  end.

Definition search (r : re) (s : string) : option (nat * nat) :=
  search_from r None 0 s.

(** [re.search(r, s).group(0)] *)
Definition search_group0 (r : re) (s : string) : option string :=
  match search r s with
  | Some (i, n) => Some (slice i n s)
  | None => None
  end.

(** [re.sub(r, repl, s)] for a pattern that never matches the empty string
    (true of both patterns the program substitutes).  [skip] counts the
    characters of the current match that are still to be dropped. *)
Fixpoint sub_from (r : re) (repl : string) (prev : option ascii)
         (skip : nat) (s : string) : string :=
  match s with
  | "" => ""
  | String c s' =>
      match skip with
      | S k => sub_from r repl (Some c) k s'
      | O =>
          match match_here r prev s with
          | Some (S n) => repl ++ sub_from r repl (Some c) n s'
          | _ => String c (sub_from r repl (Some c) O s')
          end
      end
  end.

Definition sub (r : re) (repl : string) (s : string) : string :=
  sub_from r repl None 0 s.

End Regex.

Export Text Regex.

(** ** HELPERS of main.py *)

(** [re.sub(r"\s+", " ", s or "").strip()] *)
Definition clean_text (s : option string) : string :=
  strip (sub (Plus isspace) " " (default "" s)).

Definition normalize_level (text : string) : option string :=
  let t := lower text in
  if contains "beginner" t then Some "Beginner"
  else if contains "intermediate" t then Some "Intermediate"
  else if contains "advanced" t then Some "Advanced"
  else None.

(** The vocabulary of [extract_duration_like]. *)
Definition time_keywords : list string :=
  [ "hour"; "hours"; "hr"; "hrs";
    "week"; "weeks"; "wk"; "wks";
    "month"; "months"; "mo"; "mos";
    "day"; "days"; "minute"; "minutes"; "min"; "mins";
    "approx"; "approximately"; "estimated"; "complete";
    "pace"; "commitment"; "time" ].

(** [r'^(duration|time|estimated|approximately|approx):\s*'] with [re.I] *)
Definition duration_label_re : re :=
  cats [ Bol;
         alts [ lit_i "duration"; lit_i "time"; lit_i "estimated";
                lit_i "approximately"; lit_i "approx" ];
         Chr (is_char_i ":"); Star isspace ].

Definition extract_duration_like (text : string) : option string :=
  let t := lower text in
  if existsb (fun k => contains k t) time_keywords
  then
    let cleaned := clean_text (Some text) in
    let cleaned := sub duration_label_re "" cleaned in
    Some cleaned
  else None.

(** [(\d+(?:\.\d+)?)] *)
Definition number_re : re :=
  Cat (Plus isdigit) (Opt (Cat (Chr (is_char ".")) (Plus isdigit))).

(** The pattern list of [parse_duration_from_text], in the order of the source. *)
Definition pat_hours : re :=     (* (\d+(?:\.\d+)?)\s*(hour|hours|hr|hrs)\s*(?:per\s*week|weekly)? *)
  cats [ number_re; Star isspace;
         alts [ lit "hour"; lit "hours"; lit "hr"; lit "hrs" ];
         Star isspace;
         Opt (Alt (cats [ lit "per"; Star isspace; lit "week" ]) (lit "weekly")) ].
Definition pat_weeks : re :=     (* (\d+(?:\.\d+)?)\s*(week|weeks|wk|wks) *)
  cats [ number_re; Star isspace; alts [ lit "week"; lit "weeks"; lit "wk"; lit "wks" ] ].
Definition pat_months : re :=    (* (\d+(?:\.\d+)?)\s*(month|months|mo|mos) *)
  cats [ number_re; Star isspace; alts [ lit "month"; lit "months"; lit "mo"; lit "mos" ] ].
Definition pat_days : re :=      (* (\d+(?:\.\d+)?)\s*(day|days) *)
  cats [ number_re; Star isspace; alts [ lit "day"; lit "days" ] ].
Definition pat_minutes : re :=   (* (\d+(?:\.\d+)?)\s*(minute|minutes|min|mins) *)
  cats [ number_re; Star isspace; alts [ lit "minute"; lit "minutes"; lit "min"; lit "mins" ] ].
Definition pat_approximately : re := (* approximately\s*(\d+(?:\.\d+)?)\s*(hour|hours|week|weeks) *)
  cats [ lit "approximately"; Star isspace; number_re; Star isspace;
         alts [ lit "hour"; lit "hours"; lit "week"; lit "weeks" ] ].
Definition pat_about : re :=     (* about\s*(\d+(?:\.\d+)?)\s*(hour|hours|week|weeks) *)
  cats [ lit "about"; Star isspace; number_re; Star isspace;
         alts [ lit "hour"; lit "hours"; lit "week"; lit "weeks" ] ].
Definition pat_range : re :=     (* (\d+(?:\.\d+)?)-(\d+(?:\.\d+)?)\s*(hour|hours|week|weeks) *)
  cats [ number_re; Chr (is_char "-"); number_re; Star isspace;
         alts [ lit "hour"; lit "hours"; lit "week"; lit "weeks" ] ].

Definition duration_patterns : list re :=
  [ pat_hours; pat_weeks; pat_months; pat_days; pat_minutes;
    pat_approximately; pat_about; pat_range ].

(** The loop [for pattern in patterns: match = re.search(pattern, text.lower()) ...] *)
Fixpoint first_match (patterns : list re) (t : string) : option string :=
  match patterns with
  | [] => None
  | pattern :: rest =>
      match search_group0 pattern t with
      | Some g => Some (strip g)
      | None => first_match rest t
      end
  end.

Definition parse_duration_from_text (text : string) : option string :=
  if nonempty text
  then first_match duration_patterns (lower text)
  else None.

(** ** The parsed document: the part of BeautifulSoup the program uses *)

Module Soup.

(** A document is a tree of elements and text nodes.  Attribute values are
    strings; the value of [class] is the space-separated class list.
    Comments and processing instructions are not represented. *)
Inductive node : Type :=
| Text (s : string)
| Elem (name : string) (attrs : list (string * string)) (children : list node).

Definition is_elem (n : node) : bool :=
  match n with Elem _ _ _ => true | Text _ => false end.

Definition name_of (n : node) : string :=
  match n with Elem name _ _ => name | Text _ => "" end.

Definition children_of (n : node) : list node :=
  match n with Elem _ _ kids => kids | Text _ => [] end.

Definition name_in (names : list string) (n : node) : bool :=
  match n with
  | Elem name _ _ => existsb (String.eqb name) names
  | Text _ => false
  end.

Fixpoint assoc (key : string) (l : list (string * string)) : option string :=
  match l with
  | [] => None
  | (k, v) :: l' => if String.eqb k key then Some v else assoc key l'
  end.

(** [tag.get(key)] *)
Definition get (key : string) (n : node) : option string :=
  match n with Elem _ attrs _ => assoc key attrs | Text _ => None end.

(** A node in its place: its parent, the siblings that follow it, and the
    siblings that follow its parent. *)
Record ctx : Type := MkCtx {
  c_node : node;
  c_parent : node;
  c_next : list node;
  c_parent_next : list node
}.

(** Every node below [n] in document order, each in its place; [psibs] are
    the siblings that follow [n] itself. *)
Fixpoint contexts (psibs : list node) (n : node) : list ctx :=
  match n with
  | Text _ => []
  | Elem _ _ kids =>
      (fix go (ks : list node) : list ctx :=
         match ks with
         | [] => []
         | k :: ks' => ((MkCtx k n ks' psibs :: contexts ks' k) ++ go ks')%list
         end) kids
  end.

(** [tag.descendants] *)
Definition descendants (n : node) : list node :=
  map c_node (contexts [] n).

(** [tag.find_all(names)]: the elements below [n] with one of the names. *)
Definition find_all (names : list string) (n : node) : list node :=
  filter (fun d => name_in names d) (descendants n).

(** [tag.find_all(names, limit=k)] *)
Definition find_all_limit (names : list string) (k : nat) (n : node) : list node :=
  firstn k (find_all names n).

(** Elements whose strings are kept apart from the page text. *)
Definition raw_text (name : string) : bool :=
  existsb (String.eqb name) ["script"; "style"].

(** The ordinary strings below a node. *)
Fixpoint strings_in (n : node) : list string :=
  match n with
  | Text s => [s]
  | Elem name _ kids =>
      if raw_text name then []
      else (fix go (ks : list node) : list string :=
              match ks with
              | [] => []
              | k :: ks' => (strings_in k ++ go ks')%list
              end) kids
  end.

Fixpoint direct_strings (ks : list node) : list string :=
  match ks with
  | [] => []
  | Text s :: ks' => s :: direct_strings ks'
  | Elem _ _ _ :: ks' => direct_strings ks'
  end.

(** The strings [get_text] joins: for an ordinary element the ordinary
    strings below it (the contents of [script] and [style] are skipped),
    for a [script] or [style] element its own contents. *)
Definition all_strings (n : node) : list string :=
  match n with
  | Text s => [s]
  | Elem name _ kids =>
      if raw_text name then direct_strings kids else strings_in n
  end.

(** [tag.get_text(separator, strip=strip_)] *)
Definition get_text (separator : string) (strip_ : bool) (n : node) : string :=
  join separator
       (if strip_
        then filter (fun s => nonempty s) (map strip (all_strings n))
        else all_strings n).

(** [tag.string] *)
Fixpoint string_of (n : node) : option string :=
  match n with
  | Text s => Some s
  | Elem _ _ [k] => string_of k
  | Elem _ _ _ => None
  end.

(** The CSS selectors that occur in the program. *)
Inductive selector : Type :=
| SelAttrContains (a v : string)       (* [a*="v"] *)
| SelClass (c : string)                (* .c *)
| SelTagAttrPrefix (t a v : string)    (* t[a^="v"] *)
| SelTag (t : string)                  (* t *)
| SelOr (s1 s2 : selector).            (* s1, s2 *)

Fixpoint sel_matches (sel : selector) (n : node) : bool :=
  match sel with
  | SelAttrContains a v =>
      match get a n with Some x => contains v x | None => false end
  | SelClass c =>
      match get "class" n with
      | Some x => existsb (String.eqb c) (split x)
      | None => false
      end
  | SelTagAttrPrefix t a v =>
      is_elem n && String.eqb (name_of n) t &&
      match get a n with Some x => String.prefix v x | None => false end
  | SelTag t => is_elem n && String.eqb (name_of n) t
  | SelOr s1 s2 => sel_matches s1 n || sel_matches s2 n
  end.

(** [soup.select(sel)] *)
Definition select (sel : selector) (n : node) : list node :=
  filter (fun d => is_elem d && sel_matches sel d) (descendants n).

(** [soup.find_all(names, class_=f)] for a test [f] on the class value. *)
Definition find_all_class (names : list string) (f : string -> bool) (n : node)
  : list node :=
  filter (fun d => name_in names d &&
                   match get "class" d with Some x => f x | None => false end)
         (descendants n).

(** [soup.find_all(name, type=v)] *)
Definition find_all_attr (name key v : string) (n : node) : list node :=
  filter (fun d => name_in [name] d &&
                   match get key d with Some x => String.eqb x v | None => false end)
         (descendants n).

(** [soup.find_all(text=re.compile(r))]: the text nodes that [r] matches
    somewhere, each in its place. *)
Definition is_hit (r : re) (c : ctx) : bool :=
  match c_node c with
  | Text s => match search r s with Some _ => true | None => false end
  | Elem _ _ _ => false
  end.

Definition find_all_text (r : re) (n : node) : list ctx :=
  filter (fun c => is_hit r c) (contexts [] n).

(** [tag.find_next_siblings()] of the parent of a found node: the elements
    among the siblings that follow the parent. *)
Definition parent_next_siblings (c : ctx) : list node :=
  filter (fun d => is_elem d) (c_parent_next c).

(** [tag.find_next_sibling()] *)
Definition find_next_sibling (c : ctx) : option node :=
  head (filter (fun d => is_elem d) (c_next c)).

(** The elements with one of the names, each in its place. *)
Definition find_all_ctx (names : list string) (n : node) : list ctx :=
  filter (fun c => name_in names (c_node c)) (contexts [] n).

End Soup.

Export Soup.

(** ** Python values that reach the [duration] variable *)

(** The values [json.loads] can return (numbers are kept to integers);
    a [dict] is the list of its items, looked up by key. *)
Inductive pyval : Type :=
| PyNone
| PyBool (b : bool)
| PyInt (z : Z)
| PyStr (s : string)
| PyList (l : list pyval)
| PyDict (d : list (string * pyval)).

(** [bool(v)] *)
Definition truthy (v : pyval) : bool :=
  match v with
  | PyNone => false
  | PyBool b => b
  | PyInt z => negb (z =? 0)%Z
  | PyStr s => nonempty s
  | PyList l => match l with [] => false | _ => true end
  | PyDict d => match d with [] => false | _ => true end
  end.

Fixpoint dict_get (key : string) (d : list (string * pyval)) : option pyval :=
  match d with
  | [] => None
  | (k, v) :: d' => if String.eqb k key then Some v else dict_get key d'
  end.

(** The first element of a list on which [f] succeeds: a [for] loop that
    assigns and breaks at the first success. *)
Fixpoint first_some {A B : Type} (f : A -> option B) (l : list A) : option B :=
  match l with
  | [] => None
  | x :: l' =>
      match f x with
      | Some y => Some y
      | None => first_some f l'
      end
  end.

(** ** DETAIL PAGE PARSING *)

Section Detail.

(** [json.loads]; [None] stands for a raised exception.  [py_str] is [str]. *)
Variable json_loads : string -> option pyval.
Variable py_str : pyval -> string.

(** [clean_text(el.get_text(" ", strip=True))] *)
Definition element_text (el : node) : string :=
  clean_text (Some (get_text " " true el)).

(** [if d and len(d) < 50] *)
Definition short_enough (d : option string) : option string :=
  match d with
  | Some d => if nonempty d && (String.length d <? 50)%nat then Some d else None
  | None => None
  end.

(** [if d] for a result of [parse_duration_from_text] *)
Definition if_nonempty (d : option string) : option string :=
  match d with
  | Some d => if nonempty d then Some d else None
  | None => None
  end.

(** Strategy 1: specific duration selectors, keyword sniff. *)
Definition duration_selectors : list selector :=
  [ SelAttrContains "data-testid" "duration";
    SelAttrContains "class" "duration";
    SelAttrContains "class" "time";
    SelAttrContains "class" "Duration";
    SelAttrContains "aria-label" "duration";
    SelAttrContains "aria-label" "time";
    SelClass "rc-Duration";
    SelClass "duration-text";
    SelClass "course-duration" ].

Definition strategy1 (soup : node) : option string :=
  first_some
    (fun pattern =>
       first_some
         (fun el => short_enough (extract_duration_like (element_text el)))
         (select pattern soup))
    duration_selectors.

(** Strategy 2: structured data.  The value of [timeRequired] is taken as it
    is, the value of [duration] through [str]; a script that does not parse
    or is not an object is skipped. *)
Definition script_duration (script : node) : option pyval :=
  match string_of script with
  | None => None
  | Some text =>
      match json_loads text with
      | Some (PyDict data) =>
          match dict_get "timeRequired" data with
          | Some v => Some v
          | None =>
              match dict_get "duration" data with
              | Some v => Some (PyStr (py_str v))
              | None => None
              end
          end
      | _ => None
      end
  end.

Definition strategy2 (soup : node) : option pyval :=
  first_some script_duration
             (find_all_attr "script" "type" "application/ld+json" soup).

(** Strategy 3: elements of info sections that show a number and a unit. *)
Definition info_keywords : list string :=
  [ "info"; "detail"; "overview"; "about"; "course-info" ].

Definition info_class (x : string) : bool :=
  nonempty x && existsb (fun keyword => contains keyword (lower x)) info_keywords.

(** [r'\b\d+\s*(hour|hours|week|weeks|month|months|day|days|hr|hrs|wk|wks)\b']
    with [re.I] *)
Definition number_unit_re : re :=
  cats [ WordB; Plus isdigit; Star isspace;
         alts [ lit_i "hour"; lit_i "hours"; lit_i "week"; lit_i "weeks";
                lit_i "month"; lit_i "months"; lit_i "day"; lit_i "days";
                lit_i "hr"; lit_i "hrs"; lit_i "wk"; lit_i "wks" ];
         WordB ].

Definition strategy3 (soup : node) : option string :=
  first_some
    (fun section =>
       first_some
         (fun el =>
            let txt := element_text el in
            match search number_unit_re txt with
            | Some _ => short_enough (extract_duration_like txt)
            | None => None
            end)
         (find_all ["span"; "div"; "li"; "p"] section))
    (find_all_class ["div"; "section"] info_class soup).

(** Strategy 4: metadata and sidebar selectors, precise patterns. *)
Definition metadata_selectors : list selector :=
  [ SelAttrContains "class" "sidebar"; SelAttrContains "class" "meta";
    SelAttrContains "class" "info"; SelAttrContains "class" "details";
    SelAttrContains "class" "overview"; SelAttrContains "class" "stats";
    SelAttrContains "class" "course-info"; SelAttrContains "class" "CourseInfo" ].

Definition strategy4 (soup : node) : option string :=
  first_some
    (fun selector =>
       first_some
         (fun el => if_nonempty (parse_duration_from_text (element_text el)))
         (select selector soup))
    metadata_selectors.

(** Strategy 5: text nodes with a commitment keyword; their parent and the
    parent's next three sibling elements. *)
Definition commitment_keywords : list string :=
  [ "commitment"; "time to complete"; "estimated time"; "duration"; "length" ].

Definition strategy5 (soup : node) : option string :=
  first_some
    (fun keyword =>
       first_some
         (fun el =>
            first_some
              (fun sibling =>
                 if_nonempty (parse_duration_from_text (element_text sibling)))
              (c_parent el :: firstn 3 (parent_next_siblings el)))
         (find_all_text (lit_i keyword) soup))
    commitment_keywords.

(** Strategy 6: title and headings. *)
Definition strategy6 (soup : node) : option string :=
  first_some
    (fun el => if_nonempty (parse_duration_from_text (element_text el)))
    (find_all ["title"; "h1"; "h2"; "h3"] soup).

(** Strategy 7: three shapes searched in the text of the whole page. *)
Definition plural (s : string) : re := Cat (lit_i s) (Opt (Chr (is_char_i "s"))).

(** The first shape, with blanks between the tokens of the pattern:
    [( \d+ (?: \. \d+ )? ) \s* (?: to \s* )? ( \d+ (?: \. \d+ )? )? \s*
     ( hours? | hrs? ) \s* (?: per \s* week | weekly )], under [re.I]. *)
Definition hours_per_week_re : re :=
  cats [ number_re; Star isspace; Opt (Cat (lit_i "to") (Star isspace));
         Opt number_re; Star isspace; Alt (plural "hour") (plural "hr");
         Star isspace;
         Alt (cats [ lit_i "per"; Star isspace; lit_i "week" ]) (lit_i "weekly") ].

(** The second shape:
    [complete \s* in \s* ( \d+ (?: \. \d+ )? ) \s* ( weeks? | months? | days? )]. *)
Definition complete_in_re : re :=
  cats [ lit_i "complete"; Star isspace; lit_i "in"; Star isspace; number_re;
         Star isspace; alts [ plural "week"; plural "month"; plural "day" ] ].

(** The third shape:
    [( \d+ (?: \. \d+ )? ) \s* ( weeks? | months? ) \s*
     (?: to \s* complete | duration | long )]. *)
Definition weeks_long_re : re :=
  cats [ number_re; Star isspace; Alt (plural "week") (plural "month");
         Star isspace;
         alts [ cats [ lit_i "to"; Star isspace; lit_i "complete" ];
                lit_i "duration"; lit_i "long" ] ].

Definition strategy7 (soup : node) : option string :=
  let page_text := clean_text (Some (get_text " " false soup)) in
  let duration_match := search_group0 hours_per_week_re page_text in
  let duration_match :=
    match duration_match with
    | Some g => Some g
    | None => search_group0 complete_in_re page_text
    end in
  let duration_match :=
    match duration_match with
    | Some g => Some g
    | None => search_group0 weeks_long_re page_text
    end in
  match duration_match with
  | Some g => Some (strip g)
  | None => None
  end.

(** Strategy 8: fallback over all text-bearing elements. *)
Definition strategy8 (soup : node) : option string :=
  first_some
    (fun el =>
       let txt := element_text el in
       if ((5 <? String.length txt) && (String.length txt <? 100))%nat
       then if_nonempty (parse_duration_from_text txt)
       else None)
    (find_all ["span"; "div"; "li"; "p"] soup).

(** One block [if not duration: ...] of the cascade: the strategy runs only
    while [duration] is falsy, and assigns only when it finds a value. *)
Definition unless_found (duration : pyval) (found_value : option pyval) : pyval :=
  if truthy duration then duration
  else match found_value with
       | Some v => v
       | None => duration
       end.

Definition as_str (d : option string) : option pyval := option_map PyStr d.

(** The [--- Duration ---] block of [parse_course_detail]. *)
Definition detail_duration (soup : node) : pyval :=
  let duration := PyNone in
  let duration := unless_found duration (as_str (strategy1 soup)) in
  let duration := unless_found duration (strategy2 soup) in
  let duration := unless_found duration (as_str (strategy3 soup)) in
  let duration := unless_found duration (as_str (strategy4 soup)) in
  let duration := unless_found duration (as_str (strategy5 soup)) in
  let duration := unless_found duration (as_str (strategy6 soup)) in
  let duration := unless_found duration (as_str (strategy7 soup)) in
  let duration := unless_found duration (as_str (strategy8 soup)) in
  duration.

(** The [--- Level ---] block. *)
Definition detail_level (soup : node) : option string :=
  first_some (fun el => normalize_level (get_text "" false el))
             (find_all ["span"; "div"; "li"] soup).

(** The [--- Concepts / Skills ---] block. *)

(** [(what you('|’)ll learn|skills you('|’)ll gain|skills you will gain)] with
    [re.I]; the typographic apostrophe lies outside the modelled characters,
    so that alternative matches nothing here. *)
Definition apostrophe_re : re := Alt (Chr (is_char_i "'")) (Chr (fun _ => false)).

Definition skills_heading_re : re :=
  alts [ cats [ lit_i "what you"; apostrophe_re; lit_i "ll learn" ];
         cats [ lit_i "skills you"; apostrophe_re; lit_i "ll gain" ];
         lit_i "skills you will gain" ].

(** The lists collected for one heading: up to three under its parent, then
    up to three under its next sibling element. *)
Definition heading_lists (h : ctx) : list node :=
  let ht := clean_text (Some (get_text "" false (c_node h))) in
  match search skills_heading_re ht with
  | None => []
  | Some _ =>
      (find_all_limit ["ul"; "ol"] 3 (c_parent h) ++
       match find_next_sibling h with
       | Some sib => find_all_limit ["ul"; "ol"] 3 sib
       | None => []
       end)%list
  end.

(** [if item and item not in concepts: concepts.append(item)] *)
Definition append_new (concepts : list string) (item : string) : list string :=
  if nonempty item && negb (existsb (String.eqb item) concepts)
  then (concepts ++ [item])%list else concepts.

Definition strategyA (soup : node) : list string :=
  let target_sections := flat_map heading_lists (find_all_ctx ["h2"; "h3"] soup) in
  fold_left
    (fun concepts lst =>
       fold_left
         (fun concepts li => append_new concepts (clean_text (Some (get_text "" false li))))
         (find_all ["li"] lst) concepts)
    target_sections [].

Definition skill_keywords : list string :=
  [ "python"; "java"; "c++"; "c "; "html"; "css"; "sql";
    "data"; "oop"; "api"; "algorithms"; "arrays"; "pandas";
    "django"; "spring"; "react"; "dom"; "selectors"; "queries";
    "object-oriented"; "inheritance"; "polymorphism"; "encapsulation";
    "debug"; "testing"; "performance"; "asynchronous"; "promises" ].

Definition looks_like_skill (txt : string) : bool :=
  let words := List.length (split txt) in
  (1 <? words)%nat && (words <=? 6)%nat &&
  existsb (fun k => contains k (lower txt)) skill_keywords.

Definition strategyB (soup : node) : list string :=
  fold_left
    (fun concepts chip =>
       let txt := clean_text (Some (get_text "" false chip)) in
       if looks_like_skill txt
       then if negb (existsb (String.eqb txt) concepts)
            then (concepts ++ [txt])%list else concepts
       else concepts)
    (select (SelOr (SelTag "span") (SelTag "div")) soup) [].

(** [# Deduplicate & cap extremely long lists] *)
Fixpoint dedup_loop (concepts : list string) (seen : gset string)
         (dedup : list string) : list string :=
  match concepts with
  | [] => dedup
  | c :: rest =>
      if decide (c ∈ seen) then dedup_loop rest seen dedup
      else dedup_loop rest ({[ c ]} ∪ seen) (dedup ++ [c])%list
  end.

Definition cap_concepts (concepts : list string) : list string :=
  firstn 30 (dedup_loop concepts ∅ []).

Definition detail_concepts (soup : node) : list string :=
  let concepts := strategyA soup in
  let concepts :=
    match concepts with
    | [] => strategyB soup
    | _ => concepts
    end in
  cap_concepts concepts.

(** [parse_course_detail], given the parsed page. *)
Definition parse_detail_soup (soup : node) : pyval * option string * list string :=
  (detail_duration soup, detail_level soup, detail_concepts soup).

End Detail.

(** ** CONFIGURATION *)

Definition SCROLL_PAUSE : Q * Q := (12 # 10, 20 # 10)%Q.
Definition DETAIL_PAUSE : Q * Q := (12 # 10, 20 # 10)%Q.
Definition MAX_IDLE_SCROLLS : nat := 6.
Definition RETRY_DETAIL : nat := 2.
Definition LANGUAGES : list string :=
  [ "Java"; "Python"; "C"; "C++"; "JavaScript"; "HTML"; "CSS"; "SQL" ].

(** [SEARCH_URL.format(q=language.replace(" ", "+"))] *)
Fixpoint replace_space_plus (s : string) : string :=
  match s with
  | "" => ""
  | String c s' =>
      String (if Ascii.eqb c " " then "+"%char else c) (replace_space_plus s')
  end.

Definition SEARCH_URL (q : string) : string :=
  "https://www.coursera.org/search?query=" ++ q ++ "&productTypeDescription=courses".

(** ** The browser driver *)

(** The exceptions the program distinguishes.  [TimeoutException],
    [JavascriptException] and [NoSuchElementException] are subclasses of
    [WebDriverException]; [OtherException] is any exception outside it. *)
Inductive exn : Type :=
| TimeoutException
| JavascriptException
| NoSuchElementException
| WebDriverException
| OtherException.

(** [isinstance(e, JavascriptException)] *)
Definition is_javascript_exception (e : exn) : bool :=
  match e with JavascriptException => true | _ => false end.

(** [isinstance(e, (TimeoutException, WebDriverException))] *)
Definition is_webdriver_exception (e : exn) : bool :=
  match e with OtherException => false | _ => true end.

(** The calls made on the driver and the clock, recorded in program order. *)
Inductive call : Type :=
| CallGet (url : string)
| CallWaitBody
| CallExecuteScript (script : string)
| CallPageSource
| CallSleep (a b : Q)
| CallQuit.

(** What the browser does: each operation changes the state of the world
    and may raise ([Some e]). *)
Class Driver (World : Type) : Type := {
  driver_get : string -> World -> option exn * World;
  driver_wait_body : World -> option exn * World;
  driver_execute_script : string -> World -> option exn * World;
  (** [BeautifulSoup(driver.page_source, "lxml")] *)
  driver_page_source : World -> (exn + node) * World;
  (** [time.sleep(random.uniform(a, b))] *)
  driver_sleep : Q -> Q -> World -> World;
  driver_quit : World -> option exn * World
}.

(** Outcome of a computation: a value, a raised exception, or a loop that
    has not finished within the rounds allowed to it. *)
Inductive result (A : Type) : Type :=
| Ok (a : A)
| Raised (e : exn)
| NoFuel.

Arguments Ok {A} a.
Arguments Raised {A} e.
Arguments NoFuel {A}.

Section DriverMonad.

Context {World : Type} {D : Driver World}.

(** The state threaded through the program: the world and the calls made. *)
Definition state : Type := World * list call.

Definition M (A : Type) : Type := state -> result A * state.

Definition ret {A : Type} (a : A) : M A := fun st => (Ok a, st).

Definition bind {A B : Type} (m : M A) (k : A -> M B) : M B :=
  fun st =>
    match m st with
    | (Ok a, st') => k a st'
    | (Raised e, st') => (Raised e, st')
    | (NoFuel, st') => (NoFuel, st')
    end.

Definition no_fuel {A : Type} : M A := fun st => (NoFuel, st).

(** [try: m  except <handles>: handler] *)
Definition try_except {A : Type} (m : M A) (handles : exn -> bool)
           (handler : exn -> M A) : M A :=
  fun st =>
    match m st with
    | (Raised e, st') =>
        if handles e then handler e st' else (Raised e, st')
    | other => other
    end.

(** [try: m  finally: cleanup] *)
Definition try_finally {A : Type} (m : M A) (cleanup : M unit) : M A :=
  fun st =>
    match m st with
    | (outcome, st') =>
        match cleanup st' with
        | (Ok _, st'') => (outcome, st'')
        | (Raised e, st'') => (Raised e, st'')
        | (NoFuel, st'') => (NoFuel, st'')
        end
    end.

Definition lift_call (c : call) (op : World -> option exn * World) : M unit :=
  fun st =>
    match op (fst st) with
    | (None, w) => (Ok tt, (w, (snd st ++ [c])%list))
    | (Some e, w) => (Raised e, (w, (snd st ++ [c])%list))
    end.

(** [driver.get(url)] *)
Definition get_url (url : string) : M unit := lift_call (CallGet url) (driver_get url).

(** [wait_body(driver)] *)
Definition wait_body : M unit := lift_call CallWaitBody driver_wait_body.

Definition execute_script (script : string) : M unit :=
  lift_call (CallExecuteScript script) (driver_execute_script script).

Definition quit : M unit := lift_call CallQuit driver_quit.

Definition page_soup : M node :=
  fun st =>
    match driver_page_source (fst st) with
    | (inr soup, w) => (Ok soup, (w, (snd st ++ [CallPageSource])%list))
    | (inl e, w) => (Raised e, (w, (snd st ++ [CallPageSource])%list))
    end.

(** [jitter(a, b)] *)
Definition jitter (ab : Q * Q) : M unit :=
  fun st =>
    (Ok tt, (driver_sleep (fst ab) (snd ab) (fst st),
             (snd st ++ [CallSleep (fst ab) (snd ab)])%list)).

End DriverMonad.

Notation "x <- m ;; k" := (bind m (fun x => k))
  (at level 62, m at next level, right associativity).
Notation "m ;;; k" := (bind m (fun _ => k))
  (at level 62, right associativity).

(** ** SEARCH PAGE HANDLING *)

Section Scraper.

Context {World : Type} {D : Driver World}.
Variable json_loads : string -> option pyval.
Variable py_str : pyval -> string.

(** The anchors of the page as (title, url) pairs. *)
Definition anchor_link (a : node) : option (string * string) :=
  let href := get "href" a in
  let title :=
    match get "aria-label" a with
    | Some label => if nonempty label then label else get_text "" true a
    | None => get_text "" true a
    end in
  match href with
  | Some href =>
      if nonempty href && nonempty title
      then Some (clean_text (Some title), "https://www.coursera.org" ++ href)
      else None
  | None => None
  end.

(** [# Dedup preserving order] *)
Fixpoint dedup_links (links : list (string * string)) (seen : gset string)
         (uniq : list (string * string)) : list (string * string) :=
  match links with
  | [] => uniq
  | (t, u) :: rest =>
      if decide (u ∈ seen) then dedup_links rest seen uniq
      else dedup_links rest ({[ u ]} ∪ seen) (uniq ++ [(t, u)])%list
  end.

(** [get_links_from_dom], given the parsed page. *)
Definition links_of_soup (soup : node) : list (string * string) :=
  let links :=
    omap anchor_link (select (SelTagAttrPrefix "a" "href" "/learn/") soup) in
  dedup_links links ∅ [].

Definition get_links_from_dom : M (list (string * string)) :=
  soup <- page_soup ;; ret (links_of_soup soup).

(** One round of scrolling: to the bottom, pause, nudge up and down, pause.
    A [JavascriptException] of a scroll is swallowed. *)
Definition scroll_round : M unit :=
  try_except
    (execute_script "window.scrollTo(0, document.body.scrollHeight);")
    is_javascript_exception (fun _ => ret tt) ;;;
  jitter SCROLL_PAUSE ;;;
  try_except
    (execute_script "window.scrollBy(0, -200);" ;;;
     execute_script "window.scrollBy(0, 200);")
    is_javascript_exception (fun _ => ret tt) ;;;
  jitter SCROLL_PAUSE.

(** The loop [while True: ...] of [collect_all_course_cards]; [fuel] bounds
    the number of rounds. *)
Fixpoint scroll_loop (fuel : nat) (results : list (string * string)) (idle : nat)
  : M (list (string * string)) :=
  match fuel with
  | O => no_fuel
  | S fuel' =>
      let prev_count := List.length results in
      scroll_round ;;;
      results <- get_links_from_dom ;;
      let idle := if (List.length results <=? prev_count)%nat then idle + 1 else 0 in
      if (MAX_IDLE_SCROLLS <=? idle)%nat then ret results
      else scroll_loop fuel' results idle
  end.

Definition collect_all_course_cards (fuel : nat) : M (list (string * string)) :=
  results <- get_links_from_dom ;;
  scroll_loop fuel results 0.

(** ** DETAIL PAGE PARSING, on the page the driver shows *)

Definition parse_course_detail : M (pyval * option string * list string) :=
  soup <- page_soup ;; ret (parse_detail_soup json_loads py_str soup).

(** ** MAIN SCRAPER *)

(** One row of the output table. *)
Record row : Type := MkRow {
  course_id : string;
  programming_language : string;
  course_name : string;
  course_duration : pyval;
  concepts : string;
  course_level : string;
  course_link : string
}.

(** [f"{n:0{width}d}"] *)
Definition decimal (n : nat) : string := NilEmpty.string_of_uint (Nat.to_uint n).

Fixpoint zeros (k : nat) : string :=
  match k with
  | O => ""
  | S k' => String "0" (zeros k')
  end.

Definition format_d (width n : nat) : string :=
  zeros (width - String.length (decimal n)) ++ decimal n.

Definition make_row (data : list row) (language title link : string)
           (detail : pyval * option string * list string) : row :=
  match detail with
  | (duration, level, concepts) =>
      {| course_id := "C" ++ format_d 4 (List.length data + 1);
         programming_language := language;
         course_name := clean_text (Some title);
         course_duration := if truthy duration then duration else PyStr "N/A";
         concepts := match concepts with
                     | [] => "N/A"
                     | _ => join "; " concepts
                     end;
         course_level := match level with
                         | Some l => if nonempty l then l else "N/A"
                         | None => "N/A"
                         end;
         course_link := link |}
  end.

(** The body of the [try] in the retry loop: one attempt at a detail page. *)
Definition attempt (link : string) : M (pyval * option string * list string) :=
  get_url link ;;;
  wait_body ;;;
  jitter DETAIL_PAUSE ;;;
  parse_course_detail.

(** The loop [while tries <= RETRY_DETAIL: ...] for one link; [fuel] bounds
    the number of iterations. *)
Fixpoint visit_detail (fuel : nat) (language title link : string)
         (data : list row) (tries : nat) : M (list row) :=
  if negb (tries <=? RETRY_DETAIL)%nat then ret data
  else
    match fuel with
    | O => no_fuel
    | S fuel' =>
        fun st =>
          match attempt link st with
          | (Ok detail, st') =>
              (Ok (data ++ [make_row data language title link detail])%list, st')
          | (Raised e, st') =>
              if is_webdriver_exception e
              then (jitter (20 # 10, 35 # 10)%Q ;;;
                    visit_detail fuel' language title link data (tries + 1)) st'
              else (Ok data, st')
          | (NoFuel, st') => (NoFuel, st')
          end
    end.

(** The loop [for title, link in links: ...]. *)
Fixpoint visit_links (fuel : nat) (language : string)
         (links : list (string * string)) (seen_links : gset string)
         (data : list row) : M (list row) :=
  match links with
  | [] => ret data
  | (title, link) :: rest =>
      if decide (link ∈ seen_links)
      then visit_links fuel language rest seen_links data
      else
        let seen_links := {[ link ]} ∪ seen_links in
        data <- visit_detail fuel language title link data 0 ;;
        jitter (8 # 10, 16 # 10)%Q ;;;
        visit_links fuel language rest seen_links data
  end.

Definition scrape_language (fuel : nat) (language : string) : M (list row) :=
  get_url (SEARCH_URL (replace_space_plus language)) ;;;
  wait_body ;;;
  jitter SCROLL_PAUSE ;;;
  links <- collect_all_course_cards fuel ;;
  visit_links fuel language links ∅ [].

(** [for i, row in enumerate(all_rows, start=1): row["course_id"] = f"C{i:05d}"] *)
Fixpoint resequence (i : nat) (all_rows : list row) : list row :=
  match all_rows with
  | [] => []
  | r :: rest =>
      {| course_id := "C" ++ format_d 5 i;
         programming_language := programming_language r;
         course_name := course_name r;
         course_duration := course_duration r;
         concepts := concepts r;
         course_level := course_level r;
         course_link := course_link r |} :: resequence (S i) rest
  end.

(** The loop [for lang in LANGUAGES: all_rows.extend(scrape_language(...))]. *)
Fixpoint scrape_all (fuel : nat) (languages : list string) (all_rows : list row)
  : M (list row) :=
  match languages with
  | [] => ret all_rows
  | lang :: rest =>
      lang_rows <- scrape_language fuel lang ;;
      scrape_all fuel rest (all_rows ++ lang_rows)%list
  end.

(** [main], from the built driver to the rows handed to the table writer. *)
Definition main (fuel : nat) : M (list row) :=
  all_rows <- try_finally (scrape_all fuel LANGUAGES []) quit ;;
  ret (resequence 1 all_rows).

End Scraper.

(** ** Vocabulary of the statements about text *)

(** A string without whitespace. *)
Fixpoint nows (s : string) : Prop :=
  match s with
  | "" => True
  | String c s' => isspace c = false /\ nows s'
  end.

(** The words produced by [split_ws]: non-empty and free of whitespace. *)
Definition word (w : string) : Prop := w <> "" /\ nows w.

(** Length of the longest whitespace prefix. *)
Fixpoint ws_len (s : string) : nat :=
  match s with
  | "" => 0
  | String c s' => if isspace c then S (ws_len s') else 0
  end.

(** Direct description of the substitution: [in_ws] tells whether the
    previous character belonged to a whitespace run. *)
Fixpoint collapse (in_ws : bool) (s : string) : string :=
  match s with
  | "" => ""
  | String c s' =>
      if isspace c
      then if in_ws then collapse true s' else String " " (collapse true s')
      else String c (collapse false s')
  end.

(** [kw] occurs in [s] as a contiguous substring. *)
Definition occurs (kw s : string) : Prop :=
  exists pre post, s = pre ++ kw ++ post.

(** [kw] (a lower-case keyword) occurs in [text] up to letter case. *)
Definition occurs_ci (kw text : string) : Prop :=
  exists pre mid post, text = pre ++ mid ++ post /\ lower mid = kw.

(** ** Declarative reading of the regular expressions *)

(** The character before the position reached after reading [w]. *)
Fixpoint last_char (prev : option ascii) (w : string) : option ascii :=
  match w with
  | "" => prev
  | String c w' => last_char (Some c) w'
  end.

(** [matches r prev w rest]: at a position preceded by [prev] and followed
    by [w ++ rest], the expression [r] can match exactly [w]. *)
Inductive matches : re -> option ascii -> string -> string -> Prop :=
| M_Eps prev rest : matches Eps prev "" rest
| M_Bol rest : matches Bol None "" rest
| M_WordB prev rest :
    xorb (word_opt prev) (word_opt (head_char rest)) = true ->
    matches WordB prev "" rest
| M_Chr p c prev rest : p c = true -> matches (Chr p) prev (String c "") rest
| M_Cat r1 r2 prev w1 w2 rest :
    matches r1 prev w1 (w2 ++ rest) ->
    matches r2 (last_char prev w1) w2 rest ->
    matches (Cat r1 r2) prev (w1 ++ w2) rest
| M_AltL r1 r2 prev w rest : matches r1 prev w rest -> matches (Alt r1 r2) prev w rest
| M_AltR r1 r2 prev w rest : matches r2 prev w rest -> matches (Alt r1 r2) prev w rest
| M_OptSome r prev w rest : matches r prev w rest -> matches (Opt r) prev w rest
| M_OptNone r prev rest : matches (Opt r) prev "" rest
| M_StarNil p prev rest : matches (Star p) prev "" rest
| M_StarCons p c prev w rest :
    p c = true -> matches (Star p) (Some c) w rest ->
    matches (Star p) prev (String c w) rest.

(** [r] matches somewhere in [t]. *)
Definition found (r : re) (t : string) : Prop :=
  exists pre w rest, t = pre ++ w ++ rest /\ matches r (last_char None pre) w rest.

(** Expressions without [^] and [\b]: their matches do not depend on the
    surrounding text. *)
Fixpoint anchor_free (r : re) : bool :=
  match r with
  | Bol | WordB => false
  | Eps | Chr _ | Star _ => true
  | Cat r1 r2 | Alt r1 r2 => anchor_free r1 && anchor_free r2
  | Opt r1 => anchor_free r1
  end.

(** The pattern list in the order in which the specification names the
    shapes: number and unit (hours with optional "per week", weeks, months,
    days, minutes), then ranges, then "approximately" and "about". *)
Definition duration_patterns_spec_order : list re :=
  [ pat_hours; pat_weeks; pat_months; pat_days; pat_minutes;
    pat_range; pat_approximately; pat_about ].

(** ** Vocabulary of the statements about deduplication *)

(** The elements of [l] whose key is not in [seen] and did not occur
    earlier in [l], in the order of [l]. *)
Fixpoint firsts {A : Type} (key : A -> string) (l : list A) (seen : gset string)
  : list A :=
  match l with
  | [] => []
  | x :: l' =>
      if decide (key x ∈ seen) then firsts key l' seen
      else x :: firsts key l' ({[ key x ]} ∪ seen)
  end.

(** [y] stands in [l] at the first place where its key occurs. *)
Definition first_with_key {A : Type} (key : A -> string) (l : list A) (y : A)
  : Prop :=
  exists l1 l2, l = (l1 ++ y :: l2)%list /\ (forall x, In x l1 -> key x <> key y).

(** ** Example documents *)

(** A detail page whose "Skills you'll gain" list has [n] distinct items. *)
Definition skill_item (i : nat) : string := "skill " ++ decimal i.

Definition skills_page (n : nat) : node :=
  Elem "[document]" []
    [ Elem "html" []
        [ Elem "body" []
            [ Elem "section" []
                [ Elem "h2" [] [ Text "Skills you'll gain" ];
                  Elem "ul" []
                    (map (fun i => Elem "li" [] [ Text (skill_item i) ]) (seq 1 n))
                ] ] ] ].

(** A result page that shows the same course twice, under two titles. *)
Definition course_card (title href : string) : node :=
  Elem "a" [ ("href", href); ("aria-label", title) ] [].

Definition repeated_card_page : node :=
  Elem "[document]" []
    [ Elem "html" []
        [ Elem "body" []
            [ course_card "Python Basics" "/learn/python";
              course_card "SQL for Data" "/learn/sql";
              course_card "Python Basics (sponsored)" "/learn/python" ] ] ].



(** ** Vocabulary of the statements about the level scan *)


(** ** Examples and vocabulary of the statements about the duration cascade *)

Definition dq : string := String "034" "".

(** The text of a JSON object with one string member. *)
Definition json_member (key value : string) : string :=
  "{" ++ dq ++ key ++ dq ++ ": " ++ dq ++ value ++ dq ++ "}".

Definition long_duration : string :=
  "Approximately 3 months at a pace of 10 hours per week of study".

(** What [json.loads] returns on the two structured-data blocks used in the
    examples; every other text is treated as malformed. *)
Definition json_loads_sample (text : string) : option pyval :=
  if String.eqb text (json_member "timeRequired" "3 weeks")
  then Some (PyDict [ ("timeRequired", PyStr "3 weeks") ])
  else if String.eqb text (json_member "timeRequired" long_duration)
  then Some (PyDict [ ("timeRequired", PyStr long_duration) ])
  else None.

(** [str] on scalar values; the examples apply it to nothing else. *)
Definition py_str_sample (v : pyval) : string :=
  match v with
  | PyNone => "None"
  | PyBool true => "True"
  | PyBool false => "False"
  | PyInt z => if (z <? 0)%Z then "-" ++ decimal (Z.abs_nat z) else decimal (Z.abs_nat z)
  | PyStr s => s
  | PyList _ => "[...]"
  | PyDict _ => "{...}"
  end.

Definition structured_page (time_required : string) (body : list node) : node :=
  Elem "[document]" []
    [ Elem "html" []
        [ Elem "head" []
            [ Elem "title" [] [ Text "Machine Learning" ];
              Elem "script" [ ("type", "application/ld+json") ]
                [ Text (json_member "timeRequired" time_required) ] ];
          Elem "body" [] body ] ].

(** Structured data says "3 weeks"; a generic element shows other
    duration-like text. *)
Definition precedence_page : node :=
  structured_page "3 weeks" [ Elem "p" [] [ Text "Videos: 45 minutes in total" ] ].

(** Structured data with a value of 62 characters. *)
Definition long_duration_page : node :=
  structured_page long_duration [ Elem "p" [] [ Text "Welcome" ] ].

(** A duration element whose text has exactly 50 characters. *)
Definition fifty_chars : string :=
  "Twelve weeks of study, four to six hours each week".

Definition fifty_chars_page : node :=
  Elem "[document]" []
    [ Elem "html" []
        [ Elem "body" []
            [ Elem "span" [ ("class", "course-duration") ] [ Text fifty_chars ] ] ] ].

(** What the eight strategies find on a page, in the order of the cascade. *)
Definition cascade (json_loads : string -> option pyval) (py_str : pyval -> string)
           (soup : node) : list (option pyval) :=
  [ as_str (strategy1 soup);
    strategy2 json_loads py_str soup;
    as_str (strategy3 soup);
    as_str (strategy4 soup);
    as_str (strategy5 soup);
    as_str (strategy6 soup);
    as_str (strategy7 soup);
    as_str (strategy8 soup) ].

(** The first truthy value of a list of findings. *)
Fixpoint first_truthy (findings : list (option pyval)) : option pyval :=
  match findings with
  | [] => None
  | Some v :: rest => if truthy v then Some v else first_truthy rest
  | None :: rest => first_truthy rest
  end.

(** ** Vocabulary of the statements about discovery *)

Section DiscoveryRounds.

Context {World : Type} {D : Driver World}.

(** The body of the discovery loop up to the re-parse: one scroll round and
    the snapshot taken after it. *)
Definition scroll_and_parse : M (list (string * string)) :=
  scroll_round ;;; get_links_from_dom.

(** The snapshot of round [k] of a discovery started in state [st] (round 0
    is the initial snapshot) and the state reached after it; [None] when an
    exception interrupts the discovery before. *)
Fixpoint snapshot (k : nat) (st : state) : option (list (string * string) * state) :=
  match k with
  | O =>
      match get_links_from_dom st with
      | (Ok results, st') => Some (results, st')
      | _ => None
      end
  | S k' =>
      match snapshot k' st with
      | Some (_, st') =>
          match scroll_and_parse st' with
          | (Ok results, st'') => Some (results, st'')
          | _ => None
          end
      | None => None
      end
  end.

Definition snapshot_size (k : nat) (st : state) : nat :=
  match snapshot k st with
  | Some (results, _) => List.length results
  | None => 0
  end.

(** Round [k] shows no growth: its snapshot is not larger than the one of
    the round before. *)
Definition no_growth (k : nat) (st : state) : bool :=
  (snapshot_size k st <=? snapshot_size (k - 1) st)%nat.

(** The rounds up to [k] that show no growth and follow each other without
    a growing round in between, counted back from round [k]. *)
Fixpoint idle_rounds (k : nat) (st : state) : nat :=
  match k with
  | O => 0
  | S k' => if no_growth (S k') st then S (idle_rounds k' st) else 0
  end.

End DiscoveryRounds.

(** A simulated result feed: the world is the number of scrolls to the
    bottom made so far; the page shows two more cards after each of the
    first three scrolls and nothing new afterwards. *)
Definition feed_card (i : nat) : node :=
  course_card ("Course " ++ decimal i) ("/learn/course-" ++ decimal i).

Definition feed_page (scrolls : nat) : node :=
  Elem "[document]" []
    [ Elem "html" []
        [ Elem "body" [] (map feed_card (seq 1 (2 + 2 * Nat.min scrolls 3))) ] ].

Definition feed_driver : Driver nat := {|
  driver_get := fun _ w => (None, w);
  driver_wait_body := fun w => (None, w);
  driver_execute_script :=
    fun script w =>
      if String.eqb script "window.scrollTo(0, document.body.scrollHeight);"
      then (None, S w) else (None, w);
  driver_page_source := fun w => (inr (feed_page w), w);
  driver_sleep := fun _ _ w => w;
  driver_quit := fun w => (None, w)
|}.

(** ** Vocabulary and example of the statements about the scrape driver *)

(** A navigation to some page, and a navigation to [link]. *)
Definition is_navigation (c : call) : bool :=
  match c with CallGet _ => true | _ => false end.

Definition is_navigation_to (link : string) (c : call) : bool :=
  match c with CallGet url => String.eqb url link | _ => false end.

(** Number of navigations to [link] among the calls. *)
Definition navigations_to (link : string) (calls : list call) : nat :=
  List.length (filter (fun c => is_navigation_to link c) calls).

(** A detail page that states its duration, level and skills. *)
Definition python_detail_page : node :=
  Elem "[document]" []
    [ Elem "html" []
        [ Elem "body" []
            [ Elem "div" [ ("class", "course-duration") ] [ Text "6 weeks" ];
              Elem "div" [ ("class", "badge") ] [ Text "Beginner" ];
              Elem "section" []
                [ Elem "h2" [] [ Text "What you'll learn" ];
                  Elem "ul" []
                    [ Elem "li" [] [ Text "Loops" ];
                      Elem "li" [] [ Text "Functions" ] ] ] ] ] ].

Definition two_links : list (string * string) :=
  [ ("Broken course", "https://www.coursera.org/learn/broken");
    ("Python course", "https://www.coursera.org/learn/python") ].

(** A browser in which every navigation to the broken course times out and
    every other page is the Python detail page. *)
Definition flaky_driver : Driver unit := {|
  driver_get :=
    fun url w =>
      if String.eqb url "https://www.coursera.org/learn/broken"
      then (Some TimeoutException, w) else (None, w);
  driver_wait_body := fun w => (None, w);
  driver_execute_script := fun _ w => (None, w);
  driver_page_source := fun w => (inr python_detail_page, w);
  driver_sleep := fun _ _ w => w;
  driver_quit := fun w => (None, w)
|}.

(** ** Vocabulary and example of the statements about course ids *)

(** The number a string of decimal digits denotes. *)
Definition decimal_value (s : string) : option nat :=
  option_map Nat.of_uint (NilEmpty.uint_of_string s).

(** The number in a course id ["C<digits>"]. *)
Definition id_number (id : string) : option nat :=
  match id with
  | String "C" digits => decimal_value digits
  | _ => None
  end.

(** A row with a given provisional id. *)
Definition sample_row (language provisional_id name : string) : row :=
  {| course_id := provisional_id;
     programming_language := language;
     course_name := name;
     course_duration := PyStr "N/A";
     concepts := "N/A";
     course_level := "N/A";
     course_link := "https://www.coursera.org/learn/" ++ name |}.

Definition keyword_a_rows : list row :=
  [ sample_row "A" "C0001" "a1"; sample_row "A" "C0002" "a2" ].

Definition keyword_b_rows : list row :=
  [ sample_row "B" "C0001" "b1"; sample_row "B" "C0002" "b2";
    sample_row "B" "C0003" "b3" ].

(** A row with its id replaced. *)
Definition with_id (id : string) (r : row) : row :=
  {| course_id := id;
     programming_language := programming_language r;
     course_name := course_name r;
     course_duration := course_duration r;
     concepts := concepts r;
     course_level := course_level r;
     course_link := course_link r |}.

(** ** Further vocabulary: the shape of cleaned text *)

(** Every whitespace character of [s] is a single space that stands between
    two non-whitespace characters or at the very start. *)
Fixpoint single_spaced (s : string) : bool :=
  match s with
  | "" => true
  | String c s' =>
      (if isspace c
       then Ascii.eqb c " " &&
            match s' with String d _ => negb (isspace d) | "" => false end
       else true) && single_spaced s'
  end.

(** [s] has no leading or trailing whitespace and its words are separated
    by single spaces. *)
Definition tidy (s : string) : bool :=
  single_spaced s &&
  match s with String c _ => negb (isspace c) | "" => true end.

(** [s] consists of whitespace only. *)
Fixpoint blank (s : string) : bool :=
  match s with
  | "" => true
  | String c s' => isspace c && blank s'
  end.

(** [s[n:]] *)
Fixpoint drop_str (n : nat) (s : string) : string :=
  match n, s with
  | O, _ => s
  | S n', String _ s' => drop_str n' s'
  | S _, "" => ""
  end.

(** The labels [extract_duration_like] removes from the start of a text. *)
Definition duration_labels : list string :=
  [ "duration"; "time"; "estimated"; "approximately"; "approx" ].

(** The number-and-unit patterns at the head of [duration_patterns]. *)
Definition numeric_patterns : list re :=
  [ pat_hours; pat_weeks; pat_months; pat_days; pat_minutes ].

(** A browser whose page never changes and in which every scroll script
    fails with a [JavascriptException]. *)
Definition stuck_driver : Driver unit := {|
  driver_get := fun _ w => (None, w);
  driver_wait_body := fun w => (None, w);
  driver_execute_script := fun _ w => (Some JavascriptException, w);
  driver_page_source := fun w => (inr repeated_card_page, w);
  driver_sleep := fun _ _ w => w;
  driver_quit := fun w => (None, w)
|}.

(** ** Further vocabulary: the collected concepts *)

(** What both collecting strategies maintain: no item is empty, untidy or
    repeated. *)
Definition collected (l : list string) : Prop :=
  NoDup l /\ Forall (fun c => c <> "" /\ tidy c = true) l.

(** An item kept by strategy B. *)
Definition chip_like (c : string) : Prop :=
  2 <= List.length (split c) <= 6 /\
  exists k, In k skill_keywords /\ occurs_ci k c.

(** ** Further vocabulary: the calls a computation adds *)

(** Reading a log of calls for its pacing: [rested] says that a pause has
    been made since the last navigation.  A navigation that is not preceded
    by a pause since the previous navigation stops the reading. *)
Fixpoint pace (rested : bool) (calls : list call) : option bool :=
  match calls with
  | [] => Some rested
  | CallGet _ :: rest => if rested then pace false rest else None
  | CallSleep _ _ :: rest => pace true rest
  | _ :: rest => pace rested rest
  end.

Section Calls.
Context {World : Type} {D : Driver World}.

(** Whatever its outcome, [m] only appends calls to the log, and every call
    it appends satisfies [P]. *)
Definition appends (P : call -> Prop) {A : Type} (m : @M World A) : Prop :=
  forall st, exists new,
      snd (snd (m st)) = (snd st ++ new)%list /\ Forall P new.

(** Started with the log in state [r], [m] keeps the pacing, and when it
    returns the log is in a state that satisfies [Q]. *)
Definition paced (r : bool) {A : Type} (m : @M World A) (Q : bool -> Prop) : Prop :=
  forall st, exists new r',
      snd (snd (m st)) = (snd st ++ new)%list /\
      pace r new = Some r' /\
      (forall a, fst (m st) = Ok a -> Q r').

End Calls.

Definition not_quit (c : call) : Prop := c <> CallQuit.

Definition not_navigation (c : call) : Prop := is_navigation c = false.

(** [P] holds of the calls of the discovery: scrolling, its pause and
    reading the page. *)
Definition passive (P : call -> Prop) : Prop :=
  (forall script, P (CallExecuteScript script)) /\
  P (CallSleep (fst SCROLL_PAUSE) (snd SCROLL_PAUSE)) /\
  P CallPageSource.

(** [P] holds of every call the scrape of the keywords can make. *)
Definition scraping (P : call -> Prop) : Prop :=
  passive P /\
  (forall url, P (CallGet url)) /\
  P CallWaitBody /\
  P (CallSleep (fst DETAIL_PAUSE) (snd DETAIL_PAUSE)) /\
  P (CallSleep (20 # 10) (35 # 10)) /\
  P (CallSleep (8 # 10) (16 # 10)).

(** A pause of at least 0.8 and at most 3.5 seconds. *)
Definition bounded_pause (c : call) : Prop :=
  match c with
  | CallSleep lo hi => (8 # 10 <= lo)%Q /\ (lo < hi)%Q /\ (hi <= 35 # 10)%Q
  | _ => True
  end.

(** ** Further vocabulary: the rows of one keyword *)

Definition levels : list string := [ "Beginner"; "Intermediate"; "Advanced"; "N/A" ].

(** [r] is the [k]-th row of its keyword and was made for the link [tl]. *)
Definition row_of_link (language : string) (k : nat) (tl : string * string)
           (r : row) : Prop :=
  course_id r = "C" ++ format_d 4 k /\
  programming_language r = language /\
  course_name r = clean_text (Some (fst tl)) /\
  course_link r = snd tl /\
  truthy (course_duration r) = true /\
  In (course_level r) levels /\
  concepts r <> "".

Fixpoint rows_match (language : string) (k : nat)
         (visited : list (string * string)) (rows : list row) : Prop :=
  match visited, rows with
  | [], [] => True
  | tl :: visited', r :: rows' =>
      row_of_link language k tl r /\ rows_match language (S k) visited' rows'
  | _, _ => False
  end.

(** A browser without network: every navigation fails. *)
Definition offline_driver : Driver unit := {|
  driver_get := fun _ w => (Some WebDriverException, w);
  driver_wait_body := fun w => (None, w);
  driver_execute_script := fun _ w => (None, w);
  driver_page_source := fun w => (inr python_detail_page, w);
  driver_sleep := fun _ _ w => w;
  driver_quit := fun w => (None, w)
|}.


(** A small site: every search shows the page with the repeated card,
    every other address the Python detail page.  The world is the address
    the browser is at. *)
Definition site_driver : Driver string := {|
  driver_get := fun url _ => (None, url);
  driver_wait_body := fun w => (None, w);
  driver_execute_script := fun _ w => (None, w);
  driver_page_source :=
    fun w =>
      (inr (if String.prefix "https://www.coursera.org/search" w
            then repeated_card_page else python_detail_page), w);
  driver_sleep := fun _ _ w => w;
  driver_quit := fun w => (None, w)
|}.

(** ** Further vocabulary: the duration of a detail page *)

(** A text found on the page: not empty, no whitespace at either end. *)
Definition found_text (s : string) : Prop := s <> "" /\ strip s = s.

(** What the duration can be after any part of the cascade. *)
Definition duration_shape (json_loads : string -> option pyval)
           (py_str : pyval -> string) (soup : node) (v : pyval) : Prop :=
  v = PyNone \/
  strategy2 json_loads py_str soup = Some v \/
  exists s, v = PyStr s /\ found_text s.

(** ** Further vocabulary: digits *)

(** The text contains a decimal digit. *)
Fixpoint has_digit (s : string) : bool :=
  match s with
  | "" => false
  | String c s' => isdigit c || has_digit s'
  end.

(* ===================================================================== *)
(** * Part II: properties *)
(* ===================================================================== *)

(** ** The helpers on sample inputs *)

(** The values below are those the Python functions return on the same
    inputs. *)
Example parse_duration_from_text_samples :
  map parse_duration_from_text
      [ "approximately 4 weeks to complete"; "5 hours per week"; "5 hr  later";
        "3-5 hours"; "10 hour per week"; "About 2.5 Months"; "1.x days";
        "no duration here"; ""; "12 minutes" ]
  = [ Some "4 week"; Some "5 hour"; Some "5 hr"; Some "5 hour";
      Some "10 hour per week"; Some "2.5 month"; None; None; None;
      Some "12 minute" ].
Proof. vm_compute. reflexivity. Qed.

Example extract_duration_like_samples :
  map extract_duration_like
      [ "Duration:  4 weeks"; "TIME: approx"; "nothing";
        "  Estimated:3 hours  per week "; "approx : x time" ]
  = [ Some "4 weeks"; Some "approx"; None; Some "3 hours per week";
      Some "approx : x time" ].
Proof. vm_compute. reflexivity. Qed.

Example parse_detail_soup_sample :
  parse_detail_soup json_loads_sample py_str_sample python_detail_page
  = (PyStr "6 weeks", Some "Beginner", [ "Loops"; "Functions" ]).
Proof. vm_compute. reflexivity. Qed.

(** ** Basic facts about strings *)

Lemma str_app_nil_r (s : string) : s ++ "" = s.
Proof. induction s as [|c s IH]; simpl; [reflexivity | now rewrite IH]. Qed.

Lemma str_app_assoc (a b c : string) : (a ++ b) ++ c = a ++ (b ++ c).
Proof. induction a as [|x a IH]; simpl; [reflexivity | now rewrite IH]. Qed.

Lemma str_app_length (a b : string) :
  String.length (a ++ b) = String.length a + String.length b.
Proof. induction a as [|x a IH]; simpl; [reflexivity | now rewrite IH]. Qed.

Lemma str_length_cons (c : ascii) (s : string) :
  String.length (String c s) = S (String.length s).
Proof. reflexivity. Qed.

Lemma str_app_eq_nil (a b : string) : a ++ b = "" -> a = "" /\ b = "".
Proof. destruct a; simpl; [auto | discriminate]. Qed.

Lemma str_app_inv_head (a b c : string) : a ++ b = a ++ c -> b = c.
Proof. induction a as [|x a IH]; simpl; [auto | intros H; injection H; auto]. Qed.

Lemma nows_app (a b : string) : nows (a ++ b) <-> nows a /\ nows b.
Proof. induction a as [|x a IH]; simpl; tauto. Qed.

(** ** [strip] *)

Lemma rstrip_app (a b : string) :
  rstrip (a ++ b) = match rstrip b with "" => rstrip a | r => a ++ r end.
Proof.
  induction a as [|x a IH]; simpl.
  - destruct (rstrip b); reflexivity.
  - rewrite IH. destruct (rstrip b) as [|y r] eqn:Eb.
    + reflexivity.
    + destruct a; reflexivity.
Qed.

Lemma rstrip_space_cons (s : string) :
  rstrip (String " " s) = match rstrip s with "" => "" | r => String " " r end.
Proof. reflexivity. Qed.

Lemma rstrip_nows (s : string) : nows s -> rstrip s = s.
Proof.
  induction s as [|c s IH]; simpl; [reflexivity|].
  intros [Hc Hs]. rewrite (IH Hs), Hc. destruct s; reflexivity.
Qed.

Lemma lstrip_nows_head (c : ascii) (s : string) :
  isspace c = false -> lstrip (String c s) = String c s.
Proof. intros H. simpl. now rewrite H. Qed.

(** ** Whitespace collapsing: what [re.sub(r"\s+", " ", s)] computes *)

Lemma star_isspace_len (prev : option ascii) (n : nat) (s : string) :
  star isspace (fun _ m _ => Some m) prev n s = Some (n + ws_len s).
Proof.
  revert prev n. induction s as [|c s IH]; intros prev n; simpl.
  - f_equal. lia.
  - destruct (isspace c).
    + rewrite IH. f_equal. lia.
    + f_equal. lia.
Qed.

Lemma match_here_ws (prev : option ascii) (s : string) :
  match_here (Plus isspace) prev s =
  match ws_len s with 0 => None | n => Some n end.
Proof.
  unfold match_here, Plus. destruct s as [|c s]; simpl; [reflexivity|].
  destruct (isspace c); [|reflexivity].
  now rewrite star_isspace_len.
Qed.

Lemma sub_ws_collapse (s : string) :
  (forall prev, sub_from (Plus isspace) " " prev 0 s = collapse false s) /\
  (forall prev, sub_from (Plus isspace) " " prev (ws_len s) s = collapse true s).
Proof.
  induction s as [|c s [IH0 IH1]]; [split; reflexivity|].
  assert (H0 : forall prev,
             sub_from (Plus isspace) " " prev 0 (String c s)
             = collapse false (String c s)).
  { intros prev. cbn [sub_from]. rewrite match_here_ws. cbn [ws_len collapse].
    destruct (isspace c); [|now rewrite IH0].
    simpl. now rewrite IH1. }
  split; [exact H0|].
  intros prev. destruct (isspace c) eqn:Hc.
  - cbn [ws_len]. rewrite Hc. cbn [sub_from collapse]. rewrite Hc. apply IH1.
  - replace (ws_len (String c s)) with 0 by (cbn [ws_len]; now rewrite Hc).
    rewrite H0. cbn [collapse]. now rewrite Hc.
Qed.

Lemma clean_text_collapse (s : string) :
  clean_text (Some s) = strip (collapse false s).
Proof. unfold clean_text, sub. simpl. now rewrite (proj1 (sub_ws_collapse s)). Qed.

(** ** [clean_text] is [" ".join(s.split())] *)

Lemma collapse_true_lstrip (s : string) :
  lstrip (collapse true s) = collapse true s.
Proof.
  induction s as [|c s IH]; simpl; [reflexivity|].
  destruct (isspace c) eqn:Hc; [exact IH|].
  simpl. now rewrite Hc.
Qed.

Lemma lstrip_collapse (s : string) :
  lstrip (collapse false s) = collapse true s.
Proof.
  destruct s as [|c s]; simpl; [reflexivity|].
  destruct (isspace c) eqn:Hc; simpl.
  - apply collapse_true_lstrip.
  - now rewrite Hc.
Qed.

Lemma split_ws_words (s cur : string) :
  nows cur -> Forall word (split_ws cur s).
Proof.
  revert cur. induction s as [|c s IH]; intros cur Hcur; simpl.
  - destruct cur; constructor; [split; [discriminate | exact Hcur] | constructor].
  - destruct (isspace c) eqn:Hc.
    + destruct cur.
      * apply IH. exact I.
      * constructor; [split; [discriminate | exact Hcur]|]. apply IH. exact I.
    + apply IH. apply nows_app. simpl. tauto.
Qed.

Lemma join_words_nonempty (l : list string) :
  Forall word l -> l <> [] -> join " " l <> "".
Proof.
  intros Hl Hne. destruct l as [|w l]; [congruence|].
  inversion Hl as [|? ? [Hw _] _]; subst.
  destruct w; [congruence|]. destruct l; simpl; discriminate.
Qed.

Lemma join_cons (w : string) (l : list string) :
  l <> [] -> join " " (w :: l) = w ++ " " ++ join " " l.
Proof. destruct l; [congruence | reflexivity]. Qed.

Lemma rstrip_join_split (s : string) :
  (forall cur, cur <> "" -> nows cur ->
     rstrip (cur ++ collapse false s) = join " " (split_ws cur s)) /\
  rstrip (collapse true s) = join " " (split_ws "" s).
Proof.
  induction s as [|c s [IH1 IH2]].
  - split; [|reflexivity]. intros cur Hne Hcur. simpl.
    rewrite str_app_nil_r, (rstrip_nows _ Hcur). now destruct cur.
  - assert (H1 : forall cur, cur <> "" -> nows cur ->
               rstrip (cur ++ collapse false (String c s))
               = join " " (split_ws cur (String c s))).
    { intros cur Hne Hcur. cbn [collapse split_ws].
      destruct (isspace c) eqn:Hc.
      - destruct cur as [|x cur]; [congruence|].
        rewrite rstrip_app, rstrip_space_cons, IH2.
        pose proof (split_ws_words s "" I) as Hw.
        destruct (split_ws "" s) as [|w l] eqn:Es.
        + rewrite (rstrip_nows _ Hcur). reflexivity.
        + pose proof (join_words_nonempty (w :: l) Hw ltac:(discriminate)) as Hj.
          rewrite (join_cons _ (w :: l)) by discriminate.
          destruct (join " " (w :: l)) eqn:Ej; [congruence|]. reflexivity.
      - replace (cur ++ String c (collapse false s))
          with ((cur ++ String c "") ++ collapse false s)
          by (rewrite str_app_assoc; reflexivity).
        apply IH1.
        + destruct cur; discriminate.
        + apply nows_app. simpl. tauto. }
    split; [exact H1|].
    cbn [collapse split_ws]. destruct (isspace c) eqn:Hc; [exact IH2|].
    specialize (IH1 (String c "") ltac:(discriminate) ltac:(simpl; tauto)).
    exact IH1.
Qed.

Lemma clean_text_join_split (s : string) :
  clean_text (Some s) = join " " (split s).
Proof.
  rewrite clean_text_collapse. unfold strip, split.
  rewrite lstrip_collapse. apply (proj2 (rstrip_join_split s)).
Qed.

Lemma split_ws_word_prefix (w rest cur : string) :
  nows w -> split_ws cur (w ++ rest) = split_ws (cur ++ w) rest.
Proof.
  revert cur. induction w as [|c w IH]; intros cur Hw; simpl.
  - now rewrite str_app_nil_r.
  - destruct Hw as [Hc Hw]. rewrite Hc, (IH _ Hw).
    now rewrite str_app_assoc.
Qed.

Lemma split_join_words (l : list string) :
  Forall word l -> split (join " " l) = l.
Proof.
  unfold split. induction l as [|w l IH]; intros Hl; [reflexivity|].
  inversion Hl as [|? ? [Hne Hw] Hl']; subst.
  destruct l as [|w' l].
  - simpl. rewrite <- (str_app_nil_r w) at 1.
    rewrite (split_ws_word_prefix _ _ _ Hw). simpl. now destruct w.
  - rewrite join_cons by discriminate.
    rewrite (split_ws_word_prefix _ _ _ Hw). cbn [append].
    change (split_ws w (String " " (join " " (w' :: l))))
      with (match w with "" => split_ws "" (join " " (w' :: l))
                    | _ => w :: split_ws "" (join " " (w' :: l)) end).
    rewrite (IH Hl'). now destruct w.
Qed.

(** C8. [clean_text] is idempotent; it returns the maximal non-whitespace
    runs of its input joined by single spaces (every whitespace run becomes
    one space, leading and trailing whitespace disappears), so
    ["a   b\n\tc"] becomes ["a b c"]; and [None] yields the empty string. *)
Theorem clean_text_idempotent :
  (forall s : option string,
      clean_text (Some (clean_text s)) = clean_text s) /\
  (forall s : string, clean_text (Some s) = join " " (split s)) /\
  (forall s : string, Forall word (split s)) /\
  clean_text (Some ("a   b" ++ String "010" (String "009" "c"))) = "a b c" /\
  clean_text None = "".
Proof.
  split; [|split; [|split; [|split]]].
  - assert (H : forall s, clean_text (Some (clean_text (Some s)))
                          = clean_text (Some s)).
    { intros s. rewrite !clean_text_join_split.
      rewrite split_join_words; [reflexivity|].
      apply split_ws_words. exact I. }
    intros [s|]; [apply H|]. apply (H "").
  - exact clean_text_join_split.
  - intros s. apply split_ws_words. exact I.
  - vm_compute. reflexivity.
  - reflexivity.
Qed.

(** ** Substring tests *)

Lemma prefix_spec (p s : string) :
  String.prefix p s = true <-> exists post, s = p ++ post.
Proof.
  revert s. induction p as [|c p IH]; intros s; simpl.
  - split; [intros _; now exists s | intros _; now destruct s].
  - destruct s as [|d s]; [split; [discriminate | intros [post H]; discriminate]|].
    simpl. destruct (ascii_dec c d) as [->|Hne].
    + rewrite IH. split; intros [post H]; exists post.
      * now rewrite H.
      * now injection H.
    + split; [discriminate|]. intros [post H]. injection H. congruence.
Qed.

Lemma contains_spec (kw s : string) : contains kw s = true <-> occurs kw s.
Proof.
  unfold occurs. induction s as [|c s IH].
  - cbn [contains]. rewrite orb_false_r, prefix_spec. split.
    + intros [post H]. now exists "", post.
    + intros (pre & post & H). destruct pre; [now exists post | discriminate].
  - cbn [contains]. rewrite orb_true_iff, prefix_spec, IH. split.
    + intros [[post H] | (pre & post & H)].
      * now exists "", post.
      * exists (String c pre), post. simpl. now rewrite H.
    + intros (pre & post & H). destruct pre as [|d pre].
      * left. now exists post.
      * right. exists pre, post. simpl in H. now injection H.
Qed.

Lemma lower_app (a b : string) : lower (a ++ b) = lower a ++ lower b.
Proof. induction a as [|c a IH]; simpl; [reflexivity | now rewrite IH]. Qed.

Lemma lower_app_inv (s a b : string) :
  lower s = a ++ b -> exists s1 s2, s = s1 ++ s2 /\ lower s1 = a /\ lower s2 = b.
Proof.
  revert s. induction a as [|c a IH]; intros s H.
  - now exists "", s.
  - destruct s as [|d s]; [discriminate|]. simpl in H. injection H as Hc Hs.
    destruct (IH _ Hs) as (s1 & s2 & -> & H1 & H2).
    exists (String d s1), s2. simpl. now rewrite Hc, H1.
Qed.

Lemma contains_lower_spec (kw text : string) :
  contains kw (lower text) = true <-> occurs_ci kw text.
Proof.
  rewrite contains_spec. unfold occurs, occurs_ci. split.
  - intros (pre & post & H).
    destruct (lower_app_inv _ _ _ H) as (s1 & s2 & -> & H1 & H2).
    destruct (lower_app_inv _ _ _ H2) as (s3 & s4 & -> & H3 & H4).
    now exists s1, s3, s4.
  - intros (pre & mid & post & -> & H).
    exists (lower pre), (lower post). now rewrite !lower_app, H.
Qed.

Lemma contains_lower_false (kw text : string) :
  contains kw (lower text) = false <-> ~ occurs_ci kw text.
Proof.
  rewrite <- contains_lower_spec. destruct (contains kw (lower text)); split;
    congruence.
Qed.

(** C9. [normalize_level] tests, without regard to letter case, whether
    "beginner", then "intermediate", then "advanced" occurs in the text and
    answers with the level of the first keyword found, or [None] when none
    of the three occurs; a text containing both "beginner" and "advanced"
    is classified Beginner. *)
Theorem normalize_level_priority :
  (forall text,
      (normalize_level text = Some "Beginner" <-> occurs_ci "beginner" text) /\
      (normalize_level text = Some "Intermediate" <->
         ~ occurs_ci "beginner" text /\ occurs_ci "intermediate" text) /\
      (normalize_level text = Some "Advanced" <->
         ~ occurs_ci "beginner" text /\ ~ occurs_ci "intermediate" text /\
         occurs_ci "advanced" text) /\
      (normalize_level text = None <->
         ~ occurs_ci "beginner" text /\ ~ occurs_ci "intermediate" text /\
         ~ occurs_ci "advanced" text)) /\
  (forall text,
      occurs_ci "beginner" text -> occurs_ci "advanced" text ->
      normalize_level text = Some "Beginner") /\
  normalize_level "This is an Intermediate course" = Some "Intermediate" /\
  normalize_level "no info" = None /\
  normalize_level "An ADVANCED topic, not for a Beginner" = Some "Beginner".
Proof.
  assert (H : forall text,
      (normalize_level text = Some "Beginner" <-> occurs_ci "beginner" text) /\
      (normalize_level text = Some "Intermediate" <->
         ~ occurs_ci "beginner" text /\ occurs_ci "intermediate" text) /\
      (normalize_level text = Some "Advanced" <->
         ~ occurs_ci "beginner" text /\ ~ occurs_ci "intermediate" text /\
         occurs_ci "advanced" text) /\
      (normalize_level text = None <->
         ~ occurs_ci "beginner" text /\ ~ occurs_ci "intermediate" text /\
         ~ occurs_ci "advanced" text)).
  { intros text. unfold normalize_level.
    rewrite <- !contains_lower_false, <- !contains_lower_spec.
    destruct (contains "beginner" (lower text));
      destruct (contains "intermediate" (lower text));
      destruct (contains "advanced" (lower text));
      repeat split; try congruence; try tauto;
      intros; repeat match goal with H : _ /\ _ |- _ => destruct H end;
      congruence. }
  split; [exact H|]. split.
  - intros text Hb _. now apply (proj1 (H text)).
  - repeat split; vm_compute; reflexivity.
Qed.

(** ** The matcher agrees with the declarative reading *)

Lemma last_char_app (prev : option ascii) (a b : string) :
  last_char prev (a ++ b) = last_char (last_char prev a) b.
Proof. revert prev. induction a as [|c a IH]; intros prev; simpl; auto. Qed.

Section RunFacts.
Context {A : Type}.
Implicit Types (k : @cont A).

Lemma star_sound p k prev n s x :
  star p k prev n s = Some x ->
  exists w rest, s = w ++ rest /\ matches (Star p) prev w rest /\
                 k (last_char prev w) (n + String.length w) rest = Some x.
Proof.
  revert prev n. induction s as [|c s IH]; intros prev n H; simpl in H.
  - exists "", "". rewrite Nat.add_0_r. repeat split; [constructor | exact H].
  - assert (Hstop : k prev n (String c s) = Some x ->
                    exists w rest, String c s = w ++ rest /\
                      matches (Star p) prev w rest /\
                      k (last_char prev w) (n + String.length w) rest = Some x).
    { intros Hk. exists "", (String c s). rewrite Nat.add_0_r.
      repeat split; [constructor | exact Hk]. }
    destruct (p c) eqn:Hp; [|auto].
    destruct (star p k (Some c) (S n) s) as [y|] eqn:Hs; [|auto].
    injection H as ->.
    destruct (IH _ _ Hs) as (w & rest & -> & Hm & Hk).
    exists (String c w), rest. repeat split.
    + now constructor.
    + simpl. now replace (n + S (String.length w)) with (S n + String.length w) by lia.
Qed.

Lemma run_sound r : forall k prev n s x,
  run r k prev n s = Some x ->
  exists w rest, s = w ++ rest /\ matches r prev w rest /\
                 k (last_char prev w) (n + String.length w) rest = Some x.
Proof.
  induction r as [| | |p|r1 IH1 r2 IH2|r1 IH1 r2 IH2|r1 IH1|p];
    intros k prev n s x H; simpl in H.
  - exists "", s. rewrite Nat.add_0_r. repeat split; [constructor | exact H].
  - destruct prev; [discriminate|].
    exists "", s. rewrite Nat.add_0_r. repeat split; [constructor | exact H].
  - destruct (xorb _ _) eqn:Hx; [|discriminate].
    exists "", s. rewrite Nat.add_0_r. repeat split; [now constructor | exact H].
  - destruct s as [|c s]; [discriminate|].
    destruct (p c) eqn:Hp; [|discriminate].
    exists (String c ""), s. repeat split; [now constructor|].
    simpl. now replace (n + 1) with (S n) by lia.
  - destruct (IH1 _ _ _ _ _ H) as (w1 & rest1 & -> & Hm1 & H1).
    destruct (IH2 _ _ _ _ _ H1) as (w2 & rest & -> & Hm2 & H2).
    exists (w1 ++ w2), rest. split; [now rewrite str_app_assoc|]. split.
    + now constructor.
    + rewrite last_char_app, str_app_length.
      now replace (n + (String.length w1 + String.length w2))
        with (n + String.length w1 + String.length w2) by lia.
  - destruct (run r1 k prev n s) as [y|] eqn:H1.
    + injection H as ->.
      destruct (IH1 _ _ _ _ _ H1) as (w & rest & -> & Hm & Hk).
      exists w, rest. repeat split; [now apply M_AltL | exact Hk].
    + destruct (IH2 _ _ _ _ _ H) as (w & rest & -> & Hm & Hk).
      exists w, rest. repeat split; [now apply M_AltR | exact Hk].
  - destruct (run r1 k prev n s) as [y|] eqn:H1.
    + injection H as ->.
      destruct (IH1 _ _ _ _ _ H1) as (w & rest & -> & Hm & Hk).
      exists w, rest. repeat split; [now apply M_OptSome | exact Hk].
    + exists "", s. rewrite Nat.add_0_r. repeat split; [apply M_OptNone | exact H].
  - now apply star_sound.
Qed.

Lemma run_complete r prev w rest :
  matches r prev w rest ->
  forall k n x,
    k (last_char prev w) (n + String.length w) rest = Some x ->
    exists y, run r k prev n (w ++ rest) = Some y.
Proof.
  induction 1 as [prev rest|rest|prev rest Hx|p c prev rest Hp
                 |r1 r2 prev w1 w2 rest _ IH1 _ IH2
                 |r1 r2 prev w rest _ IH|r1 r2 prev w rest _ IH
                 |r prev w rest _ IH|r prev rest|p prev rest
                 |p c prev w rest Hp _ IH]; intros k n x Hk.
  - exists x. simpl in *. now rewrite Nat.add_0_r in Hk.
  - exists x. simpl in *. now rewrite Nat.add_0_r in Hk.
  - exists x. simpl in *. rewrite Hx. now rewrite Nat.add_0_r in Hk.
  - exists x. simpl in *. rewrite Hp. now replace (S n) with (n + 1) by lia.
  - rewrite last_char_app, str_app_length in Hk.
    replace (n + (String.length w1 + String.length w2))
      with (n + String.length w1 + String.length w2) in Hk by lia.
    destruct (IH2 _ _ _ Hk) as [y Hy].
    rewrite str_app_assoc. cbn [run]. now apply (IH1 _ _ y).
  - destruct (IH _ _ _ Hk) as [y Hy]. exists y. cbn [run]. now rewrite Hy.
  - cbn [run]. destruct (run r1 k prev n (w ++ rest)) as [y|]; [now exists y|].
    now apply (IH _ _ x).
  - destruct (IH _ _ _ Hk) as [y Hy]. exists y. cbn [run]. now rewrite Hy.
  - cbn [run]. simpl in Hk. rewrite Nat.add_0_r in Hk.
    destruct (run r k prev n ("" ++ rest)) as [y|]; [now exists y|].
    now exists x.
  - cbn [run]. simpl in *. rewrite Nat.add_0_r in Hk.
    destruct rest as [|d rest]; simpl; [now exists x|].
    destruct (p d); [|now exists x].
    destruct (star p k (Some d) (S n) rest) as [y|]; [now exists y | now exists x].
  - simpl in Hk.
    replace (n + S (String.length w)) with (S n + String.length w) in Hk by lia.
    destruct (IH _ _ _ Hk) as [y Hy]. exists y.
    cbn [run] in *. simpl. now rewrite Hp, Hy.
Qed.
End RunFacts.

Lemma match_here_sound r prev s n :
  match_here r prev s = Some n ->
  exists w rest, s = w ++ rest /\ matches r prev w rest /\ String.length w = n.
Proof.
  intros H. destruct (run_sound r _ _ _ _ _ H) as (w & rest & -> & Hm & Hk).
  exists w, rest. repeat split; [exact Hm|]. now injection Hk.
Qed.

Lemma match_here_complete r prev w rest :
  matches r prev w rest -> exists n, match_here r prev (w ++ rest) = Some n.
Proof.
  intros Hm. now apply (run_complete r prev w rest Hm _ 0 (String.length w)).
Qed.

(** ** [re.search] finds the leftmost position at which the pattern matches *)

Lemma search_from_sound r : forall s prev i j n,
  search_from r prev i s = Some (j, n) ->
  exists pre suf,
    s = pre ++ suf /\ j = i + String.length pre /\
    match_here r (last_char prev pre) suf = Some n /\
    (forall pre' suf', s = pre' ++ suf' ->
       String.length pre' < String.length pre ->
       match_here r (last_char prev pre') suf' = None).
Proof.
  induction s as [|c s IH]; intros prev i j n H; simpl in H.
  - destruct (match_here r prev "") as [m|] eqn:Hm; [|discriminate].
    injection H as <- <-. exists "", "". repeat split; auto.
    intros pre' suf' _ Hlt. now apply Nat.nlt_0_r in Hlt.
  - destruct (match_here r prev (String c s)) as [m|] eqn:Hm.
    + injection H as <- <-. exists "", (String c s). repeat split; auto.
      intros pre' suf' _ Hlt. now apply Nat.nlt_0_r in Hlt.
    + destruct (IH _ _ _ _ H) as (pre & suf & -> & -> & Hh & Hmin).
      exists (String c pre), suf.
      split; [reflexivity|]. split; [rewrite str_length_cons; lia|].
      split; [exact Hh|].
      intros pre' suf' Heq Hlt. destruct pre' as [|d pre'].
      * simpl in Heq. subst suf'. exact Hm.
      * simpl in Heq. injection Heq as <- Heq.
        rewrite !str_length_cons in Hlt.
        apply Hmin; [exact Heq | lia].
Qed.

Lemma search_from_none r : forall s prev i,
  search_from r prev i s = None <->
  (forall pre suf, s = pre ++ suf -> match_here r (last_char prev pre) suf = None).
Proof.
  induction s as [|c s IH]; intros prev i; simpl.
  - destruct (match_here r prev "") as [m|] eqn:Hm.
    + split; [discriminate|]. intros H. specialize (H "" "" eq_refl).
      simpl in H. congruence.
    + split; [|reflexivity]. intros _ pre suf Heq.
      symmetry in Heq. apply str_app_eq_nil in Heq as [-> ->]. exact Hm.
  - destruct (match_here r prev (String c s)) as [m|] eqn:Hm.
    + split; [discriminate|]. intros H. specialize (H "" _ eq_refl).
      simpl in H. congruence.
    + rewrite IH. split.
      * intros H pre suf Heq. destruct pre as [|d pre].
        -- simpl in Heq. subst suf. exact Hm.
        -- simpl in Heq. injection Heq as <- Heq. simpl. now apply H.
      * intros H pre suf Heq. apply (H (String c pre) suf). simpl. now rewrite Heq.
Qed.

Lemma search_found r t : search r t <> None <-> found r t.
Proof.
  unfold search, found. split.
  - destruct (search_from r None 0 t) as [[j n]|] eqn:H;
      [intros _ | intros Hc; now contradiction Hc].
    destruct (search_from_sound _ _ _ _ _ _ H) as (pre & suf & -> & _ & Hh & _).
    destruct (match_here_sound _ _ _ _ Hh) as (w & rest & -> & Hm & _).
    now exists pre, w, rest.
  - intros (pre & w & rest & -> & Hm) Hnone.
    rewrite search_from_none in Hnone.
    destruct (match_here_complete _ _ _ _ Hm) as [n Hn].
    specialize (Hnone pre (w ++ rest) eq_refl). congruence.
Qed.

Lemma search_none_not_found r t : search r t = None <-> ~ found r t.
Proof.
  rewrite <- search_found. destruct (search r t); split; intros H;
    [discriminate | exfalso; apply H; discriminate
    | intros H'; now apply H' | reflexivity].
Qed.

(** ** Anchor-free expressions: matches do not depend on the context *)

Lemma matches_anchor_free r prev w rest :
  matches r prev w rest -> anchor_free r = true ->
  forall prev' rest', matches r prev' w rest'.
Proof.
  induction 1 as [prev rest|rest|prev rest Hx|p c prev rest Hp
                 |r1 r2 prev w1 w2 rest _ IH1 _ IH2
                 |r1 r2 prev w rest _ IH|r1 r2 prev w rest _ IH
                 |r prev w rest _ IH|r prev rest|p prev rest
                 |p c prev w rest Hp _ IH]; simpl; intros Haf prev' rest';
    try discriminate; try (apply andb_prop in Haf as [Haf1 Haf2]).
  - constructor.
  - now constructor.
  - constructor; auto.
  - apply M_AltL; auto.
  - apply M_AltR; auto.
  - apply M_OptSome; auto.
  - apply M_OptNone.
  - apply M_StarNil.
  - apply M_StarCons; auto.
Qed.

Lemma found_intro r t pre w rest prev rest0 :
  anchor_free r = true -> matches r prev w rest0 ->
  t = pre ++ w ++ rest -> found r t.
Proof.
  intros Haf Hm ->. exists pre, w, rest. split; [reflexivity|].
  now apply (matches_anchor_free r prev w rest0).
Qed.

Lemma matches_cat_inv r1 r2 prev w rest :
  matches (Cat r1 r2) prev w rest ->
  exists w1 w2, w = w1 ++ w2 /\ matches r1 prev w1 (w2 ++ rest) /\
                matches r2 (last_char prev w1) w2 rest.
Proof. inversion 1; subst. now exists w1, w2. Qed.

Lemma found_cat_r r1 r2 t : found (Cat r1 r2) t -> found r2 t.
Proof.
  intros (pre & w & rest & -> & Hm).
  apply matches_cat_inv in Hm as (w1 & w2 & -> & _ & H2).
  exists (pre ++ w1), w2, rest. split.
  - now rewrite !str_app_assoc.
  - now rewrite last_char_app.
Qed.

(** ** The patterns behind "approximately", "about" and ranges are shadowed *)

(** Their common tail [(\d+(?:\.\d+)?)\s*(hour|hours|week|weeks)]. *)
Lemma number_unit_found t :
  found (cats [ number_re; Star isspace;
                alts [ lit "hour"; lit "hours"; lit "week"; lit "weeks" ] ]) t ->
  found pat_hours t \/ found pat_weeks t.
Proof.
  intros (pre & w & rest & -> & Hm). cbn [cats alts] in Hm.
  apply matches_cat_inv in Hm as (w1 & w23 & -> & Hn & Hm).
  apply matches_cat_inv in Hm as (w2 & w3 & -> & Hs & Hu).
  assert (Hh : matches (alts [ lit "hour"; lit "hours"; lit "hr"; lit "hrs" ])
                       None w3 "" ->
               found pat_hours (pre ++ (w1 ++ w2 ++ w3) ++ rest)).
  { intros Hu'.
    apply (found_intro _ _ pre (w1 ++ w2 ++ w3 ++ "" ++ "") rest None "");
      [reflexivity | | now rewrite !str_app_nil_r].
    unfold pat_hours. cbn [cats].
    constructor; [now apply (matches_anchor_free _ _ _ _ Hn)|].
    constructor; [now apply (matches_anchor_free _ _ _ _ Hs)|].
    constructor; [now apply (matches_anchor_free _ _ _ _ Hu')|].
    constructor; [apply M_StarNil | apply M_OptNone]. }
  assert (Hw : matches (alts [ lit "week"; lit "weeks"; lit "wk"; lit "wks" ])
                       None w3 "" ->
               found pat_weeks (pre ++ (w1 ++ w2 ++ w3) ++ rest)).
  { intros Hu'.
    apply (found_intro _ _ pre (w1 ++ w2 ++ w3) rest None "");
      [reflexivity | | reflexivity].
    unfold pat_weeks. cbn [cats].
    constructor; [now apply (matches_anchor_free _ _ _ _ Hn)|].
    constructor; [now apply (matches_anchor_free _ _ _ _ Hs)|].
    now apply (matches_anchor_free _ _ _ _ Hu'). }
  inversion Hu as [| | | | |? ? ? ? ? H1|? ? ? ? ? H1| | | |]; subst.
  { left. apply Hh. cbn [alts]. apply M_AltL.
    now apply (matches_anchor_free _ _ _ _ H1). }
  inversion H1 as [| | | | |? ? ? ? ? H2|? ? ? ? ? H2| | | |]; subst.
  { left. apply Hh. cbn [alts]. apply M_AltR, M_AltL.
    now apply (matches_anchor_free _ _ _ _ H2). }
  inversion H2 as [| | | | |? ? ? ? ? H3|? ? ? ? ? H3| | | |]; subst.
  { right. apply Hw. cbn [alts]. apply M_AltL.
    now apply (matches_anchor_free _ _ _ _ H3). }
  right. apply Hw. cbn [alts]. apply M_AltR, M_AltL.
  now apply (matches_anchor_free _ _ _ _ H3).
Qed.

Lemma shadowed_patterns t p :
  In p [pat_approximately; pat_about; pat_range] ->
  found p t -> found pat_hours t \/ found pat_weeks t.
Proof.
  intros [<-|[<-|[<-|[]]]] H; apply number_unit_found;
    apply found_cat_r, found_cat_r in H; exact H.
Qed.

(** ** The loop over the pattern list *)

Lemma search_group0_none r t : search_group0 r t = None <-> ~ found r t.
Proof.
  rewrite <- search_none_not_found. unfold search_group0.
  destruct (search r t) as [[i n]|]; split; congruence.
Qed.

Lemma first_match_app ps1 ps2 t :
  first_match (ps1 ++ ps2) t =
  match first_match ps1 t with Some r => Some r | None => first_match ps2 t end.
Proof.
  induction ps1 as [|p ps1 IH]; simpl; [reflexivity|].
  destruct (search_group0 p t); [reflexivity | exact IH].
Qed.

Lemma first_match_none ps t :
  first_match ps t = None <-> (forall p, In p ps -> ~ found p t).
Proof.
  induction ps as [|p ps IH]; simpl.
  - split; [intros _ p [] | reflexivity].
  - destruct (search_group0 p t) as [g|] eqn:Hg.
    + split; [discriminate|]. intros H. exfalso.
      apply (H p (or_introl eq_refl)). apply search_found.
      unfold search_group0 in Hg. destruct (search p t); congruence.
    + rewrite IH. apply search_group0_none in Hg. split.
      * intros H q [<-|Hq]; auto.
      * intros H q Hq. apply H. now right.
Qed.

Lemma first_match_some ps t r :
  first_match ps t = Some r ->
  exists ps1 p ps2 g,
    ps = (ps1 ++ p :: ps2)%list /\ (forall q, In q ps1 -> ~ found q t) /\
    search_group0 p t = Some g /\ r = strip g.
Proof.
  induction ps as [|p ps IH]; simpl; [discriminate|].
  destruct (search_group0 p t) as [g|] eqn:Hg.
  - intros [= <-]. exists [], p, ps, g. repeat split; auto; intros q [].
  - intros H. destruct (IH H) as (ps1 & p' & ps2 & g & -> & Hnone & Hp & ->).
    exists (p :: ps1), p', ps2, g. repeat split; auto.
    intros q [<-|Hq]; [now apply search_group0_none | auto].
Qed.

Lemma first_match_shadowed ps tail t :
  In pat_hours ps -> In pat_weeks ps ->
  (forall p, In p tail -> In p [pat_approximately; pat_about; pat_range]) ->
  first_match (ps ++ tail) t = first_match ps t.
Proof.
  intros Hh Hw Htail. rewrite first_match_app.
  destruct (first_match ps t) eqn:Hps; [reflexivity|].
  rewrite first_match_none in Hps. apply first_match_none.
  intros p Hp Hfound.
  destruct (shadowed_patterns t p (Htail p Hp) Hfound) as [H|H];
    [now apply (Hps pat_hours) | now apply (Hps pat_weeks)].
Qed.

(** ** Position and text of a match *)

Lemma substring_app_mid (pre w rest : string) :
  slice (String.length pre) (String.length w) (pre ++ w ++ rest) = w.
Proof.
  unfold slice. induction pre as [|c pre IH]; simpl.
  - clear. induction w as [|c w IH]; simpl.
    + now destruct rest.
    + now rewrite IH.
  - exact IH.
Qed.

Lemma search_leftmost r t i n :
  search r t = Some (i, n) ->
  exists pre w rest,
    t = pre ++ w ++ rest /\ String.length pre = i /\ String.length w = n /\
    matches r (last_char None pre) w rest /\ slice i n t = w /\
    (forall pre' suf', t = pre' ++ suf' -> String.length pre' < i ->
       forall w' rest', suf' = w' ++ rest' ->
                        ~ matches r (last_char None pre') w' rest').
Proof.
  intros H. unfold search in H.
  destruct (search_from_sound _ _ _ _ _ _ H) as (pre & suf & -> & -> & Hh & Hmin).
  destruct (match_here_sound _ _ _ _ Hh) as (w & rest & -> & Hm & <-).
  exists pre, w, rest. repeat split; auto.
  - apply substring_app_mid.
  - intros pre' suf' Heq Hlt w' rest' -> Hm'.
    destruct (match_here_complete _ _ _ _ Hm') as [m Hm''].
    rewrite (Hmin pre' _ Heq Hlt) in Hm''. discriminate.
Qed.

(** C7 (as amended). [parse_duration_from_text] searches the lower-cased
    input with its patterns in a fixed priority order -- number and unit
    (hours with optional "per week", then weeks, months, days, minutes),
    then ranges, then "approximately"/"about", an order that yields the same
    result as the order of the source list because the last three shapes
    are only reached when they cannot match -- and returns the text of the
    leftmost match of the first pattern that matches anywhere, stripped of
    surrounding whitespace; it returns [None] exactly when no pattern
    matches.  On "approximately 4 weeks to complete" the result is a
    substring of the input that contains "4" and "week". *)
Theorem parse_duration_from_text_first_match :
  (forall text,
      parse_duration_from_text text
      = first_match duration_patterns_spec_order (lower text)) /\
  (forall text,
      parse_duration_from_text text = None <->
      (forall p, In p duration_patterns -> ~ found p (lower text))) /\
  (forall text r,
      parse_duration_from_text text = Some r ->
      exists ps1 p ps2 i n pre w rest,
        duration_patterns = (ps1 ++ p :: ps2)%list /\
        (forall q, In q ps1 -> ~ found q (lower text)) /\
        search p (lower text) = Some (i, n) /\
        lower text = pre ++ w ++ rest /\
        String.length pre = i /\ String.length w = n /\
        matches p (last_char None pre) w rest /\
        (forall pre' suf', lower text = pre' ++ suf' ->
           String.length pre' < i ->
           forall w' rest', suf' = w' ++ rest' ->
                            ~ matches p (last_char None pre') w' rest') /\
        r = strip w) /\
  (exists r,
      parse_duration_from_text "approximately 4 weeks to complete" = Some r /\
      contains "4" r = true /\ contains "week" r = true /\
      contains r "approximately 4 weeks to complete" = true).
Proof.
  assert (Hempty : forall text, nonempty text = false ->
                     forall ps, (forall p, In p ps -> In p duration_patterns) ->
                                first_match ps (lower text) = None).
  { intros [|c s] Hne ps Hps; [|discriminate]. simpl.
    apply first_match_none. intros p Hp.
    apply search_none_not_found.
    specialize (Hps p Hp).
    repeat (destruct Hps as [<-|Hps]; [vm_compute; reflexivity|]).
    destruct Hps. }
  assert (Hsrc : forall text,
             parse_duration_from_text text
             = first_match duration_patterns (lower text)).
  { intros text. unfold parse_duration_from_text.
    destruct (nonempty text) eqn:Hne; [reflexivity|].
    symmetry. apply (Hempty text Hne). auto. }
  split; [|split; [|split]].
  - intros text. rewrite Hsrc.
    change duration_patterns
      with ([pat_hours; pat_weeks; pat_months; pat_days; pat_minutes]
              ++ [pat_approximately; pat_about; pat_range])%list.
    change duration_patterns_spec_order
      with ([pat_hours; pat_weeks; pat_months; pat_days; pat_minutes]
              ++ [pat_range; pat_approximately; pat_about])%list.
    rewrite !first_match_shadowed; try reflexivity; simpl; tauto.
  - intros text. rewrite Hsrc. apply first_match_none.
  - intros text r. rewrite Hsrc. intros H.
    destruct (first_match_some _ _ _ H) as (ps1 & p & ps2 & g & Hps & Hnone & Hg & ->).
    unfold search_group0 in Hg.
    destruct (search p (lower text)) as [[i n]|] eqn:Hs; [|discriminate].
    injection Hg as <-.
    destruct (search_leftmost _ _ _ _ Hs)
      as (pre & w & rest & Ht & Hi & Hn & Hm & Hslice & Hmin).
    exists ps1, p, ps2, i, n, pre, w, rest. rewrite Hslice.
    repeat split; auto.
  - eexists. split; [vm_compute; reflexivity|].
    repeat split; vm_compute; reflexivity.
Qed.

(** C7, counterexample to the claim as stated: on the claim's own input the
    result is "4 week", which does not contain "weeks" (the alternative
    [week] is tried before [weeks] and the pattern ends there); and the
    result is not always the matched text itself, since it is stripped. *)
Lemma parse_duration_from_text_weeks_counterexample :
  parse_duration_from_text "approximately 4 weeks to complete" = Some "4 week" /\
  ~ (exists r,
        parse_duration_from_text "approximately 4 weeks to complete" = Some r /\
        contains "4" r = true /\ contains "weeks" r = true) /\
  search_group0 pat_hours (lower "5 hr  later") = Some "5 hr  " /\
  parse_duration_from_text "5 hr  later" = Some "5 hr".
Proof.
  split; [vm_compute; reflexivity|]. split.
  - intros (r & Hr & _ & Hw).
    assert (E : parse_duration_from_text "approximately 4 weeks to complete"
                = Some "4 week") by (vm_compute; reflexivity).
    rewrite E in Hr. injection Hr as <-. vm_compute in Hw. discriminate.
  - split; vm_compute; reflexivity.
Qed.

(** ** Order-preserving deduplication *)

Section Firsts.
Context {A : Type} (key : A -> string).

Lemma firsts_fresh l seen y :
  In y (firsts key l seen) -> (key y ∉ seen) /\ In y l.
Proof.
  revert seen. induction l as [|x l IH]; intros seen; simpl; [tauto|].
  destruct (decide (key x ∈ seen)) as [Hin|Hnot].
  - intros H. destruct (IH _ H). tauto.
  - intros [<-|H]; [tauto|]. destruct (IH _ H) as [Hy ?].
    split; [set_solver | tauto].
Qed.

Lemma firsts_NoDup l seen : NoDup (map key (firsts key l seen)).
Proof.
  revert seen. induction l as [|x l IH]; intros seen; simpl; [constructor|].
  destruct (decide (key x ∈ seen)); [apply IH|].
  simpl. constructor; [|apply IH].
  intros Hin%list_elem_of_In. apply in_map_iff in Hin as (y & Hk & Hy).
  apply firsts_fresh in Hy as [Hy _]. set_solver.
Qed.

Lemma firsts_sublist l seen : sublist (firsts key l seen) l.
Proof.
  revert seen. induction l as [|x l IH]; intros seen; simpl; [constructor|].
  destruct (decide (key x ∈ seen)).
  - apply sublist_cons, IH.
  - apply sublist_skip, IH.
Qed.

Lemma firsts_complete l seen x :
  In x l -> key x ∉ seen -> exists y, In y (firsts key l seen) /\ key y = key x.
Proof.
  revert seen. induction l as [|z l IH]; intros seen; simpl; [tauto|].
  intros [->|Hx] Hseen.
  - destruct (decide (key x ∈ seen)); [tauto|]. exists x. simpl. tauto.
  - destruct (decide (key z ∈ seen)) as [Hz|Hz]; [now apply IH|].
    destruct (decide (key x = key z)) as [E|E].
    + exists z. simpl. split; [tauto | congruence].
    + destruct (IH ({[ key z ]} ∪ seen) Hx) as (y & Hy & Hk); [set_solver|].
      exists y. simpl. tauto.
Qed.

Lemma firsts_first l seen y :
  In y (firsts key l seen) -> first_with_key key l y.
Proof.
  revert seen. induction l as [|x l IH]; intros seen; simpl; [tauto|].
  destruct (decide (key x ∈ seen)) as [Hin|Hnot].
  - intros H. destruct (firsts_fresh _ _ _ H) as [Hy _].
    destruct (IH _ H) as (l1 & l2 & -> & Hl1).
    exists (x :: l1), l2. split; [reflexivity|].
    intros z [<-|Hz]; [congruence | auto].
  - intros [<-|H].
    + exists [], l. split; [reflexivity | intros z []].
    + destruct (firsts_fresh _ _ _ H) as [Hy _].
      destruct (IH _ H) as (l1 & l2 & -> & Hl1).
      exists (x :: l1), l2. split; [reflexivity|].
      intros z [<-|Hz]; [set_solver | auto].
Qed.

Lemma firsts_NoDup_id l : NoDup (map key l) -> firsts key l ∅ = l.
Proof.
  assert (H : forall seen, NoDup (map key l) ->
                           (forall x, In x l -> key x ∉ seen) ->
                           firsts key l seen = l).
  { induction l as [|x l IH]; intros seen Hnd Hseen; simpl; [reflexivity|].
    inversion Hnd as [|? ? Hx Hnd']; subst.
    destruct (decide (key x ∈ seen)) as [Hin|_].
    - exfalso. apply (Hseen x); simpl; tauto.
    - f_equal. apply IH; [exact Hnd'|].
      intros z Hz. specialize (Hseen z (or_intror Hz)).
      assert (key z <> key x).
      { intros E. apply Hx. rewrite <- E. apply list_elem_of_In.
        now apply in_map. }
      set_solver. }
  intros Hnd. apply H; [exact Hnd | set_solver].
Qed.
End Firsts.

Lemma dedup_links_firsts links seen uniq :
  dedup_links links seen uniq = (uniq ++ firsts snd links seen)%list.
Proof.
  revert seen uniq. induction links as [|[t u] links IH]; intros seen uniq; simpl.
  - now rewrite app_nil_r.
  - destruct (decide (u ∈ seen)); [apply IH|].
    rewrite IH, <- app_assoc. reflexivity.
Qed.

Lemma dedup_loop_firsts concepts seen dedup :
  dedup_loop concepts seen dedup = (dedup ++ firsts id concepts seen)%list.
Proof.
  revert seen dedup. induction concepts as [|c concepts IH]; intros seen dedup; simpl.
  - now rewrite app_nil_r.
  - change (id c) with c. destruct (decide (c ∈ seen)); [apply IH|].
    rewrite IH, <- app_assoc. reflexivity.
Qed.

(** C4. The (title, url) list that [get_links_from_dom] extracts from a page
    is deduplicated by url, first occurrence kept: no url occurs twice in
    the result, the result is a subsequence of the extracted anchors (the
    relative order is preserved), every url of an anchor is still present,
    and each kept pair is the first anchor with its url, so it carries the
    title of that first occurrence. *)
Theorem links_of_soup_dedup :
  (forall soup : node,
      let links :=
        omap anchor_link (select (SelTagAttrPrefix "a" "href" "/learn/") soup) in
      let uniq := links_of_soup soup in
      NoDup (map snd uniq) /\
      sublist uniq links /\
      (forall t u, In (t, u) links -> exists t', In (t', u) uniq) /\
      (forall t u, In (t, u) uniq -> first_with_key snd links (t, u))) /\
  links_of_soup repeated_card_page
  = [ ("Python Basics", "https://www.coursera.org/learn/python");
      ("SQL for Data", "https://www.coursera.org/learn/sql") ].
Proof.
  split; [|vm_compute; reflexivity].
  intros soup links uniq. unfold uniq, links_of_soup. fold links.
  rewrite dedup_links_firsts. cbn [app].
  split; [apply firsts_NoDup|]. split; [apply firsts_sublist|]. split.
  - intros t u Hin.
    destruct (firsts_complete snd links ∅ (t, u) Hin) as ([t' u'] & Hy & Hk);
      [set_solver|].
    simpl in Hk. subst u'. now exists t'.
  - intros t u Hin. now apply (firsts_first snd links ∅).
Qed.

Lemma take_NoDup {A : Type} (n : nat) (l : list A) : NoDup l -> NoDup (take n l).
Proof. intros H. apply (sublist_NoDup _ l); [exact H | apply sublist_take]. Qed.

Lemma In_take {A : Type} (n : nat) (l : list A) (x : A) :
  In x (take n l) -> In x l.
Proof.
  revert n. induction l as [|y l IH]; intros [|n]; simpl; try tauto.
  intros [->|H]; [tauto | right; eauto].
Qed.

Lemma map_id_eq {A : Type} (l : list A) : map id l = l.
Proof. induction l; simpl; congruence. Qed.

Lemma cap_concepts_firsts concepts :
  cap_concepts concepts = take 30 (firsts id concepts ∅).
Proof. unfold cap_concepts. now rewrite dedup_loop_firsts. Qed.

(** C5. The concepts list returned for a detail page has no duplicate
    string and at most 30 entries; it is the first 30 of the distinct
    collected items in first-seen order (a subsequence of what was
    collected, each entry standing for its first occurrence).  Distinct
    items are kept as they are up to the cap, and a page whose skills list
    has 45 distinct items yields exactly the first 30 in page order. *)
Theorem cap_concepts_spec :
  (forall soup : node,
      NoDup (detail_concepts soup) /\ List.length (detail_concepts soup) <= 30) /\
  (forall concepts : list string,
      NoDup (cap_concepts concepts) /\
      List.length (cap_concepts concepts) <= 30 /\
      cap_concepts concepts = take 30 (firsts id concepts ∅) /\
      sublist (cap_concepts concepts) concepts /\
      (forall c, In c (cap_concepts concepts) -> first_with_key id concepts c)) /\
  (forall concepts : list string,
      NoDup concepts -> cap_concepts concepts = take 30 concepts) /\
  detail_concepts (skills_page 45) = map skill_item (seq 1 30).
Proof.
  assert (H : forall concepts : list string,
      NoDup (cap_concepts concepts) /\
      List.length (cap_concepts concepts) <= 30 /\
      cap_concepts concepts = take 30 (firsts id concepts ∅) /\
      sublist (cap_concepts concepts) concepts /\
      (forall c, In c (cap_concepts concepts) -> first_with_key id concepts c)).
  { intros concepts. rewrite cap_concepts_firsts.
    pose proof (firsts_NoDup id concepts ∅) as Hnd. rewrite map_id_eq in Hnd.
    split; [now apply take_NoDup|]. split; [rewrite length_take; lia|].
    split; [reflexivity|]. split.
    - etransitivity; [apply sublist_take | apply firsts_sublist].
    - intros c Hc. apply (firsts_first id concepts ∅).
      now apply (In_take 30). }
  split; [|split; [exact H|split]].
  - intros soup. unfold detail_concepts.
    destruct (H (match strategyA soup with
                 | [] => strategyB soup | _ => strategyA soup end)) as (H1 & H2 & _).
    now split.
  - intros concepts Hnd. rewrite cap_concepts_firsts.
    rewrite firsts_NoDup_id; [reflexivity | now rewrite map_id_eq].
  - vm_compute. reflexivity.
Qed.

(** ** Loops that stop at the first success *)

Lemma first_some_none {A B : Type} (f : A -> option B) (l : list A) :
  first_some f l = None <-> (forall x, In x l -> f x = None).
Proof.
  induction l as [|x l IH]; simpl.
  - split; [intros _ x [] | reflexivity].
  - destruct (f x) as [y|] eqn:Hx.
    + split; [discriminate|]. intros H. rewrite <- Hx. apply H. now left.
    + rewrite IH. split.
      * intros H z [<-|Hz]; auto.
      * intros H z Hz. apply H. now right.
Qed.

Lemma first_some_some {A B : Type} (f : A -> option B) (l : list A) (y : B) :
  first_some f l = Some y <->
  exists l1 x l2, l = (l1 ++ x :: l2)%list /\ f x = Some y /\
                  (forall z, In z l1 -> f z = None).
Proof.
  induction l as [|x l IH]; simpl.
  - split; [discriminate|]. intros (l1 & x & l2 & H & _). now destruct l1.
  - destruct (f x) as [y'|] eqn:Hx.
    + split.
      * intros [= ->]. exists [], x, l. repeat split; auto. intros z [].
      * intros (l1 & x' & l2 & H & Hy & Hnone). destruct l1 as [|z l1].
        -- injection H as -> ->. congruence.
        -- injection H as -> ->. rewrite (Hnone z) in Hx; [discriminate | now left].
    + rewrite IH. split.
      * intros (l1 & x' & l2 & -> & Hy & Hnone).
        exists (x :: l1), x', l2. repeat split; auto.
        intros z [<-|Hz]; auto.
      * intros (l1 & x' & l2 & H & Hy & Hnone). destruct l1 as [|z l1].
        -- injection H as -> ->. congruence.
        -- injection H as -> ->. exists l1, x', l2. repeat split; auto.
           intros z' Hz'. apply Hnone. now right.
Qed.

(** ** The text of an element contains the text of everything below it *)


Lemma occurs_trans (a b c : string) : occurs a b -> occurs b c -> occurs a c.
Proof.
  intros (p1 & q1 & ->) (p2 & q2 & ->).
  exists (p2 ++ p1), (q1 ++ q2). now rewrite !str_app_assoc.
Qed.









(** ** The duration cascade *)

Lemma unless_found_truthy (findings : list (option pyval)) (d : pyval) :
  truthy d = true -> fold_left unless_found findings d = d.
Proof.
  induction findings as [|f findings IH]; intros Hd; simpl; [reflexivity|].
  unfold unless_found at 2. rewrite Hd. now apply IH.
Qed.

Lemma unless_found_falsy (findings : list (option pyval)) (d : pyval) :
  truthy d = false ->
  match first_truthy findings with
  | Some v => fold_left unless_found findings d = v
  | None => truthy (fold_left unless_found findings d) = false
  end.
Proof.
  revert d. induction findings as [|f findings IH]; intros d Hd; simpl; [exact Hd|].
  unfold unless_found at 2 4. rewrite Hd. destruct f as [v|].
  - destruct (truthy v) eqn:Hv.
    + now apply unless_found_truthy.
    + now apply IH.
  - now apply IH.
Qed.

Lemma detail_duration_fold json_loads py_str soup :
  detail_duration json_loads py_str soup
  = fold_left unless_found (cascade json_loads py_str soup) PyNone.
Proof. reflexivity. Qed.

Lemma short_enough_spec (d : option string) (d' : string) :
  short_enough d = Some d' <->
  d = Some d' /\ d' <> "" /\ String.length d' < 50.
Proof.
  unfold short_enough. destruct d as [x|]; [|split; [discriminate | intros [? _]; discriminate]].
  destruct x as [|c x]; simpl.
  - split; [discriminate|]. intros ([= <-] & H & _). congruence.
  - destruct (Nat.ltb_spec (S (String.length x)) 50); split.
    + intros [= <-]. repeat split; [discriminate | exact H].
    + now intros ([= <-] & _ & _).
    + discriminate.
    + intros ([= <-] & _ & Hlt). rewrite str_length_cons in Hlt. lia.
Qed.

Lemma strategy1_short soup d :
  strategy1 soup = Some d ->
  d <> "" /\ String.length d < 50 /\
  exists pattern el,
    In pattern duration_selectors /\ In el (select pattern soup) /\
    extract_duration_like (element_text el) = Some d.
Proof.
  unfold strategy1. intros H.
  apply first_some_some in H as (l1 & pattern & l2 & Hl & H & _).
  apply first_some_some in H as (e1 & el & e2 & He & H & _).
  apply short_enough_spec in H as (H & Hne & Hlen).
  repeat split; auto. exists pattern, el. repeat split; auto.
  - rewrite Hl. apply in_or_app. right. now left.
  - rewrite He. apply in_or_app. right. now left.
Qed.

Lemma strategy3_short soup d :
  strategy3 soup = Some d ->
  d <> "" /\ String.length d < 50 /\
  exists section el,
    In section (find_all_class ["div"; "section"] info_class soup) /\
    In el (find_all ["span"; "div"; "li"; "p"] section) /\
    search number_unit_re (element_text el) <> None /\
    extract_duration_like (element_text el) = Some d.
Proof.
  unfold strategy3. intros H.
  apply first_some_some in H as (l1 & section & l2 & Hl & H & _).
  apply first_some_some in H as (e1 & el & e2 & He & H & _).
  destruct (search number_unit_re (element_text el)) eqn:Hs; [|discriminate].
  apply short_enough_spec in H as (H & Hne & Hlen).
  repeat split; auto. exists section, el. repeat split; auto.
  - rewrite Hl. apply in_or_app. right. now left.
  - rewrite He. apply in_or_app. right. now left.
  - congruence.
Qed.

Lemma strategy1_none soup :
  strategy1 soup = None <->
  (forall pattern el d,
      In pattern duration_selectors -> In el (select pattern soup) ->
      extract_duration_like (element_text el) = Some d ->
      d = "" \/ 50 <= String.length d).
Proof.
  unfold strategy1. rewrite first_some_none. split.
  - intros H pattern el d Hp Hel Hd. specialize (H pattern Hp).
    rewrite first_some_none in H. specialize (H el Hel). rewrite Hd in H.
    destruct d as [|c d]; [now left|]. right.
    destruct (Nat.lt_ge_cases (String.length (String c d)) 50) as [Hlt|]; [|assumption].
    assert (Hs : short_enough (Some (String c d)) = Some (String c d)).
    { apply short_enough_spec. repeat split; [discriminate | exact Hlt]. }
    congruence.
  - intros H pattern Hp. apply first_some_none. intros el Hel.
    destruct (short_enough (extract_duration_like (element_text el))) as [d|] eqn:Hs;
      [|reflexivity].
    apply short_enough_spec in Hs as (Hd & Hne & Hlen).
    destruct (H pattern el d Hp Hel Hd); [congruence | lia].
Qed.

(** C1 (as amended). The duration extractor tries its eight strategies in
    the fixed order 1..8 and returns the value of the first strategy that
    yields a non-empty (truthy) value; when none does, the result is empty:
    [None], or the empty value strategy 2 read.  The length test applies to
    the keyword-sniff candidates of strategies 1 and 3 only and accepts a
    candidate when it is non-empty and shorter than 50 characters;
    strategy 1 yields nothing exactly when every candidate is empty or has
    50 characters or more.  The other strategies apply no length test.  When
    strategy 1 yields nothing and the structured-data block yields a
    non-empty value, that value is returned, whatever later strategies find:
    structured data saying "3 weeks" wins over a fallback element. *)
Theorem detail_duration_cascade :
  (forall json_loads py_str soup,
      match first_truthy (cascade json_loads py_str soup) with
      | Some v => detail_duration json_loads py_str soup = v
      | None => truthy (detail_duration json_loads py_str soup) = false
      end) /\
  (forall soup d,
      (strategy1 soup = Some d -> d <> "" /\ String.length d < 50) /\
      (strategy3 soup = Some d -> d <> "" /\ String.length d < 50)) /\
  (forall soup,
      strategy1 soup = None <->
      (forall pattern el d,
          In pattern duration_selectors -> In el (select pattern soup) ->
          extract_duration_like (element_text el) = Some d ->
          d = "" \/ 50 <= String.length d)) /\
  (forall json_loads py_str soup v,
      strategy1 soup = None ->
      strategy2 json_loads py_str soup = Some v -> truthy v = true ->
      detail_duration json_loads py_str soup = v) /\
  (strategy8 precedence_page = Some "45 minute" /\
   detail_duration json_loads_sample py_str_sample precedence_page
   = PyStr "3 weeks").
Proof.
  split; [|split; [|split; [|split]]].
  - intros json_loads py_str soup. rewrite detail_duration_fold.
    now apply unless_found_falsy.
  - intros soup d. split; intros H.
    + apply strategy1_short in H. tauto.
    + apply strategy3_short in H. tauto.
  - exact strategy1_none.
  - intros json_loads py_str soup v H1 H2 Hv.
    pose proof (unless_found_falsy (cascade json_loads py_str soup) PyNone eq_refl) as H.
    rewrite <- detail_duration_fold in H.
    unfold cascade in H. cbn [first_truthy] in H.
    rewrite H1, H2 in H. cbn [as_str option_map] in H. now rewrite Hv in H.
  - split; vm_compute; reflexivity.
Qed.

(** C1, counterexample to the claim as stated: a structured-data value of
    62 characters is returned although it exceeds 50 characters (strategy 2
    applies no length test), and a strategy-1 candidate of exactly 50
    characters, which does not exceed 50, is rejected. *)
Lemma detail_duration_length_counterexample :
  detail_duration json_loads_sample py_str_sample long_duration_page
  = PyStr long_duration /\
  String.length long_duration = 62 /\
  ~ (forall json_loads py_str soup d,
        detail_duration json_loads py_str soup = PyStr d -> String.length d <= 50) /\
  String.length fifty_chars = 50 /\
  extract_duration_like fifty_chars = Some fifty_chars /\
  select (SelClass "course-duration") fifty_chars_page
  = [ Elem "span" [ ("class", "course-duration") ] [ Text fifty_chars ] ] /\
  strategy1 fifty_chars_page = None /\
  detail_duration json_loads_sample py_str_sample fifty_chars_page = PyNone.
Proof.
  assert (H1 : detail_duration json_loads_sample py_str_sample long_duration_page
               = PyStr long_duration) by (vm_compute; reflexivity).
  split; [exact H1|]. split; [reflexivity|]. split.
  - intros H. specialize (H _ _ _ _ H1). vm_compute in H. lia.
  - repeat split; vm_compute; reflexivity.
Qed.

(** ** The discovery loop *)

Section Discovery.
Context {World : Type} {D : Driver World}.
Implicit Types (st : @state World) (results : list (string * string)).

Lemma scroll_loop_step fuel results idle st :
  scroll_loop (S fuel) results idle st =
  match scroll_and_parse st with
  | (Ok results', st') =>
      let idle' :=
        if (List.length results' <=? List.length results)%nat then idle + 1 else 0 in
      if (MAX_IDLE_SCROLLS <=? idle')%nat then (Ok results', st')
      else scroll_loop fuel results' idle' st'
  | (Raised e, st') => (Raised e, st')
  | (NoFuel, st') => (NoFuel, st')
  end.
Proof.
  cbn [scroll_loop]. unfold scroll_and_parse, bind.
  destruct (scroll_round st) as [[[]|e|] st1]; try reflexivity.
  destruct (get_links_from_dom st1) as [[results'|e|] st2]; try reflexivity.
  cbv zeta. now destruct (MAX_IDLE_SCROLLS <=? _)%nat.
Qed.

Lemma snapshot_succ k st :
  snapshot (S k) st =
  match snapshot k st with
  | Some (_, st') =>
      match scroll_and_parse st' with
      | (Ok results, st'') => Some (results, st'')
      | _ => None
      end
  | None => None
  end.
Proof. reflexivity. Qed.

Lemma snapshot_earlier n k st :
  snapshot n st <> None -> k <= n -> snapshot k st <> None.
Proof.
  intros Hn Hk. induction Hk as [|n Hk IH]; [exact Hn|].
  apply IH. rewrite snapshot_succ in Hn.
  destruct (snapshot n st); [discriminate | congruence].
Qed.

Lemma idle_rounds_succ k st res_k st_k res' st' :
  snapshot k st = Some (res_k, st_k) ->
  snapshot (S k) st = Some (res', st') ->
  idle_rounds (S k) st =
  if (List.length res' <=? List.length res_k)%nat then idle_rounds k st + 1 else 0.
Proof.
  intros Hk HSk. cbn [idle_rounds]. unfold no_growth, snapshot_size.
  replace (S k - 1) with k by lia. rewrite Hk, HSk.
  destruct (List.length res' <=? List.length res_k)%nat; [lia | reflexivity].
Qed.

Lemma idle_rounds_step k st : idle_rounds (S k) st <= S (idle_rounds k st).
Proof. cbn [idle_rounds]. destruct (no_growth (S k) st); lia. Qed.

Lemma idle_rounds_stall N m st :
  (forall k, N < k <= N + m -> no_growth k st = true) ->
  m <= idle_rounds (N + m) st.
Proof.
  induction m as [|m IH]; intros H; [lia|].
  replace (N + S m) with (S (N + m)) by lia. cbn [idle_rounds].
  rewrite (H (S (N + m))) by lia.
  assert (m <= idle_rounds (N + m) st) by (apply IH; intros k Hk; apply H; lia).
  lia.
Qed.

Lemma first_full_streak n st :
  (forall k, k <= n -> idle_rounds k st < MAX_IDLE_SCROLLS) \/
  (exists r, r <= n /\ idle_rounds r st = MAX_IDLE_SCROLLS /\
             forall k, k < r -> idle_rounds k st < MAX_IDLE_SCROLLS).
Proof.
  unfold MAX_IDLE_SCROLLS. induction n as [|n [IH|(r & Hr & H6 & Hmin)]].
  - left. intros k Hk. replace k with 0 by lia. simpl. lia.
  - pose proof (idle_rounds_step n st) as Hstep.
    pose proof (IH n (le_n n)) as Hn.
    destruct (Nat.eq_dec (idle_rounds (S n) st) 6) as [E|E].
    + right. exists (S n). repeat split; [lia | exact E|].
      intros k Hk. apply IH. lia.
    + left. intros k Hk. destruct (Nat.eq_dec k (S n)) as [->|]; [lia|].
      apply IH. lia.
  - right. exists r. repeat split; [lia | exact H6 | exact Hmin].
Qed.

Lemma scroll_loop_runs r res st' st :
  snapshot r st = Some (res, st') ->
  idle_rounds r st = MAX_IDLE_SCROLLS ->
  (forall k, k < r -> idle_rounds k st < MAX_IDLE_SCROLLS) ->
  forall fuel k res_k st_k,
    k < r -> snapshot k st = Some (res_k, st_k) ->
    (r - k <= fuel ->
     scroll_loop fuel res_k (idle_rounds k st) st_k = (Ok res, st')) /\
    (fuel < r - k ->
     fst (scroll_loop fuel res_k (idle_rounds k st) st_k) = NoFuel).
Proof.
  intros Hr H6 Hmin. induction fuel as [|fuel IH]; intros k res_k st_k Hk Hsk.
  - split; [lia | reflexivity].
  - rewrite scroll_loop_step.
    assert (HS : snapshot (S k) st <> None).
    { apply (snapshot_earlier r); [congruence | lia]. }
    destruct (snapshot (S k) st) as [[res1 st1]|] eqn:HSk; [clear HS|congruence].
    pose proof HSk as Hstep. rewrite snapshot_succ, Hsk in Hstep.
    destruct (scroll_and_parse st_k) as [[res2|e|] st2]; try discriminate.
    injection Hstep as -> ->. cbv zeta.
    rewrite <- (idle_rounds_succ k st res_k st_k res1 st1 Hsk HSk).
    destruct (Nat.eq_dec (S k) r) as [E|E].
    + subst r. rewrite H6, Nat.leb_refl.
      rewrite HSk in Hr. injection Hr as -> ->.
      split; [reflexivity | lia].
    + assert (Hlt : S k < r) by lia.
      pose proof (Hmin (S k) Hlt) as Hidle.
      destruct (Nat.leb_spec MAX_IDLE_SCROLLS (idle_rounds (S k) st)); [lia|].
      destruct (IH (S k) res1 st1 Hlt HSk) as [IH1 IH2].
      split; intros Hf; [apply IH1 | apply IH2]; lia.
Qed.

Lemma collect_runs r res st' st :
  snapshot r st = Some (res, st') ->
  idle_rounds r st = MAX_IDLE_SCROLLS ->
  (forall k, k < r -> idle_rounds k st < MAX_IDLE_SCROLLS) ->
  forall fuel,
    (r <= fuel -> collect_all_course_cards fuel st = (Ok res, st')) /\
    (fuel < r -> fst (collect_all_course_cards fuel st) = NoFuel).
Proof.
  intros Hr H6 Hmin fuel.
  assert (H0 : 0 < r).
  { destruct r; [|lia]. simpl in H6. discriminate. }
  assert (HS : snapshot 0 st <> None).
  { apply (snapshot_earlier r); [congruence | lia]. }
  destruct (snapshot 0 st) as [[res0 st0]|] eqn:Hs0; [clear HS|congruence].
  pose proof Hs0 as Hg. cbn [snapshot] in Hg.
  unfold collect_all_course_cards, bind.
  destruct (get_links_from_dom st) as [[res0'|e|] st0']; try discriminate.
  injection Hg as -> ->.
  destruct (scroll_loop_runs r res st' st Hr H6 Hmin fuel 0 res0 st0 H0 Hs0)
    as [H1 H2].
  cbn [idle_rounds] in H1, H2. rewrite Nat.sub_0_r in H1, H2. now split.
Qed.

End Discovery.

(** C2. The discovery loop keeps an idle counter that goes up by one after
    a round whose deduplicated snapshot is not larger than the previous one
    and back to zero after a round whose snapshot is larger, and it stops as
    soon as the counter reaches 6.  For a feed that shows no growth in the
    six rounds after round [N] (so for every feed that stops producing new
    links after some round), discovery terminates: there is a first round
    [r <= N + 6] that completes six consecutive rounds without growth, every
    run allowed at least [r] rounds returns the snapshot of round [r], and
    no run has returned before round [r]. *)
Theorem collect_all_course_cards_idle_stall
        {World : Type} {D : Driver World} (st : @state World) (N : nat) :
  snapshot (N + 6) st <> None ->
  (forall k, N < k <= N + 6 -> no_growth k st = true) ->
  (forall fuel results idle st0,
      scroll_loop (S fuel) results idle st0 =
      match scroll_and_parse st0 with
      | (Ok results', st1) =>
          let idle' :=
            if (List.length results' <=? List.length results)%nat
            then idle + 1 else 0 in
          if (MAX_IDLE_SCROLLS <=? idle')%nat then (Ok results', st1)
          else scroll_loop fuel results' idle' st1
      | (Raised e, st1) => (Raised e, st1)
      | (NoFuel, st1) => (NoFuel, st1)
      end) /\
  exists r res st',
    r <= N + 6 /\
    snapshot r st = Some (res, st') /\
    idle_rounds r st = MAX_IDLE_SCROLLS /\
    (forall k, k < r -> idle_rounds k st < MAX_IDLE_SCROLLS) /\
    (forall fuel, r <= fuel ->
                  collect_all_course_cards fuel st = (Ok res, st')) /\
    (forall fuel, fuel < r ->
                  fst (collect_all_course_cards fuel st) = NoFuel).
Proof.
  intros Hsnap Hstall. split; [intros; apply scroll_loop_step|].
  pose proof (idle_rounds_stall N 6 st Hstall) as Hge.
  destruct (first_full_streak (N + 6) st) as [Hall|(r & Hr & H6 & Hmin)].
  { specialize (Hall (N + 6) (le_n _)). unfold MAX_IDLE_SCROLLS in Hall. lia. }
  assert (HS : snapshot r st <> None) by now apply (snapshot_earlier (N + 6)).
  destruct (snapshot r st) as [[res st']|] eqn:Hsr; [clear HS|congruence].
  exists r, res, st'. repeat split; auto;
    intros fuel Hf; now apply (collect_runs r res st' st Hsr H6 Hmin fuel).
Qed.

(** C2, witness: on the simulated feed, which adds cards in rounds 1 to 3
    and nothing afterwards, the hypotheses hold with [N = 3]. *)
Lemma collect_all_course_cards_idle_stall_witness :
  exists r res st',
    r <= 3 + 6 /\
    @snapshot nat feed_driver r (0, []) = Some (res, st') /\
    @idle_rounds nat feed_driver r (0, []) = MAX_IDLE_SCROLLS /\
    (forall k, k < r -> @idle_rounds nat feed_driver k (0, []) < MAX_IDLE_SCROLLS) /\
    (forall fuel, r <= fuel ->
                  @collect_all_course_cards nat feed_driver fuel (0, [])
                  = (Ok res, st')) /\
    (forall fuel, fuel < r ->
                  fst (@collect_all_course_cards nat feed_driver fuel (0, []))
                  = NoFuel).
Proof.
  refine (proj2 (@collect_all_course_cards_idle_stall nat feed_driver (0, []) 3 _ _)).
  - vm_compute. discriminate.
  - intros k Hk.
    assert (Hcases : k = 4 \/ k = 5 \/ k = 6 \/ k = 7 \/ k = 8 \/ k = 9) by lia.
    destruct Hcases as [->|[->|[->|[->|[->| ->]]]]]; vm_compute; reflexivity.
Defined.

(** ** The retry loop of the scrape driver *)

Lemma filter_bool_cons {A : Type} (f : A -> bool) (x : A) (l : list A) :
  filter (fun c => f c) (x :: l)
  = if f x then x :: filter (fun c => f c) l else filter (fun c => f c) l.
Proof.
  rewrite filter_cons. destruct (f x) eqn:E; destruct (decide _) as [H|H];
    try reflexivity; simpl in H; contradiction.
Qed.

Lemma navigations_to_app link (a b : list call) :
  navigations_to link (a ++ b) = navigations_to link a + navigations_to link b.
Proof. unfold navigations_to. now rewrite filter_app, length_app. Qed.

Lemma navigations_to_filter link (calls : list call) :
  navigations_to link (filter (fun c => is_navigation c) calls)
  = navigations_to link calls.
Proof.
  unfold navigations_to. induction calls as [|c calls IH]; [reflexivity|].
  rewrite (filter_bool_cons is_navigation), (filter_bool_cons (is_navigation_to link)).
  destruct c; simpl; try exact IH.
  rewrite (filter_bool_cons (is_navigation_to link)). simpl.
  destruct (String.eqb url link); simpl; now rewrite IH.
Qed.

Lemma navigations_to_repeat link url n :
  navigations_to link (repeat (CallGet url) n)
  = if String.eqb url link then n else 0.
Proof.
  unfold navigations_to. induction n as [|n IH]; simpl.
  - now destruct (String.eqb url link).
  - rewrite (filter_bool_cons (is_navigation_to link)). simpl.
    destruct (String.eqb url link) eqn:E; simpl; now rewrite IH.
Qed.

Section Retry.
Context {World : Type} {D : Driver World}.
Variable json_loads : string -> option pyval.
Variable py_str : pyval -> string.
Implicit Types (st : @state World).

Lemma attempt_calls link st :
  exists rest,
    snd (snd (attempt json_loads py_str link st)) = (snd st ++ CallGet link :: rest)%list /\
    filter (fun c => is_navigation c) rest = [] /\
    fst (attempt json_loads py_str link st) <> NoFuel.
Proof.
  unfold attempt, parse_course_detail, get_url, wait_body, lift_call, jitter,
    page_soup, ret, bind.
  destruct st as [w calls]. cbn [fst snd].
  destruct (driver_get link w) as [[e|] w1]; cbn [fst snd].
  { exists []. repeat split; auto; discriminate. }
  destruct (driver_wait_body w1) as [[e|] w2]; cbn [fst snd].
  { exists [CallWaitBody]. rewrite <- app_assoc. repeat split; auto; discriminate. }
  match goal with
  | |- context [driver_page_source ?x] =>
      destruct (driver_page_source x) as [[e|soup] w3]; cbn [fst snd]
  end.
  - exists [CallWaitBody; CallSleep (fst DETAIL_PAUSE) (snd DETAIL_PAUSE); CallPageSource].
    rewrite <- !app_assoc. repeat split; auto; discriminate.
  - exists [CallWaitBody; CallSleep (fst DETAIL_PAUSE) (snd DETAIL_PAUSE); CallPageSource].
    rewrite <- !app_assoc. repeat split; auto; discriminate.
Qed.

Lemma visit_detail_step fuel language title link data tries st :
  tries <= RETRY_DETAIL ->
  visit_detail json_loads py_str (S fuel) language title link data tries st =
  match attempt json_loads py_str link st with
  | (Ok detail, st') =>
      (Ok (data ++ [make_row data language title link detail])%list, st')
  | (Raised e, st') =>
      if is_webdriver_exception e
      then visit_detail json_loads py_str fuel language title link data (tries + 1)
                        (snd (jitter (20 # 10, 35 # 10)%Q st'))
      else (Ok data, st')
  | (NoFuel, st') => (NoFuel, st')
  end.
Proof.
  intros Ht. cbn [visit_detail].
  destruct (Nat.leb_spec tries RETRY_DETAIL); [|lia]. cbn [negb].
  destruct (attempt json_loads py_str link st) as [[detail|e|] st']; reflexivity.
Qed.

Lemma visit_detail_done fuel language title link data tries st :
  RETRY_DETAIL < tries ->
  visit_detail json_loads py_str fuel language title link data tries st = (Ok data, st).
Proof.
  intros Ht. destruct fuel; cbn [visit_detail];
    (destruct (Nat.leb_spec tries RETRY_DETAIL); [lia | reflexivity]).
Qed.

Lemma visit_detail_runs language title link data :
  forall fuel tries st,
    tries <= S RETRY_DETAIL -> S RETRY_DETAIL - tries <= fuel ->
    exists data' st' new n,
      visit_detail json_loads py_str fuel language title link data tries st
      = (Ok data', st') /\
      snd st' = (snd st ++ new)%list /\
      filter (fun c => is_navigation c) new = repeat (CallGet link) n /\
      n <= S RETRY_DETAIL - tries /\ (tries <= RETRY_DETAIL -> 1 <= n) /\
      (data' = data \/
       exists detail st_a st_b,
         attempt json_loads py_str link st_a = (Ok detail, st_b) /\ st' = st_b /\
         data' = (data ++ [make_row data language title link detail])%list).
Proof.
  induction fuel as [|fuel IH]; intros tries st Ht Hfuel.
  - assert (RETRY_DETAIL < tries) by lia.
    exists data, st, [], 0. rewrite visit_detail_done by assumption.
    rewrite app_nil_r. repeat split; auto; lia.
  - destruct (Nat.le_gt_cases tries RETRY_DETAIL) as [Hle|Hgt].
    2:{ exists data, st, [], 0. rewrite visit_detail_done by assumption.
        rewrite app_nil_r. repeat split; auto; lia. }
    rewrite visit_detail_step by assumption.
    destruct (attempt_calls link st) as (rest & Hcalls & Hrest & Hnf).
    destruct (attempt json_loads py_str link st) as [[detail|e|] st1] eqn:Ha;
      cbn [fst snd] in *; [| |congruence].
    + exists (data ++ [make_row data language title link detail])%list, st1,
        (CallGet link :: rest), 1.
      repeat split; auto; try lia.
      * rewrite (filter_bool_cons is_navigation). simpl. now rewrite Hrest.
      * right. now exists detail, st, st1.
    + destruct (is_webdriver_exception e).
      * destruct (IH (tries + 1) (snd (jitter (20 # 10, 35 # 10)%Q st1)))
          as (data' & st' & new & n & Hv & Hnew & Hnav & Hn & _ & Hdata); [lia | lia|].
        exists data', st', (CallGet link :: rest ++ CallSleep (20 # 10) (35 # 10) :: new)%list, (S n).
        repeat split; auto; try lia.
        -- rewrite Hnew. cbn [jitter snd fst]. rewrite Hcalls.
           rewrite <- !app_assoc. reflexivity.
        -- rewrite (filter_bool_cons is_navigation). simpl.
           rewrite filter_app, Hrest.
           rewrite (filter_bool_cons is_navigation). simpl. now rewrite Hnav.
      * exists data, st1, (CallGet link :: rest), 1.
        repeat split; auto; try lia.
        rewrite (filter_bool_cons is_navigation). simpl. now rewrite Hrest.
Qed.

Lemma visit_links_runs fuel language :
  RETRY_DETAIL < fuel ->
  forall links seen data st,
    exists data' st' new,
      visit_links json_loads py_str fuel language links seen data st = (Ok data', st') /\
      snd st' = (snd st ++ new)%list /\
      (forall l, navigations_to l new <= 1 + RETRY_DETAIL) /\
      (forall l, l ∈ seen -> navigations_to l new = 0) /\
      List.length data <= List.length data' <= List.length data + List.length links.
Proof.
  intros Hfuel. induction links as [|[title link] links IH]; intros seen data st.
  - exists data, st, []. rewrite app_nil_r.
    repeat split; auto; try (intros; unfold navigations_to; simpl; lia);
      cbn [List.length]; lia.
  - cbn [visit_links]. destruct (decide (link ∈ seen)) as [Hin|Hnot].
    + destruct (IH seen data st) as (data' & st' & new & Hv & Hnew & H3 & H0 & Hlen).
      exists data', st', new. repeat split; auto; cbn [List.length]; lia.
    + destruct (visit_detail_runs language title link data fuel 0 st)
        as (data1 & st1 & new1 & n & Hv1 & Hnew1 & Hnav1 & Hn & _ & Hdata1); [lia | lia|].
      unfold bind at 1. rewrite Hv1. unfold bind at 1. cbn [jitter].
      destruct (IH ({[ link ]} ∪ seen) data1
                   (driver_sleep (8 # 10) (16 # 10) (fst st1),
                    (snd st1 ++ [CallSleep (8 # 10) (16 # 10)])%list))
        as (data' & st' & new & Hv & Hnew & H3 & H0 & Hlen).
      cbn [fst snd] in *. rewrite Hv.
      exists data', st', (new1 ++ CallSleep (8 # 10) (16 # 10) :: new)%list.
      assert (Hcount : forall l,
                 navigations_to l (new1 ++ CallSleep (8 # 10) (16 # 10) :: new)
                 = (if String.eqb link l then n else 0) + navigations_to l new).
      { intros l. rewrite navigations_to_app.
        rewrite <- (navigations_to_filter l new1), Hnav1, navigations_to_repeat.
        reflexivity. }
      assert (Hlen1 : List.length data <= List.length data1 <= List.length data + 1).
      { destruct Hdata1 as [->|(detail & _ & _ & _ & _ & ->)]; [lia|].
        rewrite length_app. simpl. lia. }
      split; [reflexivity|]. split.
      { rewrite Hnew, Hnew1. now rewrite <- !app_assoc. }
      split; [|split].
      * intros l. rewrite Hcount. destruct (String.eqb_spec link l) as [->|Hne].
        -- rewrite (H0 l) by set_solver. lia.
        -- specialize (H3 l). lia.
      * intros l Hl. rewrite Hcount. destruct (String.eqb_spec link l) as [->|Hne].
        -- contradiction.
        -- rewrite (H0 l) by set_solver. lia.
      * simpl. lia.
Qed.

End Retry.

(** C6. For every discovered link the scrape driver navigates to the link
    at least once and at most [1 + RETRY_DETAIL = 3] times, and the loop for
    the link always ends normally, so the run goes on with the next link.
    One iteration makes one attempt (navigation, readiness wait, pause,
    extraction): success appends one record and ends the loop; a
    [TimeoutException] or other [WebDriverException] is followed by a
    backoff pause and the next iteration; any other exception ends the loop
    at once with the records unchanged.  A record is appended only when an
    attempt succeeded, so a link none of whose attempts succeeds contributes
    nothing.  Over a whole list of links no link is navigated to more than
    three times and at most one record per link is added. *)
Theorem visit_detail_bounded_retries
        {World : Type} {D : Driver World}
        (json_loads : string -> option pyval) (py_str : pyval -> string)
        (fuel : nat) (language title link : string) (data : list row)
        (st : @state World) :
  RETRY_DETAIL < fuel ->
  (exists data' st' new n,
      visit_detail json_loads py_str fuel language title link data 0 st
      = (Ok data', st') /\
      snd st' = (snd st ++ new)%list /\
      filter (fun c => is_navigation c) new = repeat (CallGet link) n /\
      1 <= n <= 1 + RETRY_DETAIL /\
      (data' = data \/
       exists detail st_a st_b,
         attempt json_loads py_str link st_a = (Ok detail, st_b) /\ st' = st_b /\
         data' = (data ++ [make_row data language title link detail])%list)) /\
  (forall f tries data0 st0,
      tries <= RETRY_DETAIL ->
      visit_detail json_loads py_str (S f) language title link data0 tries st0 =
      match attempt json_loads py_str link st0 with
      | (Ok detail, st1) =>
          (Ok (data0 ++ [make_row data0 language title link detail])%list, st1)
      | (Raised e, st1) =>
          if is_webdriver_exception e
          then visit_detail json_loads py_str f language title link data0 (tries + 1)
                            (snd (jitter (20 # 10, 35 # 10)%Q st1))
          else (Ok data0, st1)
      | (NoFuel, st1) => (NoFuel, st1)
      end) /\
  (forall f tries data0 st0,
      RETRY_DETAIL < tries ->
      visit_detail json_loads py_str f language title link data0 tries st0
      = (Ok data0, st0)) /\
  (forall links seen data0 st0,
      exists data' st' new,
        visit_links json_loads py_str fuel language links seen data0 st0
        = (Ok data', st') /\
        snd st' = (snd st0 ++ new)%list /\
        (forall l, navigations_to l new <= 1 + RETRY_DETAIL) /\
        (forall l, l ∈ seen -> navigations_to l new = 0) /\
        List.length data0 <= List.length data' <=
        List.length data0 + List.length links).
Proof.
  intros Hfuel. split; [|split; [|split]].
  - destruct (visit_detail_runs json_loads py_str language title link data fuel 0 st)
      as (data' & st' & new & n & Hv & Hnew & Hnav & Hn & H1 & Hdata); [lia | lia|].
    exists data', st', new, n. repeat split; auto; try apply H1; lia.
  - intros f tries data0 st0. apply visit_detail_step.
  - intros f tries data0 st0. apply visit_detail_done.
  - now apply visit_links_runs.
Qed.

(** C6, witness: with three iterations allowed, on the browser in which the
    broken course always times out. *)
Lemma visit_detail_bounded_retries_witness :
  exists data' st' new n,
    @visit_detail unit flaky_driver json_loads_sample py_str_sample 3
                  "Python" "Broken course" "https://www.coursera.org/learn/broken"
                  [] 0 (tt, [])
    = (Ok data', st') /\
    snd st' = (@nil call ++ new)%list /\
    filter (fun c => is_navigation c) new
    = repeat (CallGet "https://www.coursera.org/learn/broken") n /\
    1 <= n <= 1 + RETRY_DETAIL /\
    (data' = [] \/
     exists detail st_a st_b,
       @attempt unit flaky_driver json_loads_sample py_str_sample
                "https://www.coursera.org/learn/broken" st_a = (Ok detail, st_b) /\
       st' = st_b /\
       data' = ([] ++ [make_row [] "Python" "Broken course"
                                "https://www.coursera.org/learn/broken" detail])%list).
Proof.
  refine (proj1 (@visit_detail_bounded_retries unit flaky_driver json_loads_sample
                   py_str_sample 3 "Python" "Broken course"
                   "https://www.coursera.org/learn/broken" [] (tt, []) _)).
  unfold RETRY_DETAIL. lia.
Defined.

(** The end-to-end example of the specification: of two discovered links,
    one fails all three navigations and one succeeds; one record results. *)
Example visit_links_two_links :
  exists st',
    @visit_links unit flaky_driver json_loads_sample py_str_sample 3
                 "Python" two_links ∅ [] (tt, [])
    = (Ok [ {| course_id := "C0001";
               programming_language := "Python";
               course_name := "Python course";
               course_duration := PyStr "6 weeks";
               concepts := "Loops; Functions";
               course_level := "Beginner";
               course_link := "https://www.coursera.org/learn/python" |} ], st') /\
    navigations_to "https://www.coursera.org/learn/broken" (snd st') = 3 /\
    navigations_to "https://www.coursera.org/learn/python" (snd st') = 1.
Proof. eexists. repeat split; vm_compute; reflexivity. Qed.

(** ** Course ids *)

Lemma decimal_value_decimal (n : nat) : decimal_value (decimal n) = Some n.
Proof.
  unfold decimal_value, decimal. rewrite NilEmpty.usu. cbn [option_map].
  now rewrite Unsigned.of_to.
Qed.

Lemma decimal_value_zero_cons (s : string) :
  decimal_value (String "0" s) = decimal_value s.
Proof.
  unfold decimal_value. cbn [NilEmpty.uint_of_string].
  destruct (NilEmpty.uint_of_string s); reflexivity.
Qed.

Lemma decimal_value_zeros (k : nat) (s : string) :
  decimal_value (zeros k ++ s) = decimal_value s.
Proof.
  induction k as [|k IH]; simpl; [reflexivity|].
  now rewrite decimal_value_zero_cons.
Qed.

Lemma decimal_value_format (width n : nat) :
  decimal_value (format_d width n) = Some n.
Proof. unfold format_d. now rewrite decimal_value_zeros, decimal_value_decimal. Qed.

Lemma id_number_format (n : nat) : id_number ("C" ++ format_d 5 n) = Some n.
Proof. simpl. apply decimal_value_format. Qed.

Lemma resequence_ids (rows : list row) (i : nat) :
  map course_id (resequence i rows)
  = map (fun j => "C" ++ format_d 5 j) (seq i (List.length rows)).
Proof.
  revert i. induction rows as [|r rows IH]; intros i; simpl; [reflexivity|].
  now rewrite IH.
Qed.

Lemma resequence_nth (rows : list row) (i k : nat) :
  nth_error (resequence i rows) k
  = option_map (with_id ("C" ++ format_d 5 (i + k))) (nth_error rows k).
Proof.
  revert i k. induction rows as [|r rows IH]; intros i [|k]; simpl; try reflexivity.
  - now rewrite Nat.add_0_r.
  - rewrite IH. now replace (S i + k) with (i + S k) by lia.
Qed.

Lemma resequence_numbers (rows : list row) (i : nat) :
  map id_number (map course_id (resequence i rows))
  = map Some (seq i (List.length rows)).
Proof.
  rewrite resequence_ids, map_map.
  apply map_ext. intros j. apply id_number_format.
Qed.

Lemma resequence_NoDup (rows : list row) (i : nat) :
  NoDup (map course_id (resequence i rows)).
Proof.
  apply (NoDup_fmap_1 id_number).
  change (NoDup (map id_number (map course_id (resequence i rows)))).
  rewrite resequence_numbers.
  change (NoDup (Some <$> seq i (List.length rows))).
  apply NoDup_fmap_2; [intros a b [= ->]; reflexivity | apply NoDup_seq].
Qed.

Lemma resequence_ignores_ids (rows rows' : list row) (i : nat) :
  map (with_id "") rows = map (with_id "") rows' ->
  resequence i rows = resequence i rows'.
Proof.
  revert rows' i. induction rows as [|r rows IH]; intros [|r' rows'] i H;
    try discriminate; [reflexivity|].
  simpl in H. injection H as H1 H2 H3 H4 H5 H6 Hrest.
  simpl. rewrite H1, H2, H3, H4, H5, H6. f_equal. now apply IH.
Qed.

Section MainRun.
Context {World : Type} {D : Driver World}.
Variable json_loads : string -> option pyval.
Variable py_str : pyval -> string.

Lemma scrape_all_concat fuel languages :
  forall all_rows st rows st',
    scrape_all json_loads py_str fuel languages all_rows st = (Ok rows, st') ->
    exists per_language,
      rows = (all_rows ++ concat per_language)%list /\
      Forall2 (fun lang lang_rows =>
                 exists st1 st2,
                   scrape_language json_loads py_str fuel lang st1
                   = (Ok lang_rows, st2))
              languages per_language.
Proof.
  induction languages as [|lang languages IH]; intros all_rows st rows st' H.
  - injection H as <- <-. exists []. simpl. rewrite app_nil_r. split; constructor.
  - cbn [scrape_all] in H. unfold bind at 1 in H.
    destruct (scrape_language json_loads py_str fuel lang st)
      as [[lang_rows|e|] st1] eqn:Hl; try discriminate.
    destruct (IH _ _ _ _ H) as (per & -> & Hall).
    exists (lang_rows :: per). split.
    + simpl. now rewrite app_assoc.
    + constructor; [now exists st, st1 | exact Hall].
Qed.

Lemma main_resequences_after_all fuel st rows st' :
  main json_loads py_str fuel st = (Ok rows, st') ->
  exists per_language st_last,
    scrape_all json_loads py_str fuel LANGUAGES [] st
    = (Ok (concat per_language), st_last) /\
    quit st_last = (Ok tt, st') /\
    Forall2 (fun lang lang_rows =>
               exists st1 st2,
                 scrape_language json_loads py_str fuel lang st1
                 = (Ok lang_rows, st2))
            LANGUAGES per_language /\
    rows = resequence 1 (concat per_language).
Proof.
  unfold main, bind, try_finally, ret. intros H.
  destruct (scrape_all json_loads py_str fuel LANGUAGES [] st)
    as [outcome st_last] eqn:Hs.
  destruct (quit st_last) as [[[]|e|] st_q] eqn:Hq; try discriminate.
  destruct outcome as [all_rows|e|]; try discriminate.
  injection H as <- <-.
  destruct (scrape_all_concat _ _ _ _ _ _ Hs) as (per & -> & Hall).
  exists per, st_last. simpl. repeat split; auto.
Qed.

End MainRun.

(** C3. The course ids of the final output are assigned by one pass over
    all accumulated records, made after the loop over all keywords has
    finished: the record at the i-th place (counting from 1) receives "C"
    followed by [i] in decimal, padded with zeros to five digits (C00001,
    C00002, ...), every other field is kept, and the provisional ids play
    no part.  The ids are therefore pairwise distinct and their numbers are
    1, 2, ..., n without gaps.  Two records of keyword A followed by three
    of keyword B receive C00001 to C00005. *)
Theorem resequence_global_ids :
  (forall rows k,
      nth_error (resequence 1 rows) k
      = option_map (with_id ("C" ++ format_d 5 (1 + k))) (nth_error rows k)) /\
  (forall rows,
      map course_id (resequence 1 rows)
      = map (fun i => "C" ++ format_d 5 i) (seq 1 (List.length rows))) /\
  (forall rows,
      map id_number (map course_id (resequence 1 rows))
      = map Some (seq 1 (List.length rows))) /\
  (forall rows, NoDup (map course_id (resequence 1 rows))) /\
  (forall rows rows',
      map (with_id "") rows = map (with_id "") rows' ->
      resequence 1 rows = resequence 1 rows') /\
  (forall (World : Type) (D : Driver World) json_loads py_str fuel
          (st st' : @state World) rows,
      main json_loads py_str fuel st = (Ok rows, st') ->
      exists per_language st_last,
        scrape_all json_loads py_str fuel LANGUAGES [] st
        = (Ok (concat per_language), st_last) /\
        quit st_last = (Ok tt, st') /\
        Forall2 (fun lang lang_rows =>
                   exists st1 st2,
                     scrape_language json_loads py_str fuel lang st1
                     = (Ok lang_rows, st2))
                LANGUAGES per_language /\
        rows = resequence 1 (concat per_language)) /\
  (format_d 5 1 = "00001" /\ format_d 5 42 = "00042" /\ format_d 5 4096 = "04096") /\
  map course_id (resequence 1 (keyword_a_rows ++ keyword_b_rows))
  = [ "C00001"; "C00002"; "C00003"; "C00004"; "C00005" ].
Proof.
  split; [|split; [|split; [|split; [|split; [|split; [|split]]]]]].
  - intros rows k. apply resequence_nth.
  - intros rows. apply resequence_ids.
  - intros rows. apply resequence_numbers.
  - intros rows. apply resequence_NoDup.
  - intros rows rows'. apply resequence_ignores_ids.
  - intros World D json_loads py_str fuel st st' rows.
    apply main_resequences_after_all.
  - repeat split; vm_compute; reflexivity.
  - vm_compute. reflexivity.
Qed.

(** ** More about [clean_text] *)

Lemma single_spaced_word_app (w rest : string) :
  nows w -> single_spaced (w ++ rest) = single_spaced rest.
Proof.
  induction w as [|c w IH]; intros Hw; [reflexivity|].
  destruct Hw as [Hc Hw]. cbn [append single_spaced]. rewrite Hc. now apply IH.
Qed.

Lemma single_spaced_suffix (a b : string) :
  single_spaced (a ++ b) = true -> single_spaced b = true.
Proof.
  induction a as [|c a IH]; [auto|]. cbn [append single_spaced].
  intros H. apply andb_prop in H as [_ H]. now apply IH.
Qed.

Lemma tidy_join_words (l : list string) : Forall word l -> tidy (join " " l) = true.
Proof.
  assert (Hhead : forall w rest, word w ->
            match w ++ rest with String c _ => negb (isspace c) | "" => true end = true).
  { intros w rest [Hne Hw]. destruct w as [|c w]; [congruence|].
    destruct Hw as [Hc _]. simpl. now rewrite Hc. }
  induction l as [|w l IH]; intros Hl; [reflexivity|].
  inversion Hl as [|? ? Hw Hl']; subst. specialize (IH Hl').
  destruct l as [|w' l].
  - cbn [join]. unfold tidy. rewrite <- (str_app_nil_r w).
    rewrite single_spaced_word_app by apply Hw. now rewrite Hhead.
  - rewrite join_cons by discriminate. unfold tidy.
    rewrite single_spaced_word_app by apply Hw. rewrite Hhead by exact Hw.
    unfold tidy in IH. apply andb_prop in IH as [Hs Hh].
    cbn [append single_spaced]. change (isspace " ") with true.
    pose proof (join_words_nonempty (w' :: l) Hl' ltac:(discriminate)) as Hne.
    destruct (join " " (w' :: l)) as [|d t]; [congruence|].
    cbn [negb] in *. now rewrite Hh, Hs.
Qed.

Lemma collapse_single_spaced (s : string) :
  single_spaced s = true -> collapse false s = s.
Proof.
  induction s as [|c s IH]; [reflexivity|]. cbn [single_spaced collapse].
  intros H. apply andb_prop in H as [Hc Hs]. specialize (IH Hs).
  destruct (isspace c) eqn:Ec; [|now rewrite IH].
  apply andb_prop in Hc as [Heq Hnext]. apply Ascii.eqb_eq in Heq. subst c.
  destruct s as [|d s]; [discriminate|].
  cbn [collapse] in *. destruct (isspace d); [discriminate|]. now rewrite IH.
Qed.

Lemma rstrip_single_spaced (s : string) :
  single_spaced s = true -> rstrip s = s.
Proof.
  induction s as [|c s IH]; [reflexivity|]. cbn [single_spaced rstrip].
  intros H. apply andb_prop in H as [Hc Hs]. rewrite (IH Hs).
  destruct s as [|d s]; [|reflexivity].
  destruct (isspace c); [|reflexivity].
  apply andb_prop in Hc as [_ Hc]. discriminate.
Qed.

Lemma tidy_fixed (t : string) : tidy t = true -> clean_text (Some t) = t.
Proof.
  unfold tidy. intros H. apply andb_prop in H as [Hs Hh].
  rewrite clean_text_collapse, (collapse_single_spaced _ Hs). unfold strip.
  assert (Hl : lstrip t = t).
  { destruct t as [|c t]; [reflexivity|]. simpl.
    now destruct (isspace c). }
  rewrite Hl. now apply rstrip_single_spaced.
Qed.

Lemma lstrip_length (s : string) : String.length (lstrip s) <= String.length s.
Proof.
  induction s as [|c s IH]; simpl; [lia|]. destruct (isspace c); simpl; lia.
Qed.

Lemma rstrip_length (s : string) : String.length (rstrip s) <= String.length s.
Proof.
  induction s as [|c s IH]; simpl; [lia|].
  destruct (rstrip s); [destruct (isspace c)|]; simpl in *; lia.
Qed.

Lemma collapse_length (b : bool) (s : string) :
  String.length (collapse b s) <= String.length s.
Proof.
  revert b. induction s as [|c s IH]; intros b; simpl; [lia|].
  destruct (isspace c); [destruct b|]; simpl;
    [specialize (IH true) | specialize (IH true) | specialize (IH false)]; lia.
Qed.

Lemma split_ws_nonempty_cur (s cur : string) : cur <> "" -> split_ws cur s <> [].
Proof.
  revert cur. induction s as [|c s IH]; intros cur Hne; simpl.
  - now destruct cur.
  - destruct (isspace c).
    + now destruct cur.
    + apply IH. now destruct cur.
Qed.

Lemma split_nil_blank (s : string) : split s = [] <-> blank s = true.
Proof.
  unfold split. induction s as [|c s IH]; simpl; [tauto|].
  destruct (isspace c); simpl; [exact IH|].
  split; [|discriminate]. intros H. exfalso.
  now apply (split_ws_nonempty_cur s (String c "")).
Qed.

Lemma split_ws_app_space (a b cur : string) (c : ascii) :
  isspace c = true ->
  split_ws cur (a ++ String c b) = (split_ws cur a ++ split b)%list.
Proof.
  intros Hc. revert cur. induction a as [|x a IH]; intros cur.
  - cbn [append split_ws]. rewrite Hc. now destruct cur.
  - cbn [append split_ws]. destruct (isspace x); [destruct cur|]; now rewrite IH.
Qed.

Lemma join_split_app (l1 l2 : list string) :
  Forall word l1 -> Forall word l2 ->
  split (join " " (l1 ++ l2)) = (l1 ++ l2)%list.
Proof.
  intros H1 H2. apply split_join_words. now apply Forall_app.
Qed.

Lemma clean_text_tidy (s : option string) : tidy (clean_text s) = true.
Proof.
  destruct s as [s|]; [|reflexivity].
  rewrite clean_text_join_split. apply tidy_join_words.
  apply split_ws_words. exact I.
Qed.

(** X1. [clean_text] keeps the words of its input and nothing else: the
    result has the same whitespace-separated words as the input, it has no
    leading or trailing whitespace and only single spaces between words,
    the strings it leaves unchanged are exactly the strings of that form, it
    is never longer than the input, and it is empty exactly when the input
    is empty or all whitespace. *)
Theorem clean_text_keeps_words :
  (forall s, split (clean_text (Some s)) = split s) /\
  (forall s, tidy (clean_text s) = true) /\
  (forall t, clean_text (Some t) = t <-> tidy t = true) /\
  (forall s, String.length (clean_text (Some s)) <= String.length s) /\
  (forall s, clean_text (Some s) = "" <-> blank s = true).
Proof.
  split; [|split; [|split; [|split]]].
  - intros s. rewrite clean_text_join_split. apply split_join_words.
    apply split_ws_words. exact I.
  - exact clean_text_tidy.
  - intros t. split; [intros <-; apply clean_text_tidy | apply tidy_fixed].
  - intros s. rewrite clean_text_collapse. unfold strip.
    pose proof (rstrip_length (lstrip (collapse false s))).
    pose proof (lstrip_length (collapse false s)).
    pose proof (collapse_length false s). lia.
  - intros s. rewrite <- split_nil_blank, clean_text_join_split. split.
    + intros H. destruct (split s) as [|w l] eqn:E; [reflexivity|]. exfalso.
      apply (join_words_nonempty (w :: l)); [|discriminate | exact H].
      rewrite <- E. apply split_ws_words. exact I.
    + now intros ->.
Qed.

(** X2. Cleaning a text made of two parts separated by a whitespace
    character gives the words of the first part followed by the words of the
    second, joined by single spaces; so cleaning the parts first and joining
    them with a space changes nothing. *)
Theorem clean_text_concat :
  (forall a b c,
      isspace c = true ->
      clean_text (Some (a ++ String c b)) = join " " (split a ++ split b)) /\
  (forall a b,
      clean_text (Some (clean_text (Some a) ++ " " ++ clean_text (Some b)))
      = clean_text (Some (a ++ " " ++ b))).
Proof.
  assert (H : forall a b c, isspace c = true ->
                clean_text (Some (a ++ String c b)) = join " " (split a ++ split b)).
  { intros a b c Hc. rewrite clean_text_join_split. unfold split at 1.
    now rewrite (split_ws_app_space a b "" c Hc). }
  split; [exact H|].
  intros a b. change (" " ++ clean_text (Some b)) with (String " " (clean_text (Some b))).
  change (" " ++ b) with (String " " b).
  rewrite !H by reflexivity.
  rewrite !clean_text_join_split.
  rewrite !split_join_words by (apply split_ws_words; exact I). reflexivity.
Qed.

(** ** Substitution of a pattern anchored at the start *)

Lemma drop_str_app (a b : string) : drop_str (String.length a) (a ++ b) = b.
Proof. induction a as [|c a IH]; [now destruct b | exact IH]. Qed.

Lemma drop_str_suffix (n : nat) (s : string) : exists a, s = a ++ drop_str n s.
Proof.
  revert s. induction n as [|n IH]; intros s; [now exists ""|].
  destruct s as [|c s]; [now exists ""|].
  destruct (IH s) as [a Ha]. exists (String c a). simpl. now rewrite <- Ha.
Qed.

Lemma sub_from_bol_skip (r : re) (repl : string) (s : string) :
  forall c k, sub_from (Cat Bol r) repl (Some c) k s = drop_str k s.
Proof.
  induction s as [|x s IH]; intros c k; [now destruct k|].
  destruct k as [|k]; cbn [sub_from drop_str].
  - change (match_here (Cat Bol r) (Some c) (String x s)) with (@None nat).
    rewrite IH. reflexivity.
  - apply IH.
Qed.

Lemma sub_bol (r : re) (repl : string) (c : ascii) (s : string) :
  sub (Cat Bol r) repl (String c s) =
  match match_here (Cat Bol r) None (String c s) with
  | Some (S n) => repl ++ drop_str (S n) (String c s)
  | _ => String c s
  end.
Proof.
  unfold sub. cbn [sub_from].
  destruct (match_here (Cat Bol r) None (String c s)) as [[|n]|];
    rewrite sub_from_bol_skip; reflexivity.
Qed.

Lemma ws_prefix_split (s : string) :
  exists sp rest,
    s = sp ++ rest /\ blank sp = true /\ String.length sp = ws_len s /\
    match rest with String d _ => negb (isspace d) | "" => true end = true.
Proof.
  induction s as [|c s (sp & rest & Hs & Hb & Hl & Hr)].
  - now exists "", "".
  - cbn [ws_len]. destruct (isspace c) eqn:Hc.
    + exists (String c sp), rest. simpl. rewrite Hc, Hb, Hl, <- Hs. auto.
    + exists "", (String c s). simpl. rewrite Hc. auto.
Qed.

Lemma matches_alt_inv r1 r2 prev w rest :
  matches (Alt r1 r2) prev w rest -> matches r1 prev w rest \/ matches r2 prev w rest.
Proof. inversion 1; subst; auto. Qed.

Lemma matches_lit_i (s : string) : forall prev w rest,
  matches (lit_i s) prev w rest -> lower w = lower s.
Proof.
  induction s as [|c s IH]; intros prev w rest H.
  - inversion H; reflexivity.
  - assert (Hc : forall p w0 r0, matches (Chr (is_char_i c)) p w0 r0 ->
                   lower w0 = String (lower_char c) "").
    { intros p w0 r0 H0. inversion H0; subst. unfold is_char_i in *.
      simpl. f_equal. now apply Ascii.eqb_eq. }
    destruct s as [|d s].
    + exact (Hc _ _ _ H).
    + change (lit_i (String c (String d s)))
        with (Cat (Chr (is_char_i c)) (lit_i (String d s))) in H.
      apply matches_cat_inv in H as (w1 & w2 & -> & H1 & H2).
      rewrite lower_app, (Hc _ _ _ H1), (IH _ _ _ H2). reflexivity.
Qed.

Lemma label_match (s : string) (n : nat) :
  match_here duration_label_re None s = Some n ->
  exists label rest name sp,
    s = label ++ rest /\ String.length label = n /\
    In name duration_labels /\ lower label = name ++ ":" ++ sp /\
    blank sp = true /\
    match rest with String d _ => negb (isspace d) | "" => true end = true.
Proof.
  unfold match_here, duration_label_re. cbn [cats run]. intros H.
  apply run_sound in H as (w1 & rest1 & -> & Hm1 & H).
  destruct rest1 as [|c rest2]; [discriminate|].
  destruct (is_char_i ":" c) eqn:Hcol; [|discriminate].
  rewrite star_isspace_len in H. injection H as <-.
  set (w2 := String c "").
  destruct (ws_prefix_split rest2) as (sp & rest & -> & Hb & Hl & Hr).
  assert (Hname : exists name, In name duration_labels /\ lower w1 = name).
  { cbn [alts] in Hm1. unfold duration_labels.
    apply matches_alt_inv in Hm1 as [H|Hm1];
      [exists "duration"; split; [simpl; tauto | exact (matches_lit_i _ _ _ _ H)]|].
    apply matches_alt_inv in Hm1 as [H|Hm1];
      [exists "time"; split; [simpl; tauto | exact (matches_lit_i _ _ _ _ H)]|].
    apply matches_alt_inv in Hm1 as [H|Hm1];
      [exists "estimated"; split; [simpl; tauto | exact (matches_lit_i _ _ _ _ H)]|].
    apply matches_alt_inv in Hm1 as [H|H];
      [exists "approximately" | exists "approx"];
      (split; [simpl; tauto | exact (matches_lit_i _ _ _ _ H)]). }
  destruct Hname as (name & Hin & Hw1).
  assert (Hcolon : lower w2 = ":").
  { unfold w2, is_char_i in *. simpl. f_equal. now apply Ascii.eqb_eq. }
  assert (Hsp : lower sp = sp).
  { clear -Hb. induction sp as [|c sp IH]; [reflexivity|]. simpl in *.
    apply andb_prop in Hb as [Hc Hb]. rewrite (IH Hb). f_equal.
    revert Hc. unfold isspace, lower_char, between, code.
    destruct c as [[] [] [] [] [] [] [] []]; vm_compute; congruence. }
  exists (w1 ++ w2 ++ sp), rest, name, sp. repeat split; auto.
  - now rewrite !str_app_assoc.
  - rewrite !str_app_length, Hl. unfold w2. cbn [String.length]. lia.
  - now rewrite !lower_app, Hw1, Hcolon, Hsp.
Qed.

Lemma extract_duration_like_result :
  forall text,
    (extract_duration_like text = None <->
     (forall k, In k time_keywords -> ~ occurs_ci k text)) /\
    (forall d,
        extract_duration_like text = Some d ->
        tidy d = true /\ clean_text (Some d) = d /\
        exists label,
          clean_text (Some text) = label ++ d /\
          (label = "" \/
           exists name sp,
             In name duration_labels /\ lower label = name ++ ":" ++ sp /\
             blank sp = true)).
Proof.
  intros text. unfold extract_duration_like.
  destruct (existsb (fun k => contains k (lower text)) time_keywords) eqn:Hk.
  - split.
    + split; [discriminate|]. intros H. exfalso.
      apply existsb_exists in Hk as (k & Hin & Hc).
      apply contains_lower_spec in Hc. now apply (H k).
    + intros d [= <-].
      pose proof (clean_text_tidy (Some text)) as Htidy.
      set (cleaned := clean_text (Some text)) in *.
      assert (Hres : exists label,
                 cleaned = label ++ sub duration_label_re "" cleaned /\
                 (label = "" \/
                  (exists name sp,
                      In name duration_labels /\ lower label = name ++ ":" ++ sp /\
                      blank sp = true) /\
                  match sub duration_label_re "" cleaned with
                  | String d _ => negb (isspace d) | "" => true end = true)).
      { destruct cleaned as [|c s] eqn:Ec; [exists ""; auto|].
        change duration_label_re with (Cat Bol (cats [
          alts [ lit_i "duration"; lit_i "time"; lit_i "estimated";
                 lit_i "approximately"; lit_i "approx" ];
          Chr (is_char_i ":"); Star isspace ])).
        rewrite sub_bol.
        change (Cat Bol (cats [
          alts [ lit_i "duration"; lit_i "time"; lit_i "estimated";
                 lit_i "approximately"; lit_i "approx" ];
          Chr (is_char_i ":"); Star isspace ])) with duration_label_re.
        destruct (match_here duration_label_re None (String c s)) as [[|n]|] eqn:Hm;
          [exists ""; auto| |exists ""; auto].
        destruct (label_match _ _ Hm) as (label & rest & name & sp & Hs & Hl & Hin & Hlow & Hb & Hr).
        rewrite Hs, <- Hl, drop_str_app. exists label. split; [reflexivity|].
        right. split; [now exists name, sp | exact Hr]. }
      destruct Hres as (label & Hc & Hlabel).
      assert (Ht : tidy (sub duration_label_re "" cleaned) = true).
      { destruct Hlabel as [->|[_ Hhead]].
        - simpl in Hc. now rewrite <- Hc.
        - unfold tidy in *. apply andb_prop in Htidy as [Hs _].
          rewrite Hc in Hs. apply single_spaced_suffix in Hs.
          now rewrite Hs, Hhead. }
      split; [exact Ht|]. split; [now apply tidy_fixed|].
      exists label. split; [exact Hc|]. destruct Hlabel as [->|[H _]]; auto.
  - split; [|discriminate]. split; [intros _|reflexivity].
    intros k Hin Hocc. apply contains_lower_spec in Hocc.
    assert (existsb (fun k => contains k (lower text)) time_keywords = true)
      by (apply existsb_exists; now exists k).
    congruence.
Qed.

(** X3. [extract_duration_like] returns [None] exactly when none of its 25
    time keywords occurs in the text (letter case ignored).  Otherwise it
    returns the cleaned text with at most one leading label removed: the
    result is what follows a prefix of the cleaned text that is either empty
    or one of "duration", "time", "estimated", "approximately", "approx" (in
    any letter case) with its colon and the whitespace after it; the result
    has no leading or trailing whitespace and single spaces only, so
    cleaning it again changes nothing. *)
Theorem extract_duration_like_spec :
  forall text,
    (extract_duration_like text = None <->
     (forall k, In k time_keywords -> ~ occurs_ci k text)) /\
    (forall d,
        extract_duration_like text = Some d ->
        tidy d = true /\ clean_text (Some d) = d /\
        exists label,
          clean_text (Some text) = label ++ d /\
          (label = "" \/
           exists name sp,
             In name duration_labels /\ lower label = name ++ ":" ++ sp /\
             blank sp = true)).
Proof.
  intros text. split.
  - apply extract_duration_like_result.
  - intros d H. now apply extract_duration_like_result.
Qed.

(** ** What [parse_duration_from_text] can return *)

Lemma rstrip_prefix (s : string) : exists t, s = rstrip s ++ t.
Proof.
  induction s as [|c s [t Ht]]; [now exists ""|]. cbn [rstrip].
  destruct (rstrip s) as [|d r] eqn:E.
  - destruct (isspace c); [now exists (String c s)|].
    exists s. reflexivity.
  - exists t. simpl in *. now rewrite <- Ht.
Qed.

Lemma rstrip_head (c : ascii) (s : string) :
  isspace c = false -> exists r, rstrip (String c s) = String c r.
Proof.
  intros Hc. cbn [rstrip]. destruct (rstrip s) as [|d r].
  - rewrite Hc. now exists "".
  - now exists (String d r).
Qed.

Lemma rstrip_idem (s : string) : rstrip (rstrip s) = rstrip s.
Proof.
  induction s as [|c s IH]; [reflexivity|]. cbn [rstrip].
  destruct (rstrip s) as [|d r] eqn:E.
  - destruct (isspace c) eqn:Hc; [reflexivity|]. simpl. now rewrite Hc.
  - change (rstrip (String c (String d r)))
      with (match rstrip (String d r) with
            | "" => if isspace c then "" else String c ""
            | r0 => String c r0
            end).
    now rewrite IH.
Qed.

Lemma isdigit_not_space (c : ascii) : isdigit c = true -> isspace c = false.
Proof.
  destruct c as [[] [] [] [] [] [] [] []]; vm_compute; congruence.
Qed.

Lemma lower_length (s : string) : String.length (lower s) = String.length s.
Proof. induction s as [|c s IH]; simpl; congruence. Qed.

Lemma occurs_length (a s : string) : occurs a s -> String.length a <= String.length s.
Proof. intros (p & q & ->). rewrite !str_app_length. lia. Qed.

Lemma matches_number_head prev w rest :
  matches number_re prev w rest ->
  exists c w', w = String c w' /\ isdigit c = true.
Proof.
  unfold number_re, Plus. intros H.
  apply matches_cat_inv in H as (w1 & w2 & -> & H & _).
  apply matches_cat_inv in H as (w3 & w4 & -> & H & _).
  inversion H; subst. now exists c, (w4 ++ w2).
Qed.

Lemma numeric_pattern_head p prev w rest :
  In p numeric_patterns -> matches p prev w rest ->
  exists c w', w = String c w' /\ isdigit c = true.
Proof.
  intros Hp H.
  assert (Hcat : exists r2, p = Cat number_re r2).
  { unfold numeric_patterns in Hp. simpl in Hp.
    destruct Hp as [<-|[<-|[<-|[<-|[<-|[]]]]]]; eexists; reflexivity. }
  destruct Hcat as [r2 ->].
  apply matches_cat_inv in H as (w1 & w2 & -> & H & _).
  destruct (matches_number_head _ _ _ H) as (c & w' & -> & Hc).
  now exists c, (w' ++ w2).
Qed.

Lemma parse_duration_numeric text :
  parse_duration_from_text text = first_match numeric_patterns (lower text).
Proof.
  unfold parse_duration_from_text. destruct text as [|c s]; [reflexivity|].
  cbn [nonempty].
  change duration_patterns
    with (numeric_patterns ++ [pat_approximately; pat_about; pat_range])%list.
  apply first_match_shadowed; simpl; tauto.
Qed.

Lemma parse_duration_result :
  (forall text,
      parse_duration_from_text text = first_match numeric_patterns (lower text)) /\
  (forall text r,
      parse_duration_from_text text = Some r ->
      (exists c r', r = String c r' /\ isdigit c = true) /\
      occurs r (lower text) /\
      strip r = r /\
      String.length r <= String.length text).
Proof.
  split; [exact parse_duration_numeric|].
  intros text r H. rewrite parse_duration_numeric in H.
  destruct (first_match_some _ _ _ H) as (ps1 & p & ps2 & g & Hps & _ & Hg & ->).
  unfold search_group0 in Hg.
  destruct (search p (lower text)) as [[i n]|] eqn:Hs; [|discriminate].
  injection Hg as <-.
  destruct (search_leftmost _ _ _ _ Hs) as (pre & w & rest & Ht & _ & _ & Hm & -> & _).
  assert (Hp : In p numeric_patterns).
  { rewrite Hps. apply in_or_app. right. now left. }
  destruct (numeric_pattern_head _ _ _ _ Hp Hm) as (c & w' & -> & Hc).
  pose proof (isdigit_not_space c Hc) as Hns.
  assert (Hstrip : strip (String c w') = rstrip (String c w')).
  { unfold strip. cbn [lstrip]. now rewrite Hns. }
  destruct (rstrip_head c w' Hns) as [r' Hr']. rewrite Hstrip, Hr'.
  assert (Hocc : occurs (String c r') (lower text)).
  { destruct (rstrip_prefix (String c w')) as [t Hpre]. rewrite Hr' in Hpre.
    rewrite Ht, Hpre. exists pre, (t ++ rest). now rewrite !str_app_assoc. }
  split; [now exists c, r'|]. split; [exact Hocc|]. split.
  - unfold strip. cbn [lstrip]. rewrite Hns, <- Hr'. apply rstrip_idem.
  - rewrite <- (lower_length text). now apply occurs_length.
Qed.

(** X4. What [parse_duration_from_text] returns always begins with a digit,
    is a piece of the lower-cased input (hence never longer than the input)
    and has no whitespace at either end.  The result is decided by the five
    number-and-unit patterns alone: the "approximately", "about" and range
    patterns that follow them in the list never contribute. *)
Theorem parse_duration_from_text_shape :
  (forall text,
      parse_duration_from_text text = first_match numeric_patterns (lower text)) /\
  (forall text r,
      parse_duration_from_text text = Some r ->
      (exists c r', r = String c r' /\ isdigit c = true) /\
      occurs r (lower text) /\
      strip r = r /\
      String.length r <= String.length text).
Proof.
  split.
  - intros text. apply parse_duration_numeric.
  - intros text r H. now apply parse_duration_result.
Qed.

(** ** The links of a result page *)

Lemma select_spec (sel : selector) (soup a : node) :
  In a (select sel soup) <->
  In a (descendants soup) /\ is_elem a = true /\ sel_matches sel a = true.
Proof.
  unfold select. rewrite <- !list_elem_of_In, list_elem_of_filter.
  rewrite Is_true_true, andb_true_iff. tauto.
Qed.

Lemma anchor_link_spec (a : node) (t u : string) :
  anchor_link a = Some (t, u) ->
  exists href, get "href" a = Some href /\ href <> "" /\
               u = "https://www.coursera.org" ++ href /\ tidy t = true.
Proof.
  unfold anchor_link. destruct (get "href" a) as [href|]; [|discriminate].
  destruct (nonempty href) eqn:Hh; [|discriminate]. cbn [andb].
  match goal with
  | |- (if nonempty ?title then _ else _) = _ -> _ =>
      destruct (nonempty title); [|discriminate]
  end.
  intros [= <- <-]. exists href. repeat split.
  - now destruct href.
  - apply clean_text_tidy.
Qed.

Lemma links_of_soup_In (soup : node) (t u : string) :
  In (t, u) (links_of_soup soup) ->
  exists a, In a (select (SelTagAttrPrefix "a" "href" "/learn/") soup) /\
            anchor_link a = Some (t, u).
Proof.
  unfold links_of_soup. rewrite dedup_links_firsts. cbn [app]. intros H.
  apply firsts_fresh in H as [_ H].
  apply list_elem_of_In, list_elem_of_omap in H as (a & Ha & Hl).
  exists a. split; [now apply list_elem_of_In | exact Hl].
Qed.

(** X5. Every link [get_links_from_dom] returns is an absolute url under
    [https://www.coursera.org/learn/], taken from the [href] of an [a]
    element of the page, and its title has no leading or trailing
    whitespace and single spaces only; a page without such anchors yields
    the empty list. *)
Theorem links_of_soup_entries :
  (forall soup t u,
      In (t, u) (links_of_soup soup) ->
      (exists path, u = "https://www.coursera.org/learn/" ++ path) /\
      tidy t = true /\
      exists a href,
        In a (descendants soup) /\ name_of a = "a" /\
        get "href" a = Some href /\ u = "https://www.coursera.org" ++ href) /\
  (forall soup,
      select (SelTagAttrPrefix "a" "href" "/learn/") soup = [] ->
      links_of_soup soup = []).
Proof.
  split.
  - intros soup t u H.
    destruct (links_of_soup_In _ _ _ H) as (a & Ha & Hl).
    apply select_spec in Ha as (Hd & He & Hm).
    destruct (anchor_link_spec _ _ _ Hl) as (href & Hg & Hne & -> & Ht).
    cbn [sel_matches] in Hm. rewrite Hg in Hm.
    apply andb_prop in Hm as [Hm Hp]. apply andb_prop in Hm as [_ Hn].
    apply String.eqb_eq in Hn. apply prefix_spec in Hp as [path ->].
    split; [exists path; reflexivity|]. split; [exact Ht|].
    exists a, ("/learn/" ++ path). auto.
  - intros soup H. unfold links_of_soup. now rewrite H.
Qed.

(** ** More about the discovery loop *)

Section DiscoveryMore.
Context {World : Type} {D : Driver World}.
Implicit Types (st : @state World) (results : list (string * string)).

Lemma idle_rounds_le k st : idle_rounds k st <= k.
Proof.
  induction k as [|k IH]; [simpl; lia|].
  pose proof (idle_rounds_step k st). lia.
Qed.

Lemma scroll_loop_returns st :
  forall fuel k res_k st_k res st',
    snapshot k st = Some (res_k, st_k) ->
    (forall j, j <= k -> idle_rounds j st < MAX_IDLE_SCROLLS) ->
    scroll_loop fuel res_k (idle_rounds k st) st_k = (Ok res, st') ->
    exists r,
      k < r <= k + fuel /\ snapshot r st = Some (res, st') /\
      idle_rounds r st = MAX_IDLE_SCROLLS /\
      (forall j, j < r -> idle_rounds j st < MAX_IDLE_SCROLLS).
Proof.
  induction fuel as [|fuel IH]; intros k res_k st_k res st' Hk Hidle H.
  - discriminate.
  - rewrite scroll_loop_step in H.
    destruct (scroll_and_parse st_k) as [[res1|e|] st1] eqn:Hround; try discriminate.
    assert (HSk : snapshot (S k) st = Some (res1, st1)).
    { rewrite snapshot_succ, Hk, Hround. reflexivity. }
    cbv zeta in H.
    rewrite <- (idle_rounds_succ k st res_k st_k res1 st1 Hk HSk) in H.
    destruct (Nat.leb_spec MAX_IDLE_SCROLLS (idle_rounds (S k) st)) as [Hge|Hlt].
    + injection H as <- <-. exists (S k).
      pose proof (idle_rounds_step k st). pose proof (Hidle k (le_n k)).
      repeat split; auto; try lia.
      intros j Hj. apply Hidle. lia.
    + destruct (IH (S k) res1 st1 res st' HSk) as (r & Hr & Hs & H6 & Hmin); auto.
      * intros j Hj. destruct (Nat.eq_dec j (S k)) as [->|]; [exact Hlt|].
        apply Hidle. lia.
      * exists r. repeat split; auto; lia.
Qed.

Lemma collect_returns fuel st res st' :
  collect_all_course_cards fuel st = (Ok res, st') ->
  exists r,
    MAX_IDLE_SCROLLS <= r <= fuel /\ snapshot r st = Some (res, st') /\
    idle_rounds r st = MAX_IDLE_SCROLLS /\
    (forall j, j < r -> idle_rounds j st < MAX_IDLE_SCROLLS).
Proof.
  unfold collect_all_course_cards, bind. intros H.
  destruct (get_links_from_dom st) as [[res0|e|] st0] eqn:Hg; try discriminate.
  assert (H0 : snapshot 0 st = Some (res0, st0)) by (cbn [snapshot]; now rewrite Hg).
  destruct (scroll_loop_returns st fuel 0 res0 st0 res st' H0) as (r & Hr & Hs & H6 & Hmin).
  - intros j Hj. replace j with 0 by lia. unfold MAX_IDLE_SCROLLS. simpl. lia.
  - exact H.
  - exists r. pose proof (idle_rounds_le r st). repeat split; auto; lia.
Qed.

Lemma get_links_from_dom_result st res st' :
  get_links_from_dom st = (Ok res, st') -> exists soup, res = links_of_soup soup.
Proof.
  unfold get_links_from_dom, bind, page_soup, ret.
  destruct (driver_page_source (fst st)) as [[e|soup] w]; [discriminate|].
  intros [= <- <-]. now exists soup.
Qed.

Lemma snapshot_result k st res st' :
  snapshot k st = Some (res, st') -> exists soup, res = links_of_soup soup.
Proof.
  destruct k as [|k]; cbn [snapshot].
  - destruct (get_links_from_dom st) as [[r|e|] s] eqn:Hg; try discriminate.
    intros [= <- <-]. now apply (get_links_from_dom_result st r s).
  - destruct (snapshot k st) as [[r0 s0]|]; [|discriminate].
    unfold scroll_and_parse, bind.
    destruct (scroll_round s0) as [[[]|e|] s1]; try discriminate.
    destruct (get_links_from_dom s1) as [[r|e|] s] eqn:Hg; try discriminate.
    intros [= <- <-]. now apply (get_links_from_dom_result s1 r s).
Qed.

Lemma scroll_round_outcome st :
  fst (scroll_round st) <> NoFuel /\
  (forall e, fst (scroll_round st) = Raised e -> is_javascript_exception e = false).
Proof.
  unfold scroll_round, bind, try_except, execute_script, lift_call, jitter, ret.
  destruct st as [w calls]. cbn [fst snd].
  destruct (driver_execute_script _ w) as [[e1|] w1]; cbn [fst snd].
  - destruct (is_javascript_exception e1) eqn:E1; cbn [fst snd].
    + match goal with
      | |- context [driver_execute_script "window.scrollBy(0, -200);" ?x] =>
          destruct (driver_execute_script "window.scrollBy(0, -200);" x)
            as [[e2|] w2]; cbn [fst snd]
      end.
      * destruct (is_javascript_exception e2) eqn:E2; cbn [fst snd];
          split; try discriminate; intros e [= <-]; exact E2.
      * destruct (driver_execute_script _ w2) as [[e3|] w3]; cbn [fst snd];
          [destruct (is_javascript_exception e3) eqn:E3; cbn [fst snd]|];
          split; try discriminate; intros e [= <-]; exact E3.
    + split; [discriminate|]. intros e [= <-]. exact E1.
  - match goal with
    | |- context [driver_execute_script "window.scrollBy(0, -200);" ?x] =>
        destruct (driver_execute_script "window.scrollBy(0, -200);" x)
          as [[e2|] w2]; cbn [fst snd]
    end.
    + destruct (is_javascript_exception e2) eqn:E2; cbn [fst snd];
        split; try discriminate; intros e [= <-]; exact E2.
    + destruct (driver_execute_script _ w2) as [[e3|] w3]; cbn [fst snd];
        [destruct (is_javascript_exception e3) eqn:E3; cbn [fst snd]|];
        split; try discriminate; intros e [= <-]; exact E3.
Qed.

Lemma scroll_round_first_failure w calls e w' :
  driver_execute_script "window.scrollTo(0, document.body.scrollHeight);" w
  = (Some e, w') ->
  is_javascript_exception e = false ->
  scroll_round (w, calls)
  = (Raised e,
     (w', (calls ++ [CallExecuteScript
                       "window.scrollTo(0, document.body.scrollHeight);"])%list)).
Proof.
  intros H He.
  unfold scroll_round, bind, try_except, execute_script, lift_call.
  cbn [fst snd]. rewrite H. cbn [fst snd]. now rewrite He.
Qed.

End DiscoveryMore.

(** X6. Whenever the discovery returns a list, that list is the snapshot of
    a round [r] that completes six consecutive rounds without growth, no
    earlier round did, and [r >= 6]: at least six scroll rounds are made
    even when the very first snapshot is final.  The list is the
    deduplicated link list of one parsed page, so no url occurs twice in
    it. *)
Theorem collect_all_course_cards_result :
  forall (World : Type) (D : Driver World) (fuel : nat)
         (st st' : @state World) (results : list (string * string)),
    collect_all_course_cards fuel st = (Ok results, st') ->
    (exists r,
        MAX_IDLE_SCROLLS <= r <= fuel /\
        snapshot r st = Some (results, st') /\
        idle_rounds r st = MAX_IDLE_SCROLLS /\
        (forall j, j < r -> idle_rounds j st < MAX_IDLE_SCROLLS)) /\
    (exists soup, results = links_of_soup soup) /\
    NoDup (map snd results).
Proof.
  intros World D fuel st st' results H.
  destruct (collect_returns fuel st results st' H) as (r & Hr & Hs & H6 & Hmin).
  destruct (snapshot_result r st results st' Hs) as [soup ->].
  split; [now exists r|]. split; [now exists soup|].
  unfold links_of_soup. rewrite dedup_links_firsts. apply firsts_NoDup.
Qed.

(** X6, witness: the simulated feed, allowed nine rounds. *)
Lemma collect_all_course_cards_result_witness :
  exists results st',
    @collect_all_course_cards nat feed_driver 9 (0, []) = (Ok results, st') /\
    (exists r,
        MAX_IDLE_SCROLLS <= r <= 9 /\
        @snapshot nat feed_driver r (0, []) = Some (results, st') /\
        @idle_rounds nat feed_driver r (0, []) = MAX_IDLE_SCROLLS /\
        (forall j, j < r -> @idle_rounds nat feed_driver j (0, []) < MAX_IDLE_SCROLLS)) /\
    (exists soup, results = links_of_soup soup) /\
    NoDup (map snd results).
Proof.
  destruct (@collect_all_course_cards nat feed_driver 9 (0, []))
    as [[results| |] st'] eqn:E; try (vm_compute in E; discriminate).
  exists results, st'. split; [reflexivity|].
  exact (@collect_all_course_cards_result nat feed_driver 9 (0, []) st' results E).
Defined.

(** X7. A scroll round never lets a [JavascriptException] escape: such an
    exception of a scroll script is swallowed and the round goes on with its
    pauses.  Any other exception of the first scroll script ends the round
    and the whole discovery loop at once with that exception, before any
    pause or re-parse. *)
Theorem scroll_round_exceptions :
  forall (World : Type) (D : Driver World),
    (forall (st : @state World),
        fst (scroll_round st) <> NoFuel /\
        (forall e, fst (scroll_round st) = Raised e ->
                   is_javascript_exception e = false)) /\
    (forall (w w' : World) (calls : list call) (e : exn) fuel results idle,
        driver_execute_script "window.scrollTo(0, document.body.scrollHeight);" w
        = (Some e, w') ->
        is_javascript_exception e = false ->
        scroll_loop (S fuel) results idle (w, calls)
        = (Raised e,
           (w', (calls ++ [CallExecuteScript
                             "window.scrollTo(0, document.body.scrollHeight);"])%list))).
Proof.
  intros World D. split; [apply scroll_round_outcome|].
  intros w w' calls e fuel results idle H He.
  rewrite scroll_loop_step. unfold scroll_and_parse, bind.
  now rewrite (scroll_round_first_failure w calls e w' H He).
Qed.

Section DiscoveryQuiet.
Context {World : Type} {D : Driver World}.
Hypothesis scripts_js : forall script (w : World) e w',
    driver_execute_script script w = (Some e, w') ->
    is_javascript_exception e = true.
Hypothesis source_ok : forall (w : World) e w',
    driver_page_source w <> (inl e, w').

Lemma scroll_round_quiet (st : @state World) :
  exists st', scroll_round st = (Ok tt, st').
Proof.
  destruct (scroll_round st) as [[[]|e|] st'] eqn:E.
  - now exists st'.
  - exfalso. pose proof (proj2 (scroll_round_outcome st) e) as Hn.
    rewrite E in Hn. specialize (Hn eq_refl).
    revert E. unfold scroll_round, bind, try_except, execute_script, lift_call, jitter, ret.
    destruct st as [w calls]. cbn [fst snd].
    destruct (driver_execute_script _ w) as [[e1|] w1] eqn:E1; cbn [fst snd].
    + rewrite (scripts_js _ _ _ _ E1). cbn [fst snd].
      match goal with
      | |- context [driver_execute_script "window.scrollBy(0, -200);" ?x] =>
          destruct (driver_execute_script "window.scrollBy(0, -200);" x)
            as [[e2|] w2] eqn:E2; cbn [fst snd]
      end.
      * rewrite (scripts_js _ _ _ _ E2). discriminate.
      * destruct (driver_execute_script _ w2) as [[e3|] w3] eqn:E3; cbn [fst snd];
          [rewrite (scripts_js _ _ _ _ E3)|]; discriminate.
    + match goal with
      | |- context [driver_execute_script "window.scrollBy(0, -200);" ?x] =>
          destruct (driver_execute_script "window.scrollBy(0, -200);" x)
            as [[e2|] w2] eqn:E2; cbn [fst snd]
      end.
      * rewrite (scripts_js _ _ _ _ E2). discriminate.
      * destruct (driver_execute_script _ w2) as [[e3|] w3] eqn:E3; cbn [fst snd];
          [rewrite (scripts_js _ _ _ _ E3)|]; discriminate.
  - exfalso. apply (proj1 (scroll_round_outcome st)). now rewrite E.
Qed.

Lemma get_links_from_dom_quiet (st : @state World) :
  exists res st', get_links_from_dom st = (Ok res, st').
Proof.
  unfold get_links_from_dom, bind, page_soup, ret.
  destruct (driver_page_source (fst st)) as [[e|soup] w] eqn:E.
  - exfalso. exact (source_ok _ _ _ E).
  - eauto.
Qed.

Lemma scroll_loop_quiet fuel :
  forall results idle (st : @state World) e,
    fst (scroll_loop fuel results idle st) <> Raised e.
Proof.
  induction fuel as [|fuel IH]; intros results idle st e.
  - discriminate.
  - cbn [scroll_loop]. unfold bind at 1.
    destruct (scroll_round_quiet st) as [st1 ->].
    unfold bind at 1.
    destruct (get_links_from_dom_quiet st1) as (res & st2 & ->).
    cbv zeta.
    destruct (MAX_IDLE_SCROLLS <=? _)%nat; [discriminate|apply IH].
Qed.

Lemma snapshot_quiet k (st : @state World) : snapshot k st <> None.
Proof.
  induction k as [|k IH]; cbn [snapshot].
  - destruct (get_links_from_dom_quiet st) as (res & st' & ->). discriminate.
  - destruct (snapshot k st) as [[r0 s0]|]; [|contradiction].
    unfold scroll_and_parse, bind.
    destruct (scroll_round_quiet s0) as [s1 ->].
    destruct (get_links_from_dom_quiet s1) as (res & st' & ->). discriminate.
Qed.

End DiscoveryQuiet.

(** X8. When the scroll scripts fail with nothing but
    [JavascriptException] and the page source can always be read, the
    discovery never raises, whatever the number of rounds it is allowed,
    and every round has a snapshot: failing scroll scripts alone cannot
    abort the discovery. *)
Theorem collect_all_course_cards_quiet :
  forall (World : Type) (D : Driver World),
    (forall script (w : World) e w',
        driver_execute_script script w = (Some e, w') ->
        is_javascript_exception e = true) ->
    (forall (w : World) e w', driver_page_source w <> (inl e, w')) ->
    forall (fuel : nat) (st : @state World),
      (forall e, fst (collect_all_course_cards fuel st) <> Raised e) /\
      (forall k, snapshot k st <> None).
Proof.
  intros World D Hjs Hps fuel st. split.
  - intros e. unfold collect_all_course_cards, bind.
    destruct (get_links_from_dom_quiet Hps st) as (res & st' & ->).
    apply (scroll_loop_quiet Hjs Hps).
  - intros k. apply (snapshot_quiet Hjs Hps).
Qed.

(** X8, witness: a browser in which every scroll script fails with a
    [JavascriptException]; the discovery still returns the links of the
    page, after six rounds. *)
Lemma collect_all_course_cards_quiet_witness :
  ((forall e, fst (@collect_all_course_cards unit stuck_driver 6 (tt, [])) <> Raised e) /\
   (forall k, @snapshot unit stuck_driver k (tt, []) <> None)) /\
  fst (@collect_all_course_cards unit stuck_driver 6 (tt, []))
  = Ok (links_of_soup repeated_card_page).
Proof.
  split; [|vm_compute; reflexivity].
  apply (@collect_all_course_cards_quiet unit stuck_driver).
  - intros script w e w' H. cbn in H. now injection H as <- _.
  - intros w e w'. cbn. discriminate.
Defined.

(** ** The concepts of a detail page *)

Lemma existsb_eqb_In (x : string) (l : list string) :
  existsb (String.eqb x) l = true <-> In x l.
Proof.
  rewrite existsb_exists. split.
  - intros (y & Hy & E). apply String.eqb_eq in E. now subst.
  - intros H. exists x. split; [exact H | apply String.eqb_refl].
Qed.

Lemma NoDup_snoc (x : string) (l : list string) :
  NoDup l -> ~ In x l -> NoDup (l ++ [x])%list.
Proof.
  intros Hl Hx. apply NoDup_app. repeat split.
  - exact Hl.
  - intros y Hy Hin. apply list_elem_of_In in Hy.
    apply list_elem_of_In in Hin. cbn in Hin. destruct Hin as [->|[]]. contradiction.
  - apply NoDup_singleton.
Qed.

Lemma fold_left_inv {A B : Type} (P : A -> Prop) (f : A -> B -> A) (l : list B) (a : A) :
  (forall a b, P a -> P (f a b)) -> P a -> P (fold_left f l a).
Proof. intros Hf. revert a. induction l as [|b l IH]; simpl; auto. Qed.

Lemma collected_append_new (l : list string) (s : option string) :
  collected l -> collected (append_new l (clean_text s)).
Proof.
  intros [Hnd Hall]. unfold append_new.
  destruct (nonempty (clean_text s)) eqn:Hne; [|now split].
  destruct (existsb _ l) eqn:Hex; [now split|]. cbn [negb andb]. split.
  - apply NoDup_snoc; [exact Hnd|]. rewrite <- existsb_eqb_In. congruence.
  - apply Forall_app. split; [exact Hall|]. constructor; [|constructor]. split.
    + intros E. now rewrite E in Hne.
    + apply clean_text_tidy.
Qed.

Lemma strategyA_collected (soup : node) : collected (strategyA soup).
Proof.
  unfold strategyA. apply fold_left_inv; [|split; constructor].
  intros l lst Hl. apply fold_left_inv; [|exact Hl].
  intros l' li Hl'. now apply collected_append_new.
Qed.

Lemma looks_like_skill_spec (txt : string) :
  looks_like_skill txt = true -> chip_like txt.
Proof.
  unfold looks_like_skill, chip_like. intros H.
  apply andb_prop in H as [H Hk]. apply andb_prop in H as [H1 H2].
  apply Nat.ltb_lt in H1. apply Nat.leb_le in H2. split; [lia|].
  apply existsb_exists in Hk as (k & Hin & Hc).
  exists k. split; [exact Hin|]. now apply contains_lower_spec.
Qed.

Lemma chip_like_nonempty (c : string) : chip_like c -> c <> "".
Proof. intros [[H _] _] ->. cbn in H. lia. Qed.

Lemma strategyB_collected (soup : node) :
  collected (strategyB soup) /\ Forall chip_like (strategyB soup).
Proof.
  unfold strategyB.
  apply (fold_left_inv (fun l => collected l /\ Forall chip_like l));
    [|repeat split; constructor].
  intros l chip [[Hnd Hall] Hchips]. cbv zeta.
  destruct (looks_like_skill _) eqn:Hs; [|now repeat split].
  destruct (existsb _ l) eqn:Hex; [now repeat split|]. cbn [negb].
  apply looks_like_skill_spec in Hs. repeat split.
  - apply NoDup_snoc; [exact Hnd|]. rewrite <- existsb_eqb_In. congruence.
  - apply Forall_app. split; [exact Hall|]. constructor; [|constructor]. split.
    + now apply chip_like_nonempty.
    + apply clean_text_tidy.
  - apply Forall_app. split; [exact Hchips|]. now constructor.
Qed.

Lemma cap_concepts_NoDup (l : list string) : NoDup l -> cap_concepts l = take 30 l.
Proof.
  intros H. rewrite cap_concepts_firsts. f_equal.
  apply firsts_NoDup_id. now rewrite map_id_eq.
Qed.

Lemma detail_concepts_take (soup : node) :
  detail_concepts soup
  = take 30 (match strategyA soup with [] => strategyB soup | l => l end).
Proof.
  unfold detail_concepts. cbv zeta.
  pose proof (strategyA_collected soup) as [Ha _].
  pose proof (strategyB_collected soup) as [[Hb _] _].
  destruct (strategyA soup) as [|x l]; now apply cap_concepts_NoDup.
Qed.

Lemma detail_concepts_items (soup : node) (c : string) :
  In c (detail_concepts soup) -> c <> "" /\ tidy c = true.
Proof.
  intros Hc. rewrite detail_concepts_take in Hc. apply In_take in Hc.
  pose proof (strategyA_collected soup) as [_ Ha].
  pose proof (strategyB_collected soup) as [[_ Hb] _].
  rewrite Forall_forall in Ha, Hb.
  destruct (strategyA soup) as [|x l].
  - apply Hb. now apply list_elem_of_In.
  - apply Ha. now apply list_elem_of_In.
Qed.

(** X9. Both collecting strategies already keep their list free of
    repetitions, so the final deduplication loop of the concepts block never
    removes anything: the concepts are the first 30 items of strategy A's
    list, or of strategy B's when A found nothing.  No returned concept is
    empty or untidy (leading, trailing or repeated whitespace); a concept
    found by strategy B has two to six words and contains one of the skill
    keywords up to letter case. *)
Theorem detail_concepts_shape :
  (forall soup,
      detail_concepts soup
      = take 30 (match strategyA soup with [] => strategyB soup | l => l end)) /\
  (forall soup c, In c (detail_concepts soup) -> c <> "" /\ tidy c = true) /\
  (forall soup c,
      strategyA soup = [] -> In c (detail_concepts soup) ->
      2 <= List.length (split c) <= 6 /\
      exists k, In k skill_keywords /\ occurs_ci k c).
Proof.
  split; [exact detail_concepts_take|]. split; [exact detail_concepts_items|].
  intros soup c HA Hc. rewrite detail_concepts_take, HA in Hc. apply In_take in Hc.
  pose proof (strategyB_collected soup) as [_ Hb].
  rewrite Forall_forall in Hb. apply (Hb c). now apply list_elem_of_In.
Qed.

(** ** The calls each part of the program makes *)

Section CallsOf.
Context {World : Type} {D : Driver World}.
Variable json_loads : string -> option pyval.
Variable py_str : pyval -> string.
Variable P : call -> Prop.

Lemma appends_ret {A : Type} (a : A) : appends P (@ret World A a).
Proof. intros st. exists []. cbn. now rewrite app_nil_r. Qed.

Lemma appends_no_fuel {A : Type} : appends P (@no_fuel World A).
Proof. intros st. exists []. cbn. now rewrite app_nil_r. Qed.

Lemma appends_bind {A B : Type} (m : @M World A) (k : A -> @M World B) :
  appends P m -> (forall a, appends P (k a)) -> appends P (bind m k).
Proof.
  intros Hm Hk st. unfold bind. destruct (Hm st) as (new1 & E1 & H1).
  destruct (m st) as [[a|e|] st1]; cbn [snd] in *.
  - destruct (Hk a st1) as (new2 & E2 & H2). exists (new1 ++ new2)%list.
    rewrite E2, E1, app_assoc. split; [reflexivity | now apply Forall_app].
  - now exists new1.
  - now exists new1.
Qed.

Lemma appends_try_except {A : Type} (m : @M World A) handles (handler : exn -> @M World A) :
  appends P m -> (forall e, appends P (handler e)) ->
  appends P (try_except m handles handler).
Proof.
  intros Hm Hh st. unfold try_except. destruct (Hm st) as (new1 & E1 & H1).
  destruct (m st) as [[a|e|] st1]; cbn [snd] in *.
  - now exists new1.
  - destruct (handles e); [|now exists new1].
    destruct (Hh e st1) as (new2 & E2 & H2). exists (new1 ++ new2)%list.
    rewrite E2, E1, app_assoc. split; [reflexivity | now apply Forall_app].
  - now exists new1.
Qed.

Lemma appends_lift_call (c : call) (op : World -> option exn * World) :
  P c -> appends P (lift_call c op).
Proof.
  intros Hc st. exists [c]. unfold lift_call.
  destruct (op (fst st)) as [[e|] w]; cbn [snd]; split; auto.
Qed.

Lemma appends_jitter (ab : Q * Q) :
  P (CallSleep (fst ab) (snd ab)) -> appends P (@jitter World D ab).
Proof. intros Hc st. exists [CallSleep (fst ab) (snd ab)]. cbn. auto. Qed.

Lemma appends_page_soup : P CallPageSource -> appends P (@page_soup World D).
Proof.
  intros Hc st. exists [CallPageSource]. unfold page_soup.
  destruct (driver_page_source (fst st)) as [[e|soup] w]; cbn [snd]; split; auto.
Qed.

Lemma appends_get_links_from_dom :
  P CallPageSource -> appends P (@get_links_from_dom World D).
Proof.
  intros Hc. unfold get_links_from_dom.
  apply appends_bind; [now apply appends_page_soup | intros; apply appends_ret].
Qed.

Lemma appends_scroll_round : passive P -> appends P (@scroll_round World D).
Proof.
  intros (Hs & Hj & Hp). unfold scroll_round, execute_script.
  apply appends_bind; [|intros _].
  { apply appends_try_except; [now apply appends_lift_call | intros _; apply appends_ret]. }
  apply appends_bind; [now apply appends_jitter | intros _].
  apply appends_bind; [|intros _; now apply appends_jitter].
  apply appends_try_except; [|intros _; apply appends_ret].
  apply appends_bind; [now apply appends_lift_call | intros _; now apply appends_lift_call].
Qed.

Lemma appends_scroll_loop fuel :
  passive P ->
  forall results idle, appends P (@scroll_loop World D fuel results idle).
Proof.
  intros HP. induction fuel as [|fuel IH]; intros results idle;
    cbn [scroll_loop]; [apply appends_no_fuel|].
  apply appends_bind; [now apply appends_scroll_round | intros _].
  apply appends_bind; [apply appends_get_links_from_dom, HP | intros res].
  cbv zeta. destruct (MAX_IDLE_SCROLLS <=? _)%nat; [apply appends_ret | apply IH].
Qed.

Lemma appends_collect fuel :
  passive P -> appends P (@collect_all_course_cards World D fuel).
Proof.
  intros HP. unfold collect_all_course_cards.
  apply appends_bind; [apply appends_get_links_from_dom, HP | intros res].
  now apply appends_scroll_loop.
Qed.

End CallsOf.

Lemma passive_not_quit : passive not_quit.
Proof. repeat split; intros; discriminate. Qed.

Lemma passive_not_navigation : passive not_navigation.
Proof. repeat split. Qed.

Lemma scraping_not_quit : scraping not_quit.
Proof. repeat split; intros; discriminate. Qed.

Lemma scraping_bounded_pause : scraping bounded_pause.
Proof. repeat split; cbn; auto; unfold Qle, Qlt; cbn; lia. Qed.

Section CallsOfScrape.
Context {World : Type} {D : Driver World}.
Variable json_loads : string -> option pyval.
Variable py_str : pyval -> string.
Variable P : call -> Prop.
Hypothesis HP : scraping P.

Lemma appends_attempt link :
  appends P (@attempt World D json_loads py_str link).
Proof.
  destruct HP as ((_ & _ & Hsrc) & Hget & Hwait & Hdetail & _).
  unfold attempt, parse_course_detail, get_url, wait_body.
  apply appends_bind; [apply appends_lift_call, Hget | intros _].
  apply appends_bind; [apply appends_lift_call, Hwait | intros _].
  apply appends_bind; [apply appends_jitter, Hdetail | intros _].
  apply appends_bind; [apply appends_page_soup, Hsrc | intros soup].
  apply appends_ret.
Qed.

Lemma appends_visit_detail language title link data :
  forall fuel tries,
    appends P
            (@visit_detail World D json_loads py_str fuel language title link data tries).
Proof.
  induction fuel as [|fuel IH]; intros tries; cbn [visit_detail];
    destruct (negb (tries <=? RETRY_DETAIL)%nat);
    try apply appends_ret; try apply appends_no_fuel.
  intros st. destruct (appends_attempt link st) as (new1 & E1 & H1).
  destruct (attempt json_loads py_str link st) as [[detail|e|] st1]; cbn [snd] in *;
    try (now exists new1).
  destruct (is_webdriver_exception e); [|now exists new1].
  assert (Hk : appends P
                 (jitter (20 # 10, 35 # 10)%Q ;;;
                  @visit_detail World D json_loads py_str fuel language title link
                                data (tries + 1))).
  { apply appends_bind; [apply appends_jitter, HP | intros _; apply IH]. }
  destruct (Hk st1) as (new2 & E2 & H2). exists (new1 ++ new2)%list.
  rewrite E2, E1, app_assoc. split; [reflexivity | now apply Forall_app].
Qed.

Lemma appends_visit_links fuel language :
  forall links seen data,
    appends P
            (@visit_links World D json_loads py_str fuel language links seen data).
Proof.
  induction links as [|[title link] links IH]; intros seen data; cbn [visit_links].
  - apply appends_ret.
  - destruct (decide (link ∈ seen)); [apply IH|].
    apply appends_bind; [apply appends_visit_detail | intros data1].
    apply appends_bind; [apply appends_jitter, HP | intros _; apply IH].
Qed.

Lemma appends_scrape_language fuel language :
  appends P (@scrape_language World D json_loads py_str fuel language).
Proof.
  unfold scrape_language, get_url, wait_body.
  apply appends_bind; [apply appends_lift_call, HP | intros _].
  apply appends_bind; [apply appends_lift_call, HP | intros _].
  apply appends_bind; [apply appends_jitter, HP | intros _].
  apply appends_bind; [apply appends_collect, HP | intros links].
  apply appends_visit_links.
Qed.

Lemma appends_scrape_all fuel :
  forall languages all_rows,
    appends P (@scrape_all World D json_loads py_str fuel languages all_rows).
Proof.
  induction languages as [|lang languages IH]; intros all_rows; cbn [scrape_all].
  - apply appends_ret.
  - apply appends_bind; [apply appends_scrape_language | intros rows; apply IH].
Qed.

End CallsOfScrape.

(** ** The rows made for the links of one keyword *)

Lemma join_cons_nonempty (sep x : string) (l : list string) :
  x <> "" -> join sep (x :: l) <> "".
Proof.
  intros Hx. destruct l as [|y l]; cbn [join]; [exact Hx|].
  intros E. apply str_app_eq_nil in E as [E _]. contradiction.
Qed.

Lemma normalize_level_values (text l : string) :
  normalize_level text = Some l ->
  l = "Beginner" \/ l = "Intermediate" \/ l = "Advanced".
Proof.
  unfold normalize_level.
  destruct (contains "beginner" _); [intros [= <-]; auto|].
  destruct (contains "intermediate" _); [intros [= <-]; auto|].
  destruct (contains "advanced" _); [intros [= <-]; auto | discriminate].
Qed.

Lemma detail_level_values (soup : node) (l : string) :
  detail_level soup = Some l ->
  l = "Beginner" \/ l = "Intermediate" \/ l = "Advanced".
Proof.
  unfold detail_level. intros H.
  apply first_some_some in H as (l1 & el & l2 & _ & H & _).
  now apply normalize_level_values in H.
Qed.

Section Rows.
Context {World : Type} {D : Driver World}.
Variable json_loads : string -> option pyval.
Variable py_str : pyval -> string.
Implicit Types (st : @state World).

Lemma make_row_of_link data language title link soup :
  row_of_link language (List.length data + 1) (title, link)
    (make_row data language title link (parse_detail_soup json_loads py_str soup)).
Proof.
  unfold row_of_link, make_row, parse_detail_soup.
  cbn [course_id programming_language course_name course_link course_duration
       course_level concepts fst snd].
  repeat split.
  - destruct (truthy (detail_duration json_loads py_str soup)) eqn:E; [exact E | reflexivity].
  - destruct (detail_level soup) as [l|] eqn:E; [|cbn; tauto].
    destruct (detail_level_values soup l E) as [-> | [-> | ->]]; cbn; tauto.
  - pose proof (detail_concepts_items soup) as Hitems.
    destruct (detail_concepts soup) as [|c l]; [discriminate|].
    apply join_cons_nonempty. apply (Hitems c). now left.
Qed.

Lemma attempt_result link st detail st' :
  attempt json_loads py_str link st = (Ok detail, st') ->
  exists soup, detail = parse_detail_soup json_loads py_str soup.
Proof.
  unfold attempt, parse_course_detail, bind, ret.
  destruct (get_url link st) as [[[]|e|] st1]; try discriminate.
  destruct (wait_body st1) as [[[]|e|] st2]; try discriminate.
  destruct (jitter DETAIL_PAUSE st2) as [[[]|e|] st3]; try discriminate.
  destruct (page_soup st3) as [[soup|e|] st4]; try discriminate.
  intros [= <- <-]. now exists soup.
Qed.

Lemma visit_detail_rows language title link data :
  forall fuel tries st data' st',
    visit_detail json_loads py_str fuel language title link data tries st
    = (Ok data', st') ->
    data' = data \/
    exists soup,
      data' = (data ++ [make_row data language title link
                                 (parse_detail_soup json_loads py_str soup)])%list.
Proof.
  induction fuel as [|fuel IH]; intros tries st data' st' H.
  - cbn [visit_detail] in H.
    destruct (negb (tries <=? RETRY_DETAIL)%nat); [|discriminate].
    injection H as <- <-. now left.
  - destruct (Nat.le_gt_cases tries RETRY_DETAIL) as [Hle|Hgt].
    2:{ rewrite visit_detail_done in H by assumption. injection H as <- <-. now left. }
    rewrite visit_detail_step in H by assumption.
    destruct (attempt json_loads py_str link st) as [[detail|e|] st1] eqn:Ha;
      [| |discriminate].
    + injection H as <- <-. right.
      destruct (attempt_result _ _ _ _ Ha) as [soup ->]. now exists soup.
    + destruct (is_webdriver_exception e).
      * now apply IH in H.
      * injection H as <- <-. now left.
Qed.

Lemma visit_links_rows fuel language :
  forall links seen data st data' st',
    visit_links json_loads py_str fuel language links seen data st = (Ok data', st') ->
    exists visited added,
      data' = (data ++ added)%list /\
      sublist visited links /\
      NoDup (map snd visited) /\
      (forall tl, In tl visited -> snd tl ∉ seen) /\
      rows_match language (List.length data + 1) visited added.
Proof.
  induction links as [|[title link] links IH]; intros seen data st data' st' H.
  - injection H as <- <-. exists [], []. rewrite app_nil_r.
    repeat split; auto; try constructor; intros tl [].
  - cbn [visit_links] in H. destruct (decide (link ∈ seen)) as [Hin|Hnot].
    + destruct (IH _ _ _ _ _ H) as (visited & added & -> & Hsub & Hnd & Hseen & Hm).
      exists visited, added. repeat split; auto. now apply sublist_cons.
    + unfold bind at 1 in H.
      destruct (visit_detail json_loads py_str fuel language title link data 0 st)
        as [[data1|e|] st1] eqn:Hv; try discriminate.
      unfold bind at 1 in H. cbn [jitter] in H.
      destruct (IH _ _ _ _ _ H) as (visited & added & -> & Hsub & Hnd & Hseen & Hm).
      destruct (visit_detail_rows _ _ _ _ _ _ _ _ _ Hv) as [-> | [soup ->]].
      * exists visited, added. repeat split; auto.
        -- now apply sublist_cons.
        -- intros tl Htl. specialize (Hseen tl Htl). set_solver.
      * exists ((title, link) :: visited),
          (make_row data language title link
                    (parse_detail_soup json_loads py_str soup) :: added).
        rewrite length_app in Hm. cbn [List.length] in Hm.
        replace (List.length data + 1 + 1) with (S (List.length data + 1)) in Hm by lia.
        split; [|split; [|split; [|split]]].
        -- now rewrite <- app_assoc.
        -- now apply sublist_skip.
        -- cbn [map snd]. apply NoDup_cons. split; [|exact Hnd].
           intros Hl. apply list_elem_of_In, in_map_iff in Hl as (tl & E & Htl).
           specialize (Hseen tl Htl). rewrite E in Hseen. set_solver.
        -- intros tl [<-|Htl]; [exact Hnot|].
           specialize (Hseen tl Htl). set_solver.
        -- split; [apply make_row_of_link | exact Hm].
Qed.

End Rows.

(** X10. The rows the link loop of [scrape_language] returns stand for a
    subsequence of the links, in the order of the links and with no link
    used twice: the k-th row carries the provisional id C followed by [k] on
    four digits, the keyword, the cleaned title and the url of its link, a
    duration that is never empty (N/A when nothing was found), a level among
    Beginner, Intermediate, Advanced and N/A, and a non-empty concepts
    text. *)
Theorem visit_links_row_fields :
  forall (World : Type) (D : Driver World)
         (json_loads : string -> option pyval) (py_str : pyval -> string)
         (fuel : nat) (language : string) (links : list (string * string))
         (st st' : @state World) (rows : list row),
    visit_links json_loads py_str fuel language links ∅ [] st = (Ok rows, st') ->
    exists visited,
      sublist visited links /\
      NoDup (map snd visited) /\
      rows_match language 1 visited rows.
Proof.
  intros World D json_loads py_str fuel language links st st' rows H.
  destruct (visit_links_rows json_loads py_str fuel language _ _ _ _ _ _ H)
    as (visited & added & -> & Hsub & Hnd & _ & Hm).
  exists visited. auto.
Qed.

(** X10, witness: two links, the first of which always times out. *)
Lemma visit_links_row_fields_witness :
  exists rows st',
    @visit_links unit flaky_driver json_loads_sample py_str_sample 3
                 "Python" two_links ∅ [] (tt, []) = (Ok rows, st') /\
    exists visited,
      sublist visited two_links /\
      NoDup (map snd visited) /\
      rows_match "Python" 1 visited rows.
Proof.
  destruct (@visit_links unit flaky_driver json_loads_sample py_str_sample 3
                         "Python" two_links ∅ [] (tt, []))
    as [[rows| |] st'] eqn:E; try (vm_compute in E; discriminate).
  exists rows, st'. split; [reflexivity|].
  exact (@visit_links_row_fields unit flaky_driver json_loads_sample py_str_sample
           3 "Python" two_links (tt, []) st' rows E).
Defined.

(** ** One keyword from search page to rows *)


Section ScrapeLanguage.
Context {World : Type} {D : Driver World}.
Variable json_loads : string -> option pyval.
Variable py_str : pyval -> string.
Implicit Types (st : @state World).





End ScrapeLanguage.



(** The same run, evaluated: two rows, three navigations. *)
Example scrape_language_small_site :
  exists st',
    @scrape_language string site_driver json_loads_sample py_str_sample 6
                     "Machine Learning" ("", [])
    = (Ok [ {| course_id := "C0001";
               programming_language := "Machine Learning";
               course_name := "Python Basics";
               course_duration := PyStr "6 weeks";
               concepts := "Loops; Functions";
               course_level := "Beginner";
               course_link := "https://www.coursera.org/learn/python" |};
            {| course_id := "C0002";
               programming_language := "Machine Learning";
               course_name := "SQL for Data";
               course_duration := PyStr "6 weeks";
               concepts := "Loops; Functions";
               course_level := "Beginner";
               course_link := "https://www.coursera.org/learn/sql" |} ], st') /\
    filter (fun c => is_navigation c) (snd st')
    = [ CallGet "https://www.coursera.org/search?query=Machine+Learning&productTypeDescription=courses";
        CallGet "https://www.coursera.org/learn/python";
        CallGet "https://www.coursera.org/learn/sql" ].
Proof. eexists. split; vm_compute; reflexivity. Qed.

(** ** The whole run *)

Section WholeRun.
Context {World : Type} {D : Driver World}.
Variable json_loads : string -> option pyval.
Variable py_str : pyval -> string.
Implicit Types (st : @state World).

Lemma scrape_language_search_fails fuel language w calls e w' :
  driver_get (SEARCH_URL (replace_space_plus language)) w = (Some e, w') ->
  scrape_language json_loads py_str fuel language (w, calls)
  = (Raised e, (w', (calls ++ [CallGet (SEARCH_URL (replace_space_plus language))])%list)).
Proof.
  intros H. unfold scrape_language, bind, get_url, lift_call. cbn [fst snd].
  now rewrite H.
Qed.

Lemma resequence_length (rows : list row) (i : nat) :
  List.length (resequence i rows) = List.length rows.
Proof.
  revert i. induction rows as [|r rows IH]; intros i; simpl; [reflexivity|].
  now rewrite IH.
Qed.

Lemma main_calls fuel st :
  exists new,
    snd (snd (main json_loads py_str fuel st)) = (snd st ++ new ++ [CallQuit])%list /\
    Forall not_quit new.
Proof.
  destruct (appends_scrape_all json_loads py_str not_quit scraping_not_quit
              fuel LANGUAGES [] st) as (new & Hnew & Hall).
  exists new. split; [|exact Hall].
  unfold main, bind, try_finally, ret, quit, lift_call.
  destruct (scrape_all json_loads py_str fuel LANGUAGES [] st) as [outcome st1].
  cbn [snd] in Hnew.
  destruct (driver_quit (fst st1)) as [[e|] w2]; cbn [fst snd];
    [|destruct outcome]; cbn [snd]; now rewrite Hnew, app_assoc.
Qed.

End WholeRun.

(** X12. A failure of a keyword's search-page navigation is not retried:
    the scrape of that keyword raises after the one navigation, the loop
    over the keywords ends there whatever rows it has accumulated, and no
    later keyword is searched.  When this happens at the first keyword,
    [main] closes the browser and raises the same exception, having made
    just these two calls. *)
Theorem search_failure_aborts_run :
  forall (World : Type) (D : Driver World)
         (json_loads : string -> option pyval) (py_str : pyval -> string)
         (fuel : nat) (language : string) (w w' : World) (calls : list call) (e : exn),
    driver_get (SEARCH_URL (replace_space_plus language)) w = (Some e, w') ->
    let failed :=
      (w', (calls ++ [CallGet (SEARCH_URL (replace_space_plus language))])%list) in
    scrape_language json_loads py_str fuel language (w, calls) = (Raised e, failed) /\
    (forall rest all_rows,
        scrape_all json_loads py_str fuel (language :: rest) all_rows (w, calls)
        = (Raised e, failed)) /\
    (forall rest w'',
        LANGUAGES = language :: rest ->
        driver_quit w' = (None, w'') ->
        main json_loads py_str fuel (w, calls)
        = (Raised e,
           (w'', (calls ++ [CallGet (SEARCH_URL (replace_space_plus language));
                            CallQuit])%list))).
Proof.
  intros World D json_loads py_str fuel language w w' calls e H failed.
  pose proof (scrape_language_search_fails json_loads py_str fuel language w calls e w' H)
    as Hl.
  split; [exact Hl|]. split.
  - intros rest all_rows. cbn [scrape_all]. unfold bind. now rewrite Hl.
  - intros rest w'' HL Hq. unfold main, bind, try_finally. rewrite HL.
    cbn [scrape_all]. unfold bind. rewrite Hl.
    unfold quit, lift_call. cbn [fst snd]. rewrite Hq. cbn [fst snd].
    now rewrite <- app_assoc.
Qed.

(** X12, witness: a browser without network. *)
Lemma search_failure_aborts_run_witness :
  @main unit offline_driver json_loads_sample py_str_sample 6 (tt, [])
  = (Raised WebDriverException,
     (tt, [ CallGet "https://www.coursera.org/search?query=Java&productTypeDescription=courses";
            CallQuit ])).
Proof.
  refine (proj2 (proj2 (@search_failure_aborts_run unit offline_driver json_loads_sample
                          py_str_sample 6 "Java" tt tt [] WebDriverException _))
                _ tt _ _); reflexivity.
Defined.

(** X13. Whatever happens during the scrape, [main] closes the browser
    exactly once and as the last thing it does with it: [quit] is the final
    call of every run and no earlier call is a [quit].  An exception raised
    by [quit] itself leaves [main] in place of the scrape's outcome.  When
    [main] returns rows, the scrape of all keywords returned normally and
    the rows are its rows, as many, with new ids. *)
Theorem main_quits_once :
  forall (World : Type) (D : Driver World)
         (json_loads : string -> option pyval) (py_str : pyval -> string)
         (fuel : nat) (st : @state World),
    (exists new,
        snd (snd (main json_loads py_str fuel st)) = (snd st ++ new ++ [CallQuit])%list /\
        Forall not_quit new) /\
    (forall e,
        fst (quit (snd (scrape_all json_loads py_str fuel LANGUAGES [] st))) = Raised e ->
        fst (main json_loads py_str fuel st) = Raised e) /\
    (forall rows,
        fst (main json_loads py_str fuel st) = Ok rows ->
        exists all_rows,
          fst (scrape_all json_loads py_str fuel LANGUAGES [] st) = Ok all_rows /\
          rows = resequence 1 all_rows /\
          List.length rows = List.length all_rows).
Proof.
  intros World D json_loads py_str fuel st. split; [apply main_calls|]. split.
  - intros e. unfold main, bind, try_finally.
    destruct (scrape_all json_loads py_str fuel LANGUAGES [] st) as [outcome st1].
    cbn [snd]. destruct (quit st1) as [[[]|e'|] st2]; cbn [fst]; try discriminate.
    now intros [= ->].
  - intros rows. unfold main, bind, try_finally, ret.
    destruct (scrape_all json_loads py_str fuel LANGUAGES [] st) as [outcome st1].
    destruct (quit st1) as [[[]|e'|] st2]; cbn [fst]; try discriminate.
    destruct outcome as [all_rows|e|]; cbn [fst]; try discriminate.
    intros [= <-]. exists all_rows. repeat split. apply resequence_length.
Qed.

(** ** The shape of a duration taken from the page text *)

Lemma first_some_prop {A B : Type} (P : B -> Prop) (f : A -> option B) (l : list A) (y : B) :
  (forall x z, f x = Some z -> P z) -> first_some f l = Some y -> P y.
Proof.
  intros Hf H. apply first_some_some in H as (l1 & x & l2 & _ & H & _).
  exact (Hf x y H).
Qed.

Lemma tidy_strip (t : string) : tidy t = true -> strip t = t.
Proof.
  intros H. pose proof (tidy_fixed t H) as Hc.
  rewrite clean_text_collapse in Hc.
  unfold tidy in H. apply andb_prop in H as [Hs _].
  now rewrite (collapse_single_spaced _ Hs) in Hc.
Qed.

Lemma strip_head (c : ascii) (s : string) :
  isspace c = false ->
  strip (String c s) <> "" /\ strip (strip (String c s)) = strip (String c s).
Proof.
  intros Hc. unfold strip at 1 3. cbn [lstrip]. rewrite Hc.
  destruct (rstrip_head c s Hc) as [r Hr]. rewrite Hr. split; [discriminate|].
  unfold strip. cbn [lstrip]. rewrite Hc, <- Hr. apply rstrip_idem.
Qed.

Lemma if_nonempty_parse (txt s : string) :
  if_nonempty (parse_duration_from_text txt) = Some s -> found_text s.
Proof.
  unfold if_nonempty. destruct (parse_duration_from_text txt) as [d|] eqn:E; [|discriminate].
  destruct (nonempty d) eqn:Hd; [|discriminate]. intros [= <-].
  split; [intros ->; discriminate|].
  now destruct (proj2 parse_duration_result txt d E) as (_ & _ & H & _).
Qed.

Lemma short_enough_sniff (txt s : string) :
  short_enough (extract_duration_like txt) = Some s -> found_text s.
Proof.
  intros H. apply short_enough_spec in H as (H & Hne & _). split; [exact Hne|].
  apply tidy_strip. now destruct (proj2 (extract_duration_like_result txt) s H).
Qed.

Lemma lit_i_head (c : ascii) (s : string) prev w rest :
  matches (lit_i (String c s)) prev w rest ->
  exists d w', w = String d w' /\ is_char_i c d = true.
Proof.
  destruct s as [|c' s]; cbn [lit_i]; intros H.
  - inversion H; subst. eauto.
  - apply matches_cat_inv in H as (w1 & w2 & -> & H1 & _).
    inversion H1; subst. eauto.
Qed.

Lemma is_char_i_c_not_space (d : ascii) :
  is_char_i "c" d = true -> isspace d = false.
Proof. destruct d as [[] [] [] [] [] [] [] []]; vm_compute; congruence. Qed.

Lemma search_group0_head (r : re) (t g : string) :
  (forall prev w rest, matches r prev w rest ->
     exists c w', w = String c w' /\ isspace c = false) ->
  search_group0 r t = Some g ->
  strip g <> "" /\ strip (strip g) = strip g.
Proof.
  intros Hr H. unfold search_group0 in H.
  destruct (search r t) as [[i n]|] eqn:Hs; [|discriminate]. injection H as <-.
  destruct (search_leftmost _ _ _ _ Hs) as (pre & w & rest & _ & _ & _ & Hm & -> & _).
  destruct (Hr _ _ _ Hm) as (c & w' & -> & Hc). now apply strip_head.
Qed.

Lemma number_first_head (r : re) prev w rest :
  matches (Cat number_re r) prev w rest ->
  exists c w', w = String c w' /\ isspace c = false.
Proof.
  intros H. apply matches_cat_inv in H as (w1 & w2 & -> & H1 & _).
  apply matches_number_head in H1 as (c & w' & -> & Hc).
  exists c, (w' ++ w2). split; [reflexivity | now apply isdigit_not_space].
Qed.

Lemma complete_first_head (r : re) prev w rest :
  matches (Cat (lit_i "complete") r) prev w rest ->
  exists c w', w = String c w' /\ isspace c = false.
Proof.
  intros H. apply matches_cat_inv in H as (w1 & w2 & -> & H1 & _).
  apply lit_i_head in H1 as (c & w' & -> & Hc).
  exists c, (w' ++ w2). split; [reflexivity | now apply is_char_i_c_not_space].
Qed.

Lemma strategy7_text (soup : node) (s : string) :
  strategy7 soup = Some s -> found_text s.
Proof.
  unfold strategy7. cbv zeta.
  set (page_text := clean_text (Some (get_text " " false soup))).
  destruct (search_group0 hours_per_week_re page_text) as [g|] eqn:E1.
  { intros [= <-]. apply (search_group0_head hours_per_week_re page_text g); [|exact E1].
    apply number_first_head. }
  destruct (search_group0 complete_in_re page_text) as [g|] eqn:E2.
  { intros [= <-]. apply (search_group0_head complete_in_re page_text g); [|exact E2].
    apply complete_first_head. }
  destruct (search_group0 weeks_long_re page_text) as [g|] eqn:E3; [|discriminate].
  intros [= <-]. apply (search_group0_head weeks_long_re page_text g); [|exact E3].
  apply number_first_head.
Qed.

Section DurationText.
Variable json_loads : string -> option pyval.
Variable py_str : pyval -> string.

Lemma strategy_texts (soup : node) (s : string) :
  In (Some (PyStr s))
     [ as_str (strategy1 soup); as_str (strategy3 soup); as_str (strategy4 soup);
       as_str (strategy5 soup); as_str (strategy6 soup); as_str (strategy7 soup);
       as_str (strategy8 soup) ] ->
  found_text s.
Proof.
  unfold as_str. intros H.
  repeat (destruct H as [H|H];
          [match type of H with
           | option_map _ ?x = _ => destruct x as [d|] eqn:E; [|discriminate]
           end; injection H as ->; revert E | ]); [| | | | | | | contradiction].
  - unfold strategy1. apply (first_some_prop found_text). intros pattern z.
    apply (first_some_prop found_text). intros el y. apply short_enough_sniff.
  - unfold strategy3. apply (first_some_prop found_text). intros section z.
    apply (first_some_prop found_text). intros el y. cbv zeta.
    destruct (search number_unit_re (element_text el)); [|discriminate].
    apply short_enough_sniff.
  - unfold strategy4. apply (first_some_prop found_text). intros selector z.
    apply (first_some_prop found_text). intros el y. apply if_nonempty_parse.
  - unfold strategy5. apply (first_some_prop found_text). intros keyword z.
    apply (first_some_prop found_text). intros el y.
    apply (first_some_prop found_text). intros sibling x. apply if_nonempty_parse.
  - unfold strategy6. apply (first_some_prop found_text). intros el y. apply if_nonempty_parse.
  - apply strategy7_text.
  - unfold strategy8. apply (first_some_prop found_text). intros el y. cbv zeta.
    destruct (_ && _); [apply if_nonempty_parse | discriminate].
Qed.

Lemma unless_found_shape (soup : node) (d : pyval) (f : option pyval) :
  duration_shape json_loads py_str soup d ->
  (forall v, f = Some v -> duration_shape json_loads py_str soup v) ->
  duration_shape json_loads py_str soup (unless_found d f).
Proof.
  intros Hd Hf. unfold unless_found. destruct (truthy d); [exact Hd|].
  destruct f as [v|]; [now apply Hf | exact Hd].
Qed.

Lemma detail_duration_has_shape (soup : node) :
  duration_shape json_loads py_str soup (detail_duration json_loads py_str soup).
Proof.
  assert (Htext : forall f v,
             In f [ as_str (strategy1 soup); as_str (strategy3 soup);
                    as_str (strategy4 soup); as_str (strategy5 soup);
                    as_str (strategy6 soup); as_str (strategy7 soup);
                    as_str (strategy8 soup) ] ->
             f = Some v -> duration_shape json_loads py_str soup v).
  { intros f v Hin ->. right. right.
    assert (exists s, v = PyStr s) as [s ->].
    { unfold as_str in Hin.
      repeat (destruct Hin as [Hin|Hin];
              [match type of Hin with
               | option_map _ ?x = _ => destruct x as [d|]; [|discriminate]
               end; injection Hin as <-; now exists d | ]).
      contradiction. }
    exists s. split; [reflexivity|]. now apply (strategy_texts soup). }
  unfold detail_duration. cbv zeta.
  repeat (apply unless_found_shape;
          [|first [ intros v Hv; right; left; exact Hv
                  | intros v; apply Htext; cbn; tauto ]]).
  now left.
Qed.

End DurationText.

(** X14. Whatever the page, the duration that [parse_course_detail] returns
    is [None], or the value the structured-data strategy read (of any type,
    taken as it is), or a text found on the page; such a text is never empty
    and never begins or ends with whitespace.  Only the structured-data
    strategy can therefore yield a duration that is empty, not a text, or
    padded with blanks. *)
Theorem detail_duration_shape :
  forall (json_loads : string -> option pyval) (py_str : pyval -> string)
         (soup : node),
    detail_duration json_loads py_str soup = PyNone \/
    strategy2 json_loads py_str soup
    = Some (detail_duration json_loads py_str soup) \/
    exists s,
      detail_duration json_loads py_str soup = PyStr s /\ s <> "" /\ strip s = s.
Proof.
  intros json_loads py_str soup.
  destruct (detail_duration_has_shape json_loads py_str soup) as [H|[H|(s & H & Hs)]].
  - now left.
  - right. now left.
  - right. right. exists s. split; [exact H | exact Hs].
Qed.

(** ** Pacing: pauses between navigations *)

Lemma pace_app (r : bool) (a b : list call) :
  pace r (a ++ b) = match pace r a with Some r' => pace r' b | None => None end.
Proof.
  revert r. induction a as [|c a IH]; intros r; [reflexivity|].
  destruct c; cbn [app pace]; try apply IH.
  destruct r; [apply IH | reflexivity].
Qed.

Lemma pace_passive (r : bool) (new : list call) :
  Forall not_navigation new ->
  exists r', pace r new = Some r' /\ (r = true -> r' = true).
Proof.
  intros H. revert r. induction H as [|c new Hc _ IH]; intros r.
  - now exists r.
  - destruct c; cbn [pace]; try apply IH; try discriminate Hc.
    destruct (IH true) as (r' & E & Hr). exists r'. split; [exact E | auto].
Qed.

Lemma pace_tired (mid : list call) (url : string) (b : list call) :
  pace false (mid ++ CallGet url :: b) <> None ->
  exists lo hi, In (CallSleep lo hi) mid.
Proof.
  induction mid as [|c mid IH]; intros H.
  - now contradiction H.
  - destruct c; cbn [app pace] in H;
      try (destruct (IH H) as (lo & hi & Hin); exists lo, hi; now right).
    + now contradiction H.
    + exists a, b0. now left.
Qed.

Lemma pace_between (r : bool) (a mid b : list call) (url1 url2 : string) :
  pace r (a ++ CallGet url1 :: mid ++ CallGet url2 :: b) <> None ->
  exists lo hi, In (CallSleep lo hi) mid.
Proof.
  rewrite pace_app. destruct (pace r a) as [ra|]; [|intros H; now contradiction H].
  cbn [pace]. destruct ra; [|intros H; now contradiction H].
  apply pace_tired.
Qed.

Section Pacing.
Context {World : Type} {D : Driver World}.
Variable json_loads : string -> option pyval.
Variable py_str : pyval -> string.

Lemma paced_ret {A : Type} (r : bool) (a : A) (Q : bool -> Prop) :
  Q r -> paced r (@ret World A a) Q.
Proof. intros HQ st. exists [], r. cbn. rewrite app_nil_r. auto. Qed.

Lemma paced_no_fuel {A : Type} (r : bool) (Q : bool -> Prop) :
  paced r (@no_fuel World A) Q.
Proof. intros st. exists [], r. cbn. rewrite app_nil_r. repeat split. discriminate. Qed.

Lemma paced_bind {A B : Type} (r : bool) (m : @M World A) (k : A -> @M World B)
      (Q1 Q2 : bool -> Prop) :
  paced r m Q1 -> (forall a r1, Q1 r1 -> paced r1 (k a) Q2) ->
  paced r (bind m k) Q2.
Proof.
  intros Hm Hk st. unfold bind. destruct (Hm st) as (new1 & r1 & E1 & P1 & HQ1).
  destruct (m st) as [[a|e|] st1]; cbn [fst snd] in *.
  - destruct (Hk a r1 (HQ1 a eq_refl) st1) as (new2 & r2 & E2 & P2 & HQ2).
    exists (new1 ++ new2)%list, r2. rewrite E2, E1, app_assoc, pace_app, P1. auto.
  - exists new1, r1. repeat split; auto. discriminate.
  - exists new1, r1. repeat split; auto. discriminate.
Qed.

Lemma paced_get_url (url : string) :
  paced true (@get_url World D url) (eq false).
Proof.
  intros st. exists [CallGet url], false. unfold get_url, lift_call.
  destruct (driver_get url (fst st)) as [[e|] w]; cbn; auto.
Qed.

Lemma paced_wait_body (r : bool) : paced r (@wait_body World D) (eq r).
Proof.
  intros st. exists [CallWaitBody], r. unfold wait_body, lift_call.
  destruct (driver_wait_body (fst st)) as [[e|] w]; cbn; auto.
Qed.

Lemma paced_jitter (r : bool) (ab : Q * Q) : paced r (@jitter World D ab) (eq true).
Proof. intros st. exists [CallSleep (fst ab) (snd ab)], true. cbn. auto. Qed.

Lemma paced_page_soup (r : bool) : paced r (@page_soup World D) (eq r).
Proof.
  intros st. exists [CallPageSource], r. unfold page_soup.
  destruct (driver_page_source (fst st)) as [[e|soup] w]; cbn; auto.
Qed.

Lemma paced_passive {A : Type} (m : @M World A) :
  appends not_navigation m -> paced true m (eq true).
Proof.
  intros Hm st. destruct (Hm st) as (new & E & Hall).
  destruct (pace_passive true new Hall) as (r' & P' & Hr).
  exists new, r'. rewrite (Hr eq_refl) in *. auto.
Qed.

Lemma paced_attempt (link : string) :
  paced true (@attempt World D json_loads py_str link) (eq true).
Proof.
  unfold attempt, parse_course_detail.
  apply (paced_bind _ _ _ (eq false)); [apply paced_get_url | intros _ r1 <-].
  apply (paced_bind _ _ _ (eq false)); [apply paced_wait_body | intros _ r1 <-].
  apply (paced_bind _ _ _ (eq true)); [apply paced_jitter | intros _ r1 <-].
  apply (paced_bind _ _ _ (eq true)); [apply paced_page_soup | intros soup r1 <-].
  now apply paced_ret.
Qed.

Lemma paced_visit_detail language title link data :
  forall fuel tries,
    paced true (@visit_detail World D json_loads py_str fuel language title link
                              data tries)
          (fun _ => True).
Proof.
  induction fuel as [|fuel IH]; intros tries; cbn [visit_detail];
    destruct (negb (tries <=? RETRY_DETAIL)%nat);
    try (now apply paced_ret); try apply paced_no_fuel.
  intros st. destruct (paced_attempt link st) as (new1 & r1 & E1 & P1 & _).
  destruct (attempt json_loads py_str link st) as [[detail|e|] st1]; cbn [fst snd] in *;
    try (exists new1, r1; now auto).
  destruct (is_webdriver_exception e); [|exists new1, r1; now auto].
  assert (Hk : paced r1
                 (jitter (20 # 10, 35 # 10)%Q ;;;
                  @visit_detail World D json_loads py_str fuel language title link
                                data (tries + 1))
                 (fun _ => True)).
  { apply (paced_bind _ _ _ (eq true)); [apply paced_jitter | intros _ r2 <-; apply IH]. }
  destruct (Hk st1) as (new2 & r2 & E2 & P2 & _).
  exists (new1 ++ new2)%list, r2. rewrite E2, E1, app_assoc, pace_app, P1. auto.
Qed.

Lemma paced_visit_links fuel language :
  forall links seen data,
    paced true (@visit_links World D json_loads py_str fuel language links seen data)
          (eq true).
Proof.
  induction links as [|[title link] links IH]; intros seen data; cbn [visit_links].
  - now apply paced_ret.
  - destruct (decide (link ∈ seen)); [apply IH|].
    apply (paced_bind _ _ _ (fun _ => True)); [apply paced_visit_detail | intros data1 r1 _].
    apply (paced_bind _ _ _ (eq true)); [apply paced_jitter | intros _ r2 <-; apply IH].
Qed.

Lemma paced_scrape_language fuel language :
  paced true (@scrape_language World D json_loads py_str fuel language) (eq true).
Proof.
  unfold scrape_language.
  apply (paced_bind _ _ _ (eq false)); [apply paced_get_url | intros _ r1 <-].
  apply (paced_bind _ _ _ (eq false)); [apply paced_wait_body | intros _ r1 <-].
  apply (paced_bind _ _ _ (eq true)); [apply paced_jitter | intros _ r1 <-].
  apply (paced_bind _ _ _ (eq true)); [|intros links r1 <-; apply paced_visit_links].
  apply paced_passive, appends_collect, passive_not_navigation.
Qed.

Lemma paced_scrape_all fuel :
  forall languages all_rows,
    paced true (@scrape_all World D json_loads py_str fuel languages all_rows)
          (eq true).
Proof.
  induction languages as [|lang languages IH]; intros all_rows; cbn [scrape_all].
  - now apply paced_ret.
  - apply (paced_bind _ _ _ (eq true)); [apply paced_scrape_language|].
    intros rows r1 <-. apply IH.
Qed.

Lemma main_log fuel (st : @state World) :
  exists new,
    snd (snd (main json_loads py_str fuel st)) = (snd st ++ new)%list /\
    pace true new <> None /\ Forall bounded_pause new.
Proof.
  destruct (paced_scrape_all fuel LANGUAGES [] st) as (new & r1 & E & P1 & _).
  destruct (appends_scrape_all json_loads py_str bounded_pause scraping_bounded_pause
              fuel LANGUAGES [] st) as (new' & E' & Hall).
  assert (new' = new) as -> by (rewrite E in E'; now apply app_inv_head in E').
  exists (new ++ [CallQuit])%list. split; [|split].
  - unfold main, bind, try_finally, ret, quit, lift_call.
    destruct (scrape_all json_loads py_str fuel LANGUAGES [] st) as [outcome st1].
    cbn [snd] in E.
    destruct (driver_quit (fst st1)) as [[e|] w2]; cbn [fst snd];
      [|destruct outcome]; cbn [snd]; now rewrite E, app_assoc.
  - rewrite pace_app, P1. discriminate.
  - apply Forall_app. split; [exact Hall|]. now repeat constructor.
Qed.

End Pacing.

(** X15. The run is paced, whatever the browser does and however the run
    ends: between any two navigations of [main] there is at least one
    pause, and every pause of the run is drawn from an interval that starts
    at 0.8 seconds or more and ends at 3.5 seconds or less.  No two pages
    are therefore requested less than 0.8 seconds apart. *)
Theorem main_is_paced :
  forall (World : Type) (D : Driver World)
         (json_loads : string -> option pyval) (py_str : pyval -> string)
         (fuel : nat) (st : @state World),
  exists new,
    snd (snd (main json_loads py_str fuel st)) = (snd st ++ new)%list /\
    (forall a url1 mid url2 b,
        new = (a ++ CallGet url1 :: mid ++ CallGet url2 :: b)%list ->
        exists lo hi, In (CallSleep lo hi) mid) /\
    (forall lo hi,
        In (CallSleep lo hi) new ->
        (8 # 10 <= lo)%Q /\ (lo < hi)%Q /\ (hi <= 35 # 10)%Q).
Proof.
  intros World D json_loads py_str fuel st.
  destruct (main_log json_loads py_str fuel st) as (new & E & Hp & Hall).
  exists new. split; [exact E|]. split.
  - intros a url1 mid url2 b ->. now apply pace_between in Hp.
  - intros lo hi Hin. rewrite Forall_forall in Hall.
    apply (Hall (CallSleep lo hi)). now apply list_elem_of_In.
Qed.

(** ** The two duration readers agree *)

Lemma has_digit_app (a b : string) : has_digit (a ++ b) = has_digit a || has_digit b.
Proof. induction a as [|c a IH]; simpl; [reflexivity|]. now rewrite IH, orb_assoc. Qed.

Lemma isdigit_lower_char (c : ascii) : isdigit (lower_char c) = isdigit c.
Proof. destruct c as [[] [] [] [] [] [] [] []]; vm_compute; reflexivity. Qed.

Lemma has_digit_lower (s : string) : has_digit (lower s) = has_digit s.
Proof. induction s as [|c s IH]; simpl; [reflexivity|]. now rewrite IH, isdigit_lower_char. Qed.

Lemma has_digit_blank (s : string) : blank s = true -> has_digit s = false.
Proof.
  induction s as [|c s IH]; simpl; [reflexivity|].
  destruct (isspace c) eqn:Hc; [|discriminate]. intros H. rewrite (IH H).
  destruct (isdigit c) eqn:Hd; [|reflexivity].
  apply isdigit_not_space in Hd. congruence.
Qed.

Lemma has_digit_split_ws (s : string) : forall cur,
  existsb has_digit (split_ws cur s) = has_digit cur || has_digit s.
Proof.
  induction s as [|c s IH]; intros cur; cbn [split_ws has_digit].
  - destruct cur; cbn [existsb]; now rewrite ?orb_false_r.
  - destruct (isspace c) eqn:Hc.
    + assert (isdigit c = false) as ->.
      { destruct (isdigit c) eqn:Hd; [|reflexivity].
        apply isdigit_not_space in Hd. congruence. }
      destruct cur; cbn [existsb]; rewrite IH; reflexivity.
    + rewrite IH, has_digit_app. cbn [has_digit].
      now rewrite orb_false_r, orb_assoc.
Qed.

Lemma has_digit_join (l : list string) :
  has_digit (join " " l) = existsb has_digit l.
Proof.
  induction l as [|x l IH]; [reflexivity|].
  destruct l as [|y l].
  - cbn [join existsb]. now rewrite orb_false_r.
  - change (join " " (x :: y :: l)) with (x ++ " " ++ join " " (y :: l)).
    rewrite !has_digit_app, IH. reflexivity.
Qed.

Lemma has_digit_clean_text (s : string) :
  has_digit (clean_text (Some s)) = has_digit s.
Proof.
  rewrite clean_text_join_split, has_digit_join. unfold split.
  now rewrite has_digit_split_ws.
Qed.

Lemma extract_duration_like_digits (text d : string) :
  extract_duration_like text = Some d -> has_digit d = has_digit text.
Proof.
  intros H.
  destruct (proj2 (extract_duration_like_result text) d H)
    as (_ & _ & label & Hc & Hlabel).
  rewrite <- (has_digit_clean_text text), Hc, has_digit_app.
  destruct Hlabel as [->|(name & sp & Hin & Hlow & Hsp)]; [reflexivity|].
  rewrite <- (has_digit_lower label), Hlow, !has_digit_app, (has_digit_blank _ Hsp).
  unfold duration_labels in Hin. cbn [In] in Hin.
  destruct Hin as [<-|[<-|[<-|[<-|[<-|[]]]]]]; reflexivity.
Qed.

Lemma extract_duration_like_accepts (text k : string) :
  In k time_keywords -> occurs_ci k text -> has_digit text = true ->
  exists d, extract_duration_like text = Some d /\ d <> "".
Proof.
  intros Hin Hocc Hd.
  destruct (extract_duration_like text) as [d|] eqn:E.
  - exists d. split; [reflexivity|]. intros ->.
    apply extract_duration_like_digits in E. rewrite Hd in E. discriminate.
  - exfalso. apply (proj1 (proj1 (extract_duration_like_result text)) E k Hin Hocc).
Qed.

Lemma matches_lit (s : string) : forall prev w rest,
  matches (lit s) prev w rest -> w = s.
Proof.
  induction s as [|c s IH]; intros prev w rest H.
  - inversion H; reflexivity.
  - assert (Hc : forall p w0 r0, matches (Chr (is_char c)) p w0 r0 -> w0 = String c "").
    { intros p w0 r0 H0. inversion H0; subst. unfold is_char in *.
      f_equal. now apply Ascii.eqb_eq. }
    destruct s as [|d s].
    + exact (Hc _ _ _ H).
    + change (lit (String c (String d s)))
        with (Cat (Chr (is_char c)) (lit (String d s))) in H.
      apply matches_cat_inv in H as (w1 & w2 & -> & H1 & H2).
      rewrite (Hc _ _ _ H1), (IH _ _ _ H2). reflexivity.
Qed.

Lemma matches_alts_lit (us : list string) prev w rest :
  us <> [] -> matches (alts (map lit us)) prev w rest -> In w us.
Proof.
  induction us as [|u us IH]; [congruence|]. intros _ H.
  destruct us as [|u' us].
  - cbn [map alts] in H. left. symmetry. now apply matches_lit in H.
  - change (alts (map lit (u :: u' :: us)))
      with (Alt (lit u) (alts (map lit (u' :: us)))) in H.
    apply matches_alt_inv in H as [H|H].
    + left. symmetry. now apply matches_lit in H.
    + right. now apply IH.
Qed.

Lemma matches_alts_lit_i (us : list string) prev w rest :
  us <> [] -> matches (alts (map lit_i us)) prev w rest ->
  exists u, In u us /\ lower w = lower u.
Proof.
  induction us as [|u us IH]; [congruence|]. intros _ H.
  destruct us as [|u' us].
  - cbn [map alts] in H. exists u. split; [now left | now apply matches_lit_i in H].
  - change (alts (map lit_i (u :: u' :: us)))
      with (Alt (lit_i u) (alts (map lit_i (u' :: us)))) in H.
    apply matches_alt_inv in H as [H|H].
    + exists u. split; [now left | now apply matches_lit_i in H].
    + destruct IH as (x & Hx & E); [discriminate | exact H|].
      exists x. split; [now right | exact E].
Qed.

(** The unit of a number-and-unit match is one of the time keywords. *)
Lemma number_unit_keyword (us : list string) (tail : re) prev w rest :
  us <> [] -> (forall u, In u us -> In u time_keywords) ->
  matches (Cat number_re (Cat (Star isspace) (Cat (alts (map lit us)) tail)))
          prev w rest ->
  exists k, In k time_keywords /\ occurs k w.
Proof.
  intros Hne Hus H.
  apply matches_cat_inv in H as (w1 & w23 & -> & _ & H).
  apply matches_cat_inv in H as (w2 & w34 & -> & _ & H).
  apply matches_cat_inv in H as (w3 & w4 & -> & H & _).
  apply matches_alts_lit in H; [|exact Hne].
  exists w3. split; [now apply Hus|].
  exists (w1 ++ w2), w4. now rewrite !str_app_assoc.
Qed.

Lemma number_unit_keyword_last (us : list string) prev w rest :
  us <> [] -> (forall u, In u us -> In u time_keywords) ->
  matches (Cat number_re (Cat (Star isspace) (alts (map lit us)))) prev w rest ->
  exists k, In k time_keywords /\ occurs k w.
Proof.
  intros Hne Hus H.
  apply matches_cat_inv in H as (w1 & w23 & -> & _ & H).
  apply matches_cat_inv in H as (w2 & w3 & -> & _ & H).
  apply matches_alts_lit in H; [|exact Hne].
  exists w3. split; [now apply Hus|].
  exists (w1 ++ w2), "". now rewrite !str_app_assoc, str_app_nil_r.
Qed.

Lemma numeric_pattern_keyword p prev w rest :
  In p numeric_patterns -> matches p prev w rest ->
  exists k, In k time_keywords /\ occurs k w.
Proof.
  unfold numeric_patterns. cbn [In].
  intros [<-|[<-|[<-|[<-|[<-|[]]]]]] H.
  - apply (number_unit_keyword [ "hour"; "hours"; "hr"; "hrs" ] _ _ _ _
             ltac:(discriminate)) in H; [exact H|].
    intros u Hu. cbn in Hu |- *. tauto.
  - apply (number_unit_keyword_last [ "week"; "weeks"; "wk"; "wks" ] _ _ _
             ltac:(discriminate)) in H; [exact H|].
    intros u Hu. cbn in Hu |- *. tauto.
  - apply (number_unit_keyword_last [ "month"; "months"; "mo"; "mos" ] _ _ _
             ltac:(discriminate)) in H; [exact H|].
    intros u Hu. cbn in Hu |- *. tauto.
  - apply (number_unit_keyword_last [ "day"; "days" ] _ _ _
             ltac:(discriminate)) in H; [exact H|].
    intros u Hu. cbn in Hu |- *. tauto.
  - apply (number_unit_keyword_last [ "minute"; "minutes"; "min"; "mins" ] _ _ _
             ltac:(discriminate)) in H; [exact H|].
    intros u Hu. cbn in Hu |- *. tauto.
Qed.

Lemma occurs_has_digit (c : ascii) (r s : string) :
  isdigit c = true -> occurs (String c r) s -> has_digit s = true.
Proof.
  intros Hc (pre & post & ->). rewrite !has_digit_app. cbn [has_digit].
  rewrite Hc. cbn. apply orb_true_r.
Qed.

Lemma parse_then_sniff (text r : string) :
  parse_duration_from_text text = Some r ->
  exists d, extract_duration_like text = Some d /\ d <> "".
Proof.
  intros H.
  destruct (proj2 parse_duration_result text r H) as ((c & r' & -> & Hc) & Hocc & _).
  rewrite parse_duration_numeric in H.
  destruct (first_match_some _ _ _ H) as (ps1 & p & ps2 & g & Hps & _ & Hg & _).
  unfold search_group0 in Hg.
  destruct (search p (lower text)) as [[i n]|] eqn:Hs; [|discriminate].
  destruct (search_leftmost _ _ _ _ Hs) as (pre & w & rest & Ht & _ & _ & Hm & _).
  assert (Hp : In p numeric_patterns).
  { rewrite Hps. apply in_or_app. right. now left. }
  destruct (numeric_pattern_keyword _ _ _ _ Hp Hm) as (k & Hk & (a & b & ->)).
  apply (extract_duration_like_accepts text k Hk).
  - apply contains_lower_spec, contains_spec. exists (pre ++ a), (b ++ rest).
    rewrite Ht. now rewrite !str_app_assoc.
  - rewrite <- has_digit_lower. exact (occurs_has_digit c r' _ Hc Hocc).
Qed.

Lemma number_unit_then_sniff (txt : string) :
  search number_unit_re txt <> None ->
  exists d, extract_duration_like txt = Some d /\ d <> "".
Proof.
  intros H. apply search_found in H as (pre & w & rest & -> & Hm).
  unfold number_unit_re in Hm. cbn [cats] in Hm.
  apply matches_cat_inv in Hm as (w0 & wa & -> & _ & Hm).
  apply matches_cat_inv in Hm as (w1 & wb & -> & Hd & Hm).
  apply matches_cat_inv in Hm as (w2 & wc & -> & _ & Hm).
  apply matches_cat_inv in Hm as (w3 & w4 & -> & Hu & _).
  change (alts [ lit_i "hour"; lit_i "hours"; lit_i "week"; lit_i "weeks";
                 lit_i "month"; lit_i "months"; lit_i "day"; lit_i "days";
                 lit_i "hr"; lit_i "hrs"; lit_i "wk"; lit_i "wks" ])
    with (alts (map lit_i [ "hour"; "hours"; "week"; "weeks"; "month"; "months";
                            "day"; "days"; "hr"; "hrs"; "wk"; "wks" ])) in Hu.
  apply matches_alts_lit_i in Hu as (u & Hin & Hlow); [|discriminate].
  unfold Plus in Hd. apply matches_cat_inv in Hd as (d1 & d2 & -> & Hd & _).
  inversion Hd as [| | |p c prev0 rest0 Hc| | | | | | |]; subst.
  apply (extract_duration_like_accepts _ u).
  - cbn in Hin |- *. tauto.
  - exists (pre ++ w0 ++ (String c "" ++ d2) ++ w2), w3, (w4 ++ rest). split.
    + now rewrite !str_app_assoc.
    + rewrite Hlow. cbn in Hin.
      repeat (destruct Hin as [<-|Hin]; [reflexivity|]). contradiction.
  - rewrite !has_digit_app. cbn [has_digit]. rewrite Hc. cbn.
    now rewrite !orb_true_r.
Qed.

(** X16. The two duration readers agree.  Removing the label never removes
    a digit: the result of [extract_duration_like] contains a digit exactly
    when its input does.  Whatever text [parse_duration_from_text] reads a
    duration from, [extract_duration_like] accepts too, with a non-empty
    result; so does every text that passes the number-and-unit test of
    strategy 3.  In strategy 3 a candidate that has passed that test is
    therefore skipped only when its sniffed text has 50 characters or
    more. *)
Theorem duration_readers_agree :
  (forall text d,
      extract_duration_like text = Some d -> has_digit d = has_digit text) /\
  (forall text r,
      parse_duration_from_text text = Some r ->
      exists d, extract_duration_like text = Some d /\ d <> "") /\
  (forall txt,
      search number_unit_re txt <> None ->
      exists d,
        extract_duration_like txt = Some d /\ d <> "" /\
        (short_enough (extract_duration_like txt) = None <->
         50 <= String.length d)).
Proof.
  split; [exact extract_duration_like_digits|]. split; [exact parse_then_sniff|].
  intros txt H. destruct (number_unit_then_sniff txt H) as (d & E & Hne).
  exists d. split; [exact E|]. split; [exact Hne|].
  rewrite E. unfold short_enough.
  destruct d as [|c d]; [congruence|]. cbn [nonempty andb].
  destruct (Nat.ltb_spec (String.length (String c d)) 50); split;
    try discriminate; try reflexivity; lia.
Qed.
